(** * industrial_extrinsic_cal: the calibration job

    A shallow embedding of
    [src/industrial_extrinsic_cal/src/calibration_job_definition.cpp]
    ([CalibrationJob::run], [runObservations], [load], [runOptimization])
    and the properties of the specification that concern it.

    Conventions.
    - A C++ [double] is a binary64 float ([PrimFloat.float]); [int] and
      [unsigned int] are [Z] (no arithmetic is done on them here).
    - [shared_ptr<Target>] is an address into a store of [Target] objects,
      because [load] writes through such pointers while they are shared.
    - [P_BLOCK] ([double*]) is a handle into the store of parameter blocks
      owned by the registry.
    - Calls into the capture interface of a camera are recorded as events;
      the answers of the outside world come from an oracle that sees the
      whole history.
    - The busy wait of [runObservations] is bounded by a fuel argument;
      running out of fuel is the outcome [Spin].
    - The YAML layer is external: a node is given by what each extraction
      that [load] performs on it yields, a value or an exception.
    - An exception that no [catch] clause names, and a null or dangling
      pointer that is dereferenced, end the function without a return: the
      outcome [Raise]. *)

From Stdlib Require Import PrimFloat ZArith.
From stdpp Require Import gmap strings list fin_maps.

Open Scope Z_scope.
Open Scope string_scope.
Open Scope list_scope.

Abbreviation double := float (only parsing).

(** ** Data model *)

(** [Pose6d]: three angle-axis components and three position components. *)
Record Pose6d := mkPose6d {
  pose_ax : double; pose_ay : double; pose_az : double;
  pose_x : double; pose_y : double; pose_z : double }.

Record Point3d := mkPoint3d { pnt_x : double; pnt_y : double; pnt_z : double }.

Record CheckerBoardParameters := mkCheckerBoard {
  pattern_rows : Z; pattern_cols : Z }.

Record Target := mkTarget {
  target_name : string;
  is_moving : bool;
  pose : Pose6d;
  num_points : Z;
  pts : list Point3d;
  checker_board_parameters : CheckerBoardParameters }.

(** [CameraParameters]: [angle_axis[3]], [position[3]] and the nine
    intrinsic scalars. *)
Record CameraParameters := mkCameraParameters {
  angle_axis : double * double * double;
  position : double * double * double;
  focal_length_x : double; focal_length_y : double;
  center_x : double; center_y : double;
  distortion_k1 : double; distortion_k2 : double; distortion_k3 : double;
  distortion_p1 : double; distortion_p2 : double }.

(** The capture interface attached to a camera.  [load] builds a
    [ROSCameraObserver] from the image topic of a static camera. *)
Inductive CameraObserver := ROSCameraObserver (image_topic : string).

Record Camera := mkCamera {
  camera_name_ : string;
  camera_parameters_ : CameraParameters;
  is_moving_ : bool;
  camera_observer_ : option CameraObserver }.

Definition isMoving (c : Camera) : bool := is_moving_ c.

Abbreviation ptr := nat (only parsing).
Abbreviation P_BLOCK := nat (only parsing).

Record Roi := mkRoi { x_min : Z; x_max : Z; y_min : Z; y_max : Z }.

Record Trigger := mkTrigger { trigger_type : Z; trigger_popup_msg : string }.

Record ObservationCmd := mkObservationCmd {
  cmd_camera : Camera; cmd_target : ptr; cmd_roi : Roi }.

Record Observation := mkObservation {
  obs_target : ptr;
  point_id : Z;
  image_loc_x : double;
  image_loc_y : double }.

Record ObservationScene := mkScene {
  scene_id_ : Z;
  trig_ : Trigger;
  cameras_in_scene_ : list Camera;
  observation_command_list_ : list ObservationCmd }.

Record ObservationDataPoint := mkODP {
  odp_camera_name_ : string;
  odp_target_name_ : string;
  odp_scene_id_ : Z;
  camera_intrinsics_ : P_BLOCK;
  camera_extrinsics_ : P_BLOCK;
  odp_point_id_ : Z;
  target_pose_ : P_BLOCK;
  point_position_ : P_BLOCK;
  image_x_ : double;
  image_y_ : double }.

(** ** The parameter-block registry *)

Module Registry.

(** Modelled from the spec: the class [CeresBlocks] (its source file is not
    part of the sources).  The registry owns every parameter block, keyed by
    role, entity name and optional scene id; a block, once created, keeps its
    handle.  Cameras and targets are catalogued by name; targets are
    referenced, not copied. *)
Record CeresBlocks := mkCeresBlocks {
  blocks : list (list double);
  intrinsics : gmap string nat;
  extrinsics : gmap (string * option Z) nat;
  target_pose : gmap (string * option Z) nat;
  target_point : gmap (string * Z) nat;
  cameras : gmap string Camera;
  targets : gmap string nat }.

Definition empty : CeresBlocks :=
  mkCeresBlocks [] ∅ ∅ ∅ ∅ ∅ ∅.

(** Modelled from the spec: [clearCamerasTargets] resets the registry to
    empty. *)
Definition clearCamerasTargets (r : CeresBlocks) : CeresBlocks := empty.

Definition intrinsics_values (p : CameraParameters) : list double :=
  [focal_length_x p; focal_length_y p; center_x p; center_y p;
   distortion_k1 p; distortion_k2 p; distortion_k3 p;
   distortion_p1 p; distortion_p2 p].

Definition extrinsics_values (p : CameraParameters) : list double :=
  let '(a0, a1, a2) := angle_axis p in
  let '(p0, p1, p2) := position p in
  [a0; a1; a2; p0; p1; p2].

Definition pose_values (p : Pose6d) : list double :=
  [pose_ax p; pose_ay p; pose_az p; pose_x p; pose_y p; pose_z p].

Definition point_values (p : Point3d) : list double :=
  [pnt_x p; pnt_y p; pnt_z p].

Definition ensure_intrinsics (c : Camera) (r : CeresBlocks) : CeresBlocks :=
  match intrinsics r !! camera_name_ c with
  | Some _ => r
  | None =>
      mkCeresBlocks (blocks r ++ [intrinsics_values (camera_parameters_ c)])
        (<[camera_name_ c := length (blocks r)]> (intrinsics r))
        (extrinsics r) (target_pose r) (target_point r) (cameras r) (targets r)
  end.

Definition ensure_extrinsics (c : Camera) (scene : option Z) (r : CeresBlocks)
  : CeresBlocks :=
  match extrinsics r !! (camera_name_ c, scene) with
  | Some _ => r
  | None =>
      mkCeresBlocks (blocks r ++ [extrinsics_values (camera_parameters_ c)])
        (intrinsics r)
        (<[(camera_name_ c, scene) := length (blocks r)]> (extrinsics r))
        (target_pose r) (target_point r) (cameras r) (targets r)
  end.

Definition catalog_camera (c : Camera) (r : CeresBlocks) : CeresBlocks :=
  match cameras r !! camera_name_ c with
  | Some _ => r
  | None =>
      mkCeresBlocks (blocks r) (intrinsics r) (extrinsics r) (target_pose r)
        (target_point r) (<[camera_name_ c := c]> (cameras r)) (targets r)
  end.

Definition addCamera (c : Camera) (scene : option Z) (r : CeresBlocks)
  : CeresBlocks :=
  catalog_camera c (ensure_extrinsics c scene (ensure_intrinsics c r)).

(** Modelled from the spec: [addStaticCamera(cam)] and
    [addMovingCamera(cam, scene_id)] create the intrinsics block if absent
    and the shared, respectively scene-private, extrinsics block if absent. *)
Definition addStaticCamera (c : Camera) : CeresBlocks -> CeresBlocks :=
  addCamera c None.

Definition addMovingCamera (c : Camera) (scene_id : Z)
  : CeresBlocks -> CeresBlocks :=
  addCamera c (Some scene_id).

Definition ensure_pose (t : Target) (scene : option Z) (r : CeresBlocks)
  : CeresBlocks :=
  match target_pose r !! (target_name t, scene) with
  | Some _ => r
  | None =>
      mkCeresBlocks (blocks r ++ [pose_values (pose t)])
        (intrinsics r) (extrinsics r)
        (<[(target_name t, scene) := length (blocks r)]> (target_pose r))
        (target_point r) (cameras r) (targets r)
  end.

(** One point block per point id, ids counted from [id] on. *)
Fixpoint add_points (name : string) (id : Z) (l : list Point3d)
    (r : CeresBlocks) : CeresBlocks :=
  match l with
  | [] => r
  | p :: l' =>
      add_points name (id + 1) l'
        (mkCeresBlocks (blocks r ++ [point_values p])
           (intrinsics r) (extrinsics r) (target_pose r)
           (<[(name, id) := length (blocks r)]> (target_point r))
           (cameras r) (targets r))
  end.

(** The first time a target name is seen: its point blocks are created and
    the target is catalogued under that name. *)
Definition ensure_points (p : nat) (t : Target) (r : CeresBlocks)
  : CeresBlocks :=
  match targets r !! target_name t with
  | Some _ => r
  | None =>
      let r' := add_points (target_name t) 0 (pts t) r in
      mkCeresBlocks (blocks r') (intrinsics r') (extrinsics r')
        (target_pose r') (target_point r') (cameras r')
        (<[target_name t := p]> (targets r'))
  end.

Definition addTarget (p : nat) (t : Target) (scene : option Z)
    (r : CeresBlocks) : CeresBlocks :=
  ensure_points p t (ensure_pose t scene r).

(** Modelled from the spec: [addStaticTarget(t)] and
    [addMovingTarget(t, scene_id)] create the pose block (shared, or private
    to the scene) if absent, and one point block per point id the first time
    the target name is seen.  [p] is the pointer passed, [t] the object it
    points to at the time of the call. *)
Definition addStaticTarget (p : nat) (t : Target)
  : CeresBlocks -> CeresBlocks :=
  addTarget p t None.

Definition addMovingTarget (p : nat) (t : Target) (scene_id : Z)
  : CeresBlocks -> CeresBlocks :=
  addTarget p t (Some scene_id).

(** Modelled from the spec: the lookups are pure; [None] is the [NotFound]
    condition. *)
Definition getStaticCameraParameterBlockIntrinsics (name : string)
    (r : CeresBlocks) : option nat := intrinsics r !! name.

Definition getMovingCameraParameterBlockIntrinsics (name : string)
    (r : CeresBlocks) : option nat := intrinsics r !! name.

Definition getStaticCameraParameterBlockExtrinsics (name : string)
    (r : CeresBlocks) : option nat := extrinsics r !! (name, None).

Definition getMovingCameraParameterBlockExtrinsics (name : string)
    (scene_id : Z) (r : CeresBlocks) : option nat :=
  extrinsics r !! (name, Some scene_id).

Definition getStaticTargetPoseParameterBlock (name : string)
    (r : CeresBlocks) : option nat := target_pose r !! (name, None).

Definition getMovingTargetPoseParameterBlock (name : string) (scene_id : Z)
    (r : CeresBlocks) : option nat := target_pose r !! (name, Some scene_id).

Definition getStaticTargetPointParameterBlock (name : string) (pnt_id : Z)
    (r : CeresBlocks) : option nat := target_point r !! (name, pnt_id).

Definition getMovingTargetPointParameterBlock (name : string) (pnt_id : Z)
    (r : CeresBlocks) : option nat := target_point r !! (name, pnt_id).

Definition getCameraByName (name : string) (r : CeresBlocks)
  : option Camera := cameras r !! name.

Definition getTargetByName (name : string) (r : CeresBlocks)
  : option nat := targets r !! name.

End Registry.

(** ** The optimization problem handed to the solver *)

(** The cost function built by [TargetCameraReprjErrorNoDistortion::Create]:
    the observed pixel, four intrinsic values and the point position are
    constants of the cost function. *)
Record CostFunction := TargetCameraReprjErrorNoDistortion {
  cf_ob_x : double; cf_ob_y : double;
  cf_fx : double; cf_fy : double; cf_cx : double; cf_cy : double;
  cf_pnt_x : double; cf_pnt_y : double; cf_pnt_z : double }.

(** One call of [problem_.AddResidualBlock(cost, loss, blocks...)]; the loss
    function is [NULL] at the only call site. *)
Record ResidualBlock := mkResidualBlock {
  cost_function : CostFunction;
  loss_is_null : bool;
  parameter_blocks : list P_BLOCK }.

Inductive LinearSolverType := DENSE_SCHUR | SPARSE_NORMAL_CHOLESKY.

Record SolverOptions := mkSolverOptions {
  linear_solver_type : LinearSolverType;
  minimizer_progress_to_stdout : bool;
  max_num_iterations : Z }.

(** ** Interaction with the outside world *)

Inductive Event :=
| EvClearObservations (o : CameraObserver)
| EvClearTargets (o : CameraObserver)
| EvAddTarget (o : CameraObserver) (target : ptr) (roi : Roi)
| EvTriggerCamera (o : CameraObserver)
| EvObservationsDone (o : CameraObserver) (done : bool)
| EvGetObservations (o : CameraObserver) (observations : list Observation)
| EvSolve (options : SolverOptions) (problem : list ResidualBlock)
    (converged : bool).

(** What the outside world answers, given everything that happened so far. *)
Record World := mkWorld {
  observationsDone_answer : list Event -> CameraObserver -> bool;
  getObservations_answer : list Event -> CameraObserver -> list Observation }.

(** ** State of the job and of the memory it works on *)

Record State := mkState {
  ceres_blocks_ : Registry.CeresBlocks;
  scene_list_ : list ObservationScene;
  observation_data_point_list : list ObservationDataPoint;
  problem_ : list ResidualBlock;
  target_store : list Target;
  events : list Event }.

Definition set_ceres_blocks (f : Registry.CeresBlocks -> Registry.CeresBlocks)
    (s : State) : State :=
  mkState (f (ceres_blocks_ s)) (scene_list_ s)
    (observation_data_point_list s) (problem_ s) (target_store s) (events s).

Definition set_scene_list (f : list ObservationScene -> list ObservationScene)
    (s : State) : State :=
  mkState (ceres_blocks_ s) (f (scene_list_ s))
    (observation_data_point_list s) (problem_ s) (target_store s) (events s).

Definition set_items
    (f : list ObservationDataPoint -> list ObservationDataPoint)
    (s : State) : State :=
  mkState (ceres_blocks_ s) (scene_list_ s)
    (f (observation_data_point_list s)) (problem_ s) (target_store s)
    (events s).

Definition set_problem (f : list ResidualBlock -> list ResidualBlock)
    (s : State) : State :=
  mkState (ceres_blocks_ s) (scene_list_ s)
    (observation_data_point_list s) (f (problem_ s)) (target_store s)
    (events s).

Definition set_target_store (f : list Target -> list Target)
    (s : State) : State :=
  mkState (ceres_blocks_ s) (scene_list_ s)
    (observation_data_point_list s) (problem_ s) (f (target_store s))
    (events s).

Definition set_events (f : list Event -> list Event) (s : State) : State :=
  mkState (ceres_blocks_ s) (scene_list_ s)
    (observation_data_point_list s) (problem_ s) (target_store s)
    (f (events s)).

(** ** A state monad with errors and divergence *)

Inductive Error :=
| NotFoundError   (* a registry lookup signalled NotFound *)
| BadPointer      (* a pointer or handle that designates no live object *)
| RepresentationException.
                  (* an extraction from a YAML node threw *)

Inductive Outcome (A : Type) :=
| Ret (a : A) (s : State)
| Raise (e : Error)
| Spin.
Arguments Ret {A} a s.
Arguments Raise {A} e.
Arguments Spin {A}.

Definition M (A : Type) : Type := State -> Outcome A.

#[global] Instance M_ret : MRet M := fun A a s => Ret a s.

#[global] Instance M_bind : MBind M := fun A B f m s =>
  match m s with
  | Ret a s' => f a s'
  | Raise e => Raise e
  | Spin => Spin
  end.

Definition raise {A} (e : Error) : M A := fun _ => Raise e.
Definition gets {A} (f : State -> A) : M A := fun s => Ret (f s) s.
Definition modify (f : State -> State) : M unit := fun s => Ret tt (f s).

Definition from_option {A} (e : Error) (o : option A) : M A :=
  match o with Some a => mret a | None => raise e end.

(** [BOOST_FOREACH] and the counted [for] loops over a sequence. *)
Fixpoint foreach {A} (l : list A) (body : A -> M unit) : M unit :=
  match l with
  | [] => mret tt
  | a :: l' => body a ;; foreach l' body
  end.

(** A loop whose body may [return]: [Some r] leaves the enclosing function
    with [r], [None] goes on with the next element. *)
Fixpoint foreach_return {A R} (l : list A) (body : A -> M (option R))
  : M (option R) :=
  match l with
  | [] => mret None
  | a :: l' =>
      r ← body a;
      match r with
      | Some v => mret (Some v)
      | None => foreach_return l' body
      end
  end.

(** Registry calls made through the member [ceres_blocks_]. *)
Definition update_blocks (f : Registry.CeresBlocks -> Registry.CeresBlocks)
  : M unit := modify (set_ceres_blocks f).

Definition lookup_block {A} (f : Registry.CeresBlocks -> option A) : M A :=
  r ← gets ceres_blocks_; from_option NotFoundError (f r).

(** Dereferencing a [shared_ptr<Target>]. *)
Definition deref (p : ptr) : M Target :=
  st ← gets target_store; from_option BadPointer (st !! p).

(** [block[i]] in the registry [r]; [None] when [b] designates no block or
    the block has no entry [i]. *)
Definition block_at (r : Registry.CeresBlocks) (b : P_BLOCK) (i : nat)
  : option double :=
  Registry.blocks r !! b ≫= (.!! i).

(** Reading [block[i]] through a [P_BLOCK]. *)
Definition read_block (b : P_BLOCK) (i : nat) : M double :=
  r ← gets ceres_blocks_;
  from_option BadPointer (block_at r b i).

Definition emit (e : Event) : M unit := modify (set_events (.++ [e])).

(** ** Calls into the capture interface of a camera *)

(** [camera->camera_observer_->...]: the observer pointer must be set. *)
Definition observer_of (c : Camera) : M CameraObserver :=
  from_option BadPointer (camera_observer_ c).

Definition clearObservations (c : Camera) : M unit :=
  o ← observer_of c; emit (EvClearObservations o).

Definition clearTargets (c : Camera) : M unit :=
  o ← observer_of c; emit (EvClearTargets o).

Definition addTarget (c : Camera) (target : ptr) (roi : Roi) : M unit :=
  o ← observer_of c; emit (EvAddTarget o target roi).

Definition triggerCamera (c : Camera) : M unit :=
  o ← observer_of c; emit (EvTriggerCamera o).

Definition observationsDone (world : World) (c : Camera) : M bool :=
  o ← observer_of c;
  h ← gets events;
  let done := observationsDone_answer world h o in
  emit (EvObservationsDone o done);;
  mret done.

Definition getObservations (world : World) (c : Camera)
  : M (list Observation) :=
  o ← observer_of c;
  h ← gets events;
  let observations := getObservations_answer world h o in
  emit (EvGetObservations o observations);;
  mret observations.

(** ** [CalibrationJob::runObservations] *)

Section Collector.

Variable world : World.

(** [while (!camera->camera_observer_->observationsDone()) ;] with at most
    [fuel] polls. *)
Fixpoint wait_observationsDone (fuel : nat) (camera : Camera) : M unit :=
  match fuel with
  | O => fun _ => Spin
  | S fuel' =>
      finished ← observationsDone world camera;
      if finished : bool then mret tt else wait_observationsDone fuel' camera
  end.

(** Lines 93-107: register the camera and fetch its two blocks. *)
Definition camera_blocks (camera : Camera) (scene_id : Z)
  : M (P_BLOCK * P_BLOCK) :=
  let camera_name := camera_name_ camera in
  if isMoving camera then
    update_blocks (Registry.addMovingCamera camera scene_id);;
    intrinsics ← lookup_block
      (Registry.getMovingCameraParameterBlockIntrinsics camera_name);
    extrinsics ← lookup_block
      (Registry.getMovingCameraParameterBlockExtrinsics camera_name scene_id);
    mret (intrinsics, extrinsics)
  else
    update_blocks (Registry.addStaticCamera camera);;
    intrinsics ← lookup_block
      (Registry.getStaticCameraParameterBlockIntrinsics camera_name);
    extrinsics ← lookup_block
      (Registry.getStaticCameraParameterBlockExtrinsics camera_name);
    mret (intrinsics, extrinsics).

(** Lines 120-131: register the observed target and fetch the pose block and
    the block of the observed point. *)
Definition target_blocks (target : ptr) (pnt_id : Z) (scene_id : Z)
  : M (P_BLOCK * P_BLOCK) :=
  t ← deref target;
  let target_name := target_name t in
  if is_moving t then
    update_blocks (Registry.addMovingTarget target t scene_id);;
    target_pose ← lookup_block
      (Registry.getMovingTargetPoseParameterBlock target_name scene_id);
    pnt_pos ← lookup_block
      (Registry.getMovingTargetPointParameterBlock target_name pnt_id);
    mret (target_pose, pnt_pos)
  else
    update_blocks (Registry.addStaticTarget target t);;
    target_pose ← lookup_block
      (Registry.getStaticTargetPoseParameterBlock target_name);
    pnt_pos ← lookup_block
      (Registry.getStaticTargetPointParameterBlock target_name pnt_id);
    mret (target_pose, pnt_pos).

Definition addObservationPoint (odp : ObservationDataPoint) : M unit :=
  modify (set_items (.++ [odp])).

(** Lines 114-135: the body of the loop over the observations of a camera. *)
Definition process_observation (scene_id : Z) (camera_name : string)
    (intrinsics extrinsics : P_BLOCK) (observation : Observation) : M unit :=
  t ← deref (obs_target observation);
  let target_name := target_name t in
  let pnt_id := point_id observation in
  let observation_x := image_loc_x observation in
  let observation_y := image_loc_y observation in
  '(target_pose, pnt_pos) ← target_blocks (obs_target observation) pnt_id
                              scene_id;
  let temp_ODP :=
    mkODP camera_name target_name scene_id intrinsics extrinsics pnt_id
      target_pose pnt_pos observation_x observation_y in
  addObservationPoint temp_ODP.

(** Lines 86-136: the body of the loop that collects the results of a
    camera. *)
Definition process_camera (fuel : nat) (scene_id : Z) (camera : Camera)
  : M unit :=
  wait_observationsDone fuel camera;;
  let camera_name := camera_name_ camera in
  '(intrinsics, extrinsics) ← camera_blocks camera scene_id;
  camera_observations ← getObservations world camera;
  foreach camera_observations
    (process_observation scene_id camera_name intrinsics extrinsics).

(** Lines 44-137: the body of the loop over the scenes. *)
Definition process_scene (fuel : nat) (current_scene : ObservationScene)
  : M unit :=
  let scene_id := scene_id_ current_scene in
  foreach (cameras_in_scene_ current_scene) (fun current_camera =>
    clearObservations current_camera;;
    clearTargets current_camera);;
  foreach (observation_command_list_ current_scene) (fun o_command =>
    addTarget (cmd_camera o_command) (cmd_target o_command)
      (cmd_roi o_command));;
  foreach (cameras_in_scene_ current_scene) triggerCamera;;
  foreach (cameras_in_scene_ current_scene) (process_camera fuel scene_id).

Definition runObservations (fuel : nat) : M bool :=
  update_blocks Registry.clearCamerasTargets;;
  scenes ← gets scene_list_;
  foreach scenes (process_scene fuel);;
  mret true.

End Collector.

(** ** [CalibrationJob::runOptimization] *)

Definition AddResidualBlock (cost : CostFunction) (loss_is_null : bool)
    (blocks : list P_BLOCK) : M unit :=
  modify (set_problem (.++ [mkResidualBlock cost loss_is_null blocks])).

(** Lines 447-472: the body of the inner loop. *)
Definition add_residual (ODP : ObservationDataPoint) : M unit :=
  focal_length_x ← read_block (camera_intrinsics_ ODP) 0;
  focal_length_y ← read_block (camera_intrinsics_ ODP) 1;
  center_pnt_x ← read_block (camera_intrinsics_ ODP) 2;
  center_pnt_y ← read_block (camera_intrinsics_ ODP) 3;
  let image_x := image_x_ ODP in
  let image_y := image_y_ ODP in
  point_x ← read_block (point_position_ ODP) 0;
  point_y ← read_block (point_position_ ODP) 1;
  point_z ← read_block (point_position_ ODP) 2;
  let cost_function :=
    TargetCameraReprjErrorNoDistortion image_x image_y
      focal_length_x focal_length_y center_pnt_x center_pnt_y
      point_x point_y point_z in
  let extrinsics := camera_extrinsics_ ODP in
  let target_pose := target_pose_ ODP in
  AddResidualBlock cost_function true [extrinsics; target_pose].

(** The options built at lines 489-492.  The call of [ceres::Solve] at line
    495 is commented out in the source, so nothing consumes them. *)
Definition solver_options : SolverOptions :=
  mkSolverOptions DENSE_SCHUR true 1000.

(** The outer loop returns [true] at the end of its first iteration (line
    498); with no data point the function returns [true] at line 500. *)
Definition runOptimization : M bool :=
  items ← gets observation_data_point_list;
  r ← foreach_return items (fun _ =>
         items' ← gets observation_data_point_list;
         foreach items' add_residual;;
         let options := solver_options in
         mret (Some true));
  match r with
  | Some b => mret b
  | None => mret true
  end.

(** ** [CalibrationJob::run] *)

(** [run] calls both phases, discards what they return and reaches the end
    of its body without a [return] statement.  [Ret None s] marks that point,
    reached in state [s]: no value is handed to the caller, and what a
    caller that uses the result of such a call gets is left undefined by the
    language. *)
Definition run (world : World) (fuel : nat) : M (option bool) :=
  runObservations world fuel;;
  runOptimization;;
  mret None.

(** ** The three input documents of [load] *)

(** The YAML layer is an external collaborator.  [load] reads a node with
    [node[key] >> x], which either yields the value of the key, converted to
    the type of [x], or throws: [KeyNotFound] when the key is absent,
    [InvalidScalar] when the scalar does not convert.  Both are
    [YAML::RepresentationException]s, none is a [YAML::ParserException]. *)
Inductive Extract (A : Type) :=
| Value (a : A)
| Throws.
Arguments Value {A} a.
Arguments Throws {A}.

(** A node of the list under [static_cameras] or [moving_cameras], as the
    extractions of [load] see it. *)
Module YamlCamera.
Record t := mk {
  camera_name : Extract string; image_topic : Extract string;
  angle_axis_ax : Extract double; angle_axis_ay : Extract double;
  angle_axis_az : Extract double;
  position_x : Extract double; position_y : Extract double;
  position_z : Extract double;
  focal_length_x : Extract double; focal_length_y : Extract double;
  center_x : Extract double; center_y : Extract double;
  distortion_k1 : Extract double; distortion_k2 : Extract double;
  distortion_k3 : Extract double;
  distortion_p1 : Extract double; distortion_p2 : Extract double;
  scene_id : Extract Z }.
End YamlCamera.

(** A node of the list under [static_targets] or [moving_targets].
    [FindValue] gives a null pointer for an absent key: [None].  The entry
    [pnt] of a point is read into a [std::vector<float>], widened to
    [double] when it is stored. *)
Module YamlTarget.
Record t := mk {
  target_name : Extract string;
  target_rows : Extract Z; target_cols : Extract Z;
  angle_axis_ax : Extract double; angle_axis_ay : Extract double;
  angle_axis_az : Extract double;
  position_x : Extract double; position_y : Extract double;
  position_z : Extract double;
  scene_id : Extract Z;
  num_points : Extract Z;
  points : option (list (option (Extract (list double)))) }.
End YamlTarget.

Module YamlObs.
Record t := mk {
  camera : Extract string;
  roi_x_min : Extract Z; roi_x_max : Extract Z;
  roi_y_min : Extract Z; roi_y_max : Extract Z;
  target : Extract string }.
End YamlObs.

Module YamlScene.
Record t := mk {
  scene_id : Extract Z;
  trigger_type : Extract Z;
  observations : option (list YamlObs.t) }.
End YamlScene.

Module YamlDoc.
Record Cameras := mkCameras {
  static_cameras : option (list YamlCamera.t);
  moving_cameras : option (list YamlCamera.t) }.

Record Targets := mkTargets {
  static_targets : option (list YamlTarget.t);
  moving_targets : option (list YamlTarget.t) }.

Record Caljob := mkCaljob {
  reference_frame : Extract string;
  optimization_parameters : Extract string;
  scenes : option (list YamlScene.t) }.
End YamlDoc.

(** An input source: the stream cannot be opened, or the parser throws
    [YAML::ParserException] on it, or it yields a document. *)
Inductive Source (D : Type) :=
| CannotOpen
| Malformed
| Document (d : D).
Arguments CannotOpen {D}.
Arguments Malformed {D}.
Arguments Document {D} d.

Record Files := mkFiles {
  camera_input_file : Source YamlDoc.Cameras;
  target_input_file : Source YamlDoc.Targets;
  caljob_input_file : Source YamlDoc.Caljob }.

(** [std::ifstream::fail()] right after construction. *)
Definition fail {D} (f : Source D) : bool :=
  match f with CannotOpen => true | _ => false end.

(** [parser.GetNextDocument(doc)]: [None] stands for the
    [YAML::ParserException]. *)
Definition GetNextDocument {D} (f : Source D) : option D :=
  match f with Document d => Some d | _ => None end.

(** [node[key] >> x]: the exception leaves the function that extracts. *)
Definition extract {A} (e : Extract A) : M A :=
  match e with
  | Value a => mret a
  | Throws => raise RepresentationException
  end.

(** ** Documents with all their keys *)

(** A node all of whose keys are present, with values that convert, is
    given by these values; likewise a document.  [yaml_camera] and the
    like give the node as the extractions of [load] see it. *)
Module CameraNode.
Record t := mk {
  camera_name : string; image_topic : string;
  angle_axis_ax : double; angle_axis_ay : double; angle_axis_az : double;
  position_x : double; position_y : double; position_z : double;
  focal_length_x : double; focal_length_y : double;
  center_x : double; center_y : double;
  distortion_k1 : double; distortion_k2 : double; distortion_k3 : double;
  distortion_p1 : double; distortion_p2 : double;
  scene_id : Z }.
End CameraNode.

Module TargetNode.
Record t := mk {
  target_name : string;
  target_rows : Z; target_cols : Z;
  angle_axis_ax : double; angle_axis_ay : double; angle_axis_az : double;
  position_x : double; position_y : double; position_z : double;
  scene_id : Z;
  num_points : Z;
  points : list (double * double * double) }.
End TargetNode.

Module ObsNode.
Record t := mk {
  camera : string;
  roi_x_min : Z; roi_x_max : Z; roi_y_min : Z; roi_y_max : Z;
  target : string }.
End ObsNode.

Module SceneNode.
Record t := mk {
  scene_id : Z;
  trigger_type : Z;
  observations : list ObsNode.t }.
End SceneNode.

(** The top-level keys [static_cameras], [moving_cameras], [static_targets],
    [moving_targets] and [scenes] may be absent: [None]. *)
Record CameraDoc := mkCameraDoc {
  static_cameras : option (list CameraNode.t);
  moving_cameras : option (list CameraNode.t) }.

Record TargetDoc := mkTargetDoc {
  static_targets : option (list TargetNode.t);
  moving_targets : option (list TargetNode.t) }.

Record CaljobDoc := mkCaljobDoc {
  reference_frame : string;
  optimization_parameters : string;
  scenes : option (list SceneNode.t) }.

Definition yaml_camera (n : CameraNode.t) : YamlCamera.t :=
  YamlCamera.mk
    (Value (CameraNode.camera_name n)) (Value (CameraNode.image_topic n))
    (Value (CameraNode.angle_axis_ax n)) (Value (CameraNode.angle_axis_ay n))
    (Value (CameraNode.angle_axis_az n))
    (Value (CameraNode.position_x n)) (Value (CameraNode.position_y n))
    (Value (CameraNode.position_z n))
    (Value (CameraNode.focal_length_x n)) (Value (CameraNode.focal_length_y n))
    (Value (CameraNode.center_x n)) (Value (CameraNode.center_y n))
    (Value (CameraNode.distortion_k1 n)) (Value (CameraNode.distortion_k2 n))
    (Value (CameraNode.distortion_k3 n))
    (Value (CameraNode.distortion_p1 n)) (Value (CameraNode.distortion_p2 n))
    (Value (CameraNode.scene_id n)).

Definition yaml_point (pnt : double * double * double)
  : option (Extract (list double)) :=
  let '(p0, p1, p2) := pnt in Some (Value [p0; p1; p2]).

Definition yaml_target (n : TargetNode.t) : YamlTarget.t :=
  YamlTarget.mk
    (Value (TargetNode.target_name n))
    (Value (TargetNode.target_rows n)) (Value (TargetNode.target_cols n))
    (Value (TargetNode.angle_axis_ax n)) (Value (TargetNode.angle_axis_ay n))
    (Value (TargetNode.angle_axis_az n))
    (Value (TargetNode.position_x n)) (Value (TargetNode.position_y n))
    (Value (TargetNode.position_z n))
    (Value (TargetNode.scene_id n))
    (Value (TargetNode.num_points n))
    (Some (map yaml_point (TargetNode.points n))).

Definition yaml_obs (n : ObsNode.t) : YamlObs.t :=
  YamlObs.mk (Value (ObsNode.camera n))
    (Value (ObsNode.roi_x_min n)) (Value (ObsNode.roi_x_max n))
    (Value (ObsNode.roi_y_min n)) (Value (ObsNode.roi_y_max n))
    (Value (ObsNode.target n)).

Definition yaml_scene (n : SceneNode.t) : YamlScene.t :=
  YamlScene.mk (Value (SceneNode.scene_id n))
    (Value (SceneNode.trigger_type n))
    (Some (map yaml_obs (SceneNode.observations n))).

Definition yaml_cameras (d : CameraDoc) : YamlDoc.Cameras :=
  YamlDoc.mkCameras (map yaml_camera <$> static_cameras d)
    (map yaml_camera <$> moving_cameras d).

Definition yaml_targets (d : TargetDoc) : YamlDoc.Targets :=
  YamlDoc.mkTargets (map yaml_target <$> static_targets d)
    (map yaml_target <$> moving_targets d).

Definition yaml_caljob (d : CaljobDoc) : YamlDoc.Caljob :=
  YamlDoc.mkCaljob (Value (reference_frame d))
    (Value (optimization_parameters d))
    (map yaml_scene <$> scenes d).

(** ** Writing through a [shared_ptr<Target>] *)

Definition set_target_name (v : string) (t : Target) : Target :=
  mkTarget v (is_moving t) (pose t) (num_points t) (pts t)
    (checker_board_parameters t).

Definition set_is_moving (v : bool) (t : Target) : Target :=
  mkTarget (target_name t) v (pose t) (num_points t) (pts t)
    (checker_board_parameters t).

Definition set_pose (f : Pose6d -> Pose6d) (t : Target) : Target :=
  mkTarget (target_name t) (is_moving t) (f (pose t)) (num_points t) (pts t)
    (checker_board_parameters t).

Definition set_num_points (v : Z) (t : Target) : Target :=
  mkTarget (target_name t) (is_moving t) (pose t) v (pts t)
    (checker_board_parameters t).

Definition pts_push_back (p : Point3d) (t : Target) : Target :=
  mkTarget (target_name t) (is_moving t) (pose t) (num_points t)
    (pts t ++ [p]) (checker_board_parameters t).

Definition set_checker_board
    (f : CheckerBoardParameters -> CheckerBoardParameters) (t : Target)
  : Target :=
  mkTarget (target_name t) (is_moving t) (pose t) (num_points t) (pts t)
    (f (checker_board_parameters t)).

Definition set_pattern_rows (v : Z) (c : CheckerBoardParameters) :=
  mkCheckerBoard v (pattern_cols c).
Definition set_pattern_cols (v : Z) (c : CheckerBoardParameters) :=
  mkCheckerBoard (pattern_rows c) v.

Definition set_ax (v : double) (p : Pose6d) : Pose6d :=
  mkPose6d v (pose_ay p) (pose_az p) (pose_x p) (pose_y p) (pose_z p).
Definition set_ay (v : double) (p : Pose6d) : Pose6d :=
  mkPose6d (pose_ax p) v (pose_az p) (pose_x p) (pose_y p) (pose_z p).
Definition set_az (v : double) (p : Pose6d) : Pose6d :=
  mkPose6d (pose_ax p) (pose_ay p) v (pose_x p) (pose_y p) (pose_z p).
Definition set_x (v : double) (p : Pose6d) : Pose6d :=
  mkPose6d (pose_ax p) (pose_ay p) (pose_az p) v (pose_y p) (pose_z p).
Definition set_y (v : double) (p : Pose6d) : Pose6d :=
  mkPose6d (pose_ax p) (pose_ay p) (pose_az p) (pose_x p) v (pose_z p).
Definition set_z (v : double) (p : Pose6d) : Pose6d :=
  mkPose6d (pose_ax p) (pose_ay p) (pose_az p) (pose_x p) (pose_y p) v.

(** [p->field = v]: the object [p] points to is updated in place. *)
Definition assign (p : ptr) (f : Target -> Target) : M unit :=
  t ← deref p;
  modify (set_target_store (<[p := f t]>)).

(** [make_shared<Target>()]: a new object.  The members that the default
    constructor leaves without a value are zero here; [load] assigns each of
    them before the object is registered. *)
Definition default_Target : Target :=
  mkTarget "" false (mkPose6d 0 0 0 0 0 0) 0 [] (mkCheckerBoard 0 0).

Definition make_shared_Target : M ptr :=
  st ← gets target_store;
  modify (set_target_store (.++ [default_Target]));;
  mret (length st).

(** ** Scenes *)

(** Modelled from the spec: the class [ObservationScene] (declared in a
    header that is not part of the sources).  A scene has an id, a trigger,
    the set of cameras active in it and an ordered list of observation
    commands. *)
Definition default_scene : ObservationScene :=
  mkScene 0 (mkTrigger 0 "") [] [].

Definition setTrig (trig : Trigger) (s : ObservationScene) : ObservationScene :=
  mkScene (scene_id_ s) trig (cameras_in_scene_ s)
    (observation_command_list_ s).

Definition setSceneId (id : Z) (s : ObservationScene) : ObservationScene :=
  mkScene id (trig_ s) (cameras_in_scene_ s) (observation_command_list_ s).

Definition in_scene (name : string) (s : ObservationScene) : bool :=
  existsb (fun c => String.eqb (camera_name_ c) name) (cameras_in_scene_ s).

(** Modelled from the spec: the cameras of a scene form a set, so a camera
    already in the scene (by name) is not added again. *)
Definition addCameraToScene (c : Camera) (s : ObservationScene)
  : ObservationScene :=
  if in_scene (camera_name_ c) s then s
  else mkScene (scene_id_ s) (trig_ s) (cameras_in_scene_ s ++ [c])
         (observation_command_list_ s).

Definition populateObsCmdList (c : Camera) (target : ptr) (roi : Roi)
    (s : ObservationScene) : ObservationScene :=
  mkScene (scene_id_ s) (trig_ s) (cameras_in_scene_ s)
    (observation_command_list_ s ++ [mkObservationCmd c target roi]).

(** [std::vector::resize(n)]. *)
Definition resize {A} (n : nat) (d : A) (l : list A) : list A :=
  take n l ++ replicate (n - length l) d.

(** [scene_list_.at(i).f(...)]. *)
Definition at_scene (i : nat) (f : ObservationScene -> ObservationScene)
  : M unit :=
  modify (set_scene_list (alter f i)).

(** A loop that carries a local variable from one iteration to the next. *)
Fixpoint foreach_carry {A B} (l : list A) (acc : B) (body : B -> A -> M B)
  : M B :=
  match l with
  | [] => mret acc
  | a :: l' => acc' ← body acc a; foreach_carry l' acc' body
  end.

(** ** [CalibrationJob::load] *)

(** Lines 183-204. *)
Definition load_static_camera (n : YamlCamera.t) : M unit :=
  temp_name ← extract (YamlCamera.camera_name n);
  temp_topic ← extract (YamlCamera.image_topic n);
  angle_axis_0 ← extract (YamlCamera.angle_axis_ax n);
  angle_axis_1 ← extract (YamlCamera.angle_axis_ay n);
  angle_axis_2 ← extract (YamlCamera.angle_axis_az n);
  position_0 ← extract (YamlCamera.position_x n);
  position_1 ← extract (YamlCamera.position_y n);
  position_2 ← extract (YamlCamera.position_z n);
  focal_length_x ← extract (YamlCamera.focal_length_x n);
  focal_length_y ← extract (YamlCamera.focal_length_y n);
  center_x ← extract (YamlCamera.center_x n);
  center_y ← extract (YamlCamera.center_y n);
  distortion_k1 ← extract (YamlCamera.distortion_k1 n);
  distortion_k2 ← extract (YamlCamera.distortion_k2 n);
  distortion_k3 ← extract (YamlCamera.distortion_k3 n);
  distortion_p1 ← extract (YamlCamera.distortion_p1 n);
  distortion_p2 ← extract (YamlCamera.distortion_p2 n);
  let temp_parameters :=
    mkCameraParameters (angle_axis_0, angle_axis_1, angle_axis_2)
      (position_0, position_1, position_2)
      focal_length_x focal_length_y center_x center_y
      distortion_k1 distortion_k2 distortion_k3
      distortion_p1 distortion_p2 in
  let temp_camera :=
    mkCamera temp_name temp_parameters false
      (Some (ROSCameraObserver temp_topic)) in
  update_blocks (Registry.addStaticCamera temp_camera).

(** Lines 214-233.  The image topic is read, but no observer is attached to
    a moving camera. *)
Definition load_moving_camera (n : YamlCamera.t) : M unit :=
  temp_name ← extract (YamlCamera.camera_name n);
  temp_topic ← extract (YamlCamera.image_topic n);
  angle_axis_0 ← extract (YamlCamera.angle_axis_ax n);
  angle_axis_1 ← extract (YamlCamera.angle_axis_ay n);
  angle_axis_2 ← extract (YamlCamera.angle_axis_az n);
  position_0 ← extract (YamlCamera.position_x n);
  position_1 ← extract (YamlCamera.position_y n);
  position_2 ← extract (YamlCamera.position_z n);
  focal_length_x ← extract (YamlCamera.focal_length_x n);
  focal_length_y ← extract (YamlCamera.focal_length_y n);
  center_x ← extract (YamlCamera.center_x n);
  center_y ← extract (YamlCamera.center_y n);
  distortion_k1 ← extract (YamlCamera.distortion_k1 n);
  distortion_k2 ← extract (YamlCamera.distortion_k2 n);
  distortion_k3 ← extract (YamlCamera.distortion_k3 n);
  distortion_p1 ← extract (YamlCamera.distortion_p1 n);
  distortion_p2 ← extract (YamlCamera.distortion_p2 n);
  scene_id ← extract (YamlCamera.scene_id n);
  let temp_parameters :=
    mkCameraParameters (angle_axis_0, angle_axis_1, angle_axis_2)
      (position_0, position_1, position_2)
      focal_length_x focal_length_y center_x center_y
      distortion_k1 distortion_k2 distortion_k3
      distortion_p1 distortion_p2 in
  let temp_camera := mkCamera temp_name temp_parameters true None in
  update_blocks (Registry.addMovingCamera temp_camera scene_id).

(** Lines 178-235. *)
Definition load_cameras (camera_doc : YamlDoc.Cameras) : M unit :=
  match YamlDoc.static_cameras camera_doc with
  | Some camera_parameters => foreach camera_parameters load_static_camera
  | None => mret tt
  end;;
  match YamlDoc.moving_cameras camera_doc with
  | Some camera_parameters => foreach camera_parameters load_moving_camera
  | None => mret tt
  end.

(** Lines 288-299 and 322-333: the points of a target node are appended to
    the point list of the object behind [temp_target].  The results of both
    [FindValue] calls are dereferenced without a test, and so are the first
    three entries of the vector read. *)
Definition load_points (temp_target : ptr)
    (points_node : option (list (option (Extract (list double)))))
  : M unit :=
  points ← from_option BadPointer points_node;
  foreach points (fun pnt_node =>
    pnt ← from_option BadPointer pnt_node;
    temp_pnt ← extract pnt;
    p0 ← from_option BadPointer (temp_pnt !! 0%nat);
    p1 ← from_option BadPointer (temp_pnt !! 1%nat);
    p2 ← from_option BadPointer (temp_pnt !! 2%nat);
    let temp_pnt3d := mkPoint3d p0 p1 p2 in
    assign temp_target (pts_push_back temp_pnt3d)).

(** [node[key] >> p->field]. *)
Definition extract_into {A} (e : Extract A) (p : ptr)
    (set : A -> Target -> Target) : M unit :=
  v ← extract e; assign p (set v).

(** Lines 278-300: one iteration of the loop over the static targets. *)
Definition load_static_target (temp_target : ptr) (n : YamlTarget.t)
  : M unit :=
  extract_into (YamlTarget.target_name n) temp_target set_target_name;;
  extract_into (YamlTarget.target_rows n) temp_target
    (fun v => set_checker_board (set_pattern_rows v));;
  extract_into (YamlTarget.target_cols n) temp_target
    (fun v => set_checker_board (set_pattern_cols v));;
  extract_into (YamlTarget.angle_axis_ax n) temp_target
    (fun v => set_pose (set_ax v));;
  extract_into (YamlTarget.angle_axis_ay n) temp_target
    (fun v => set_pose (set_ay v));;
  extract_into (YamlTarget.angle_axis_az n) temp_target
    (fun v => set_pose (set_az v));;
  extract_into (YamlTarget.position_x n) temp_target
    (fun v => set_pose (set_x v));;
  extract_into (YamlTarget.position_y n) temp_target
    (fun v => set_pose (set_y v));;
  extract_into (YamlTarget.position_z n) temp_target
    (fun v => set_pose (set_z v));;
  extract_into (YamlTarget.num_points n) temp_target set_num_points;;
  load_points temp_target (YamlTarget.points n);;
  t ← deref temp_target;
  update_blocks (Registry.addStaticTarget temp_target t).

(** Lines 313-334: one iteration of the loop over the moving targets. *)
Definition load_moving_target (temp_target : ptr) (n : YamlTarget.t)
  : M unit :=
  extract_into (YamlTarget.target_name n) temp_target set_target_name;;
  extract_into (YamlTarget.angle_axis_ax n) temp_target
    (fun v => set_pose (set_ax v));;
  extract_into (YamlTarget.angle_axis_ax n) temp_target
    (fun v => set_pose (set_ay v));;
  extract_into (YamlTarget.angle_axis_ay n) temp_target
    (fun v => set_pose (set_az v));;
  extract_into (YamlTarget.position_x n) temp_target
    (fun v => set_pose (set_x v));;
  extract_into (YamlTarget.position_y n) temp_target
    (fun v => set_pose (set_y v));;
  extract_into (YamlTarget.position_z n) temp_target
    (fun v => set_pose (set_z v));;
  scene_id ← extract (YamlTarget.scene_id n);
  extract_into (YamlTarget.num_points n) temp_target set_num_points;;
  load_points temp_target (YamlTarget.points n);;
  t ← deref temp_target;
  update_blocks (Registry.addMovingTarget temp_target t scene_id).

(** Lines 271-302: one [Target] object is made before the loop. *)
Definition load_static_targets (target_parameters : list YamlTarget.t)
  : M unit :=
  temp_target ← make_shared_Target;
  assign temp_target (set_is_moving false);;
  foreach target_parameters (load_static_target temp_target).

(** Lines 305-336. *)
Definition load_moving_targets (target_parameters : list YamlTarget.t)
  : M unit :=
  temp_target ← make_shared_Target;
  assign temp_target (set_is_moving true);;
  foreach target_parameters (load_moving_target temp_target).

(** Lines 271-336. *)
Definition load_targets (target_doc : YamlDoc.Targets) : M unit :=
  match YamlDoc.static_targets target_doc with
  | Some target_parameters => load_static_targets target_parameters
  | None => mret tt
  end;;
  match YamlDoc.moving_targets target_doc with
  | Some target_parameters => load_moving_targets target_parameters
  | None => mret tt
  end.

(** Lines 386-400: one observation of scene [i].  The target name is stored
    into the object behind [temp_targ] before the lookup replaces
    [temp_targ]. *)
Definition load_observation (i : nat) (temp_targ : ptr) (n : YamlObs.t)
  : M ptr :=
  camera_name ← extract (YamlObs.camera n);
  temp_cam ← lookup_block (Registry.getCameraByName camera_name);
  at_scene i (addCameraToScene temp_cam);;
  x_min ← extract (YamlObs.roi_x_min n);
  x_max ← extract (YamlObs.roi_x_max n);
  y_min ← extract (YamlObs.roi_y_min n);
  y_max ← extract (YamlObs.roi_y_max n);
  let temp_roi := mkRoi x_min x_max y_min y_max in
  extract_into (YamlObs.target n) temp_targ set_target_name;;
  t ← deref temp_targ;
  temp_targ' ← lookup_block (Registry.getTargetByName (target_name t));
  at_scene i (populateObsCmdList temp_cam temp_targ' temp_roi);;
  mret temp_targ'.

(** Lines 374-401: scene [i].  The result of [FindValue("observations")] is
    dereferenced without a test. *)
Definition load_scene (temp_targ : ptr) (entry : nat * YamlScene.t) : M ptr :=
  let '(i, n) := entry in
  scene_id_num ← extract (YamlScene.scene_id n);
  trig_type ← extract (YamlScene.trigger_type n);
  let cal_trig := mkTrigger trig_type "triggered" in
  at_scene i (setTrig cal_trig);;
  at_scene i (setSceneId scene_id_num);;
  obs_node ← from_option BadPointer (YamlScene.observations n);
  foreach_carry obs_node temp_targ (load_observation i).

(** Lines 365-403.  Both extractions of lines 365-366 go into the local
    [reference_frame], which nothing reads. *)
Definition load_scenes (temp_targ : ptr) (caljob_doc : YamlDoc.Caljob)
  : M unit :=
  reference_frame ← extract (YamlDoc.reference_frame caljob_doc);
  reference_frame ← extract (YamlDoc.optimization_parameters caljob_doc);
  match YamlDoc.scenes caljob_doc with
  | Some caljob_scenes =>
      modify (set_scene_list (resize (length caljob_scenes) default_scene));;
      foreach_carry (zip (seq 0 (length caljob_scenes)) caljob_scenes)
        temp_targ load_scene;;
      mret tt
  | None => mret tt
  end.

(** The three [catch] clauses name [YAML::ParserException] only, which
    [GetNextDocument] throws: an exception of an extraction, one of the
    registry, or a null pointer that is dereferenced, ends [load] without a
    return. *)
Definition load (files : Files) : M bool :=
  if fail (camera_input_file files) then mret false else
  if fail (target_input_file files) then mret false else
  if fail (caljob_input_file files) then mret false else
  match GetNextDocument (camera_input_file files) with
  | None => mret false
  | Some camera_doc =>
      load_cameras camera_doc;;
      match GetNextDocument (target_input_file files) with
      | None => mret false
      | Some target_doc =>
          load_targets target_doc;;
          temp_targ ← make_shared_Target;
          match GetNextDocument (caljob_input_file files) with
          | None => mret false
          | Some caljob_doc =>
              load_scenes temp_targ caljob_doc;;
              mret true
          end
      end
  end.

(** ** Invariants of the registry *)

Module RegistryFacts.
Import Registry.

(** Every handle the registry has issued designates a block of the size of
    its role, and two keys of the extrinsics role, or of the pose role, never
    share a block. *)
Record wf_blocks (r : CeresBlocks) : Prop := mk_wf_blocks {
  wf_intrinsics : forall k b, intrinsics r !! k = Some b ->
    exists v, blocks r !! b = Some v /\ length v = 9%nat;
  wf_point : forall k b, target_point r !! k = Some b ->
    exists v, blocks r !! b = Some v /\ length v = 3%nat;
  wf_extrinsics : forall k b, extrinsics r !! k = Some b ->
    (b < length (blocks r))%nat;
  wf_pose : forall k b, target_pose r !! k = Some b ->
    (b < length (blocks r))%nat;
  wf_extrinsics_inj : forall k1 k2 b,
    extrinsics r !! k1 = Some b -> extrinsics r !! k2 = Some b -> k1 = k2;
  wf_pose_inj : forall k1 k2 b,
    target_pose r !! k1 = Some b -> target_pose r !! k2 = Some b -> k1 = k2 }.

(** Point blocks exist only for catalogued target names. *)
Definition point_catalogued (r : CeresBlocks) : Prop :=
  forall name id b, target_point r !! (name, id) = Some b ->
    is_Some (targets r !! name).

Definition wf (r : CeresBlocks) : Prop := wf_blocks r /\ point_catalogued r.

(** The registry only grows: blocks are appended and keys are added. *)
Record grows (r r' : CeresBlocks) : Prop := mk_grows {
  grows_blocks : blocks r `prefix_of` blocks r';
  grows_intrinsics : intrinsics r ⊆ intrinsics r';
  grows_extrinsics : extrinsics r ⊆ extrinsics r';
  grows_pose : target_pose r ⊆ target_pose r';
  grows_point : target_point r ⊆ target_point r';
  grows_cameras : cameras r ⊆ cameras r';
  grows_targets : targets r ⊆ targets r' }.

End RegistryFacts.

(** ** Keys of the blocks a camera and a target are bound to *)

(** The scene component of the key under which an entity is registered:
    the scene id for a moving entity, none for a static one. *)
Definition scene_key (moving : bool) (scene_id : Z) : option Z :=
  if moving then Some scene_id else None.


(** ** Statements about the wait for capture completion *)

(** [n] polls of observer [o] that were answered "not done". *)
Definition polls (o : CameraObserver) (n : nat) : list Event :=
  replicate n (EvObservationsDone o false).

(** Following the spec's words: the wait is bounded, so that a run comes to
    an end (with a report) even when a capture never completes. *)
Definition wait_is_bounded (world : World) (s : State) : Prop :=
  exists fuel, runObservations world fuel s <> Spin.

(** ** Statements about the residuals *)

(** The blocks that [runOptimization] reads for a data point are live: the
    intrinsics block has the entries 0 to 3, the point block the entries 0
    to 2. *)
Definition readable (r : Registry.CeresBlocks) (odp : ObservationDataPoint)
  : Prop :=
  (exists v, Registry.blocks r !! camera_intrinsics_ odp = Some v /\
             (4 <= length v)%nat) /\
  (exists v, Registry.blocks r !! point_position_ odp = Some v /\
             (3 <= length v)%nat).

(** The residual [rb] is the one of the data point [odp]: it carries the
    observed pixel of [odp] and is bound to the extrinsics and pose blocks
    of [odp]. *)
Definition residual_of (odp : ObservationDataPoint) (rb : ResidualBlock)
  : Prop :=
  cf_ob_x (cost_function rb) = image_x_ odp /\
  cf_ob_y (cost_function rb) = image_y_ odp /\
  parameter_blocks rb = [camera_extrinsics_ odp; target_pose_ odp].

(** Following the spec's words (variant 3): the extrinsics and the target
    pose are the variables of the residual, in this order; the intrinsics
    and the point position are constants of its cost function. *)
Definition variant3 (r : Registry.CeresBlocks) (odp : ObservationDataPoint)
    (rb : ResidualBlock) : Prop :=
  parameter_blocks rb = [camera_extrinsics_ odp; target_pose_ odp] /\
  block_at r (camera_intrinsics_ odp) 0 = Some (cf_fx (cost_function rb)) /\
  block_at r (camera_intrinsics_ odp) 1 = Some (cf_fy (cost_function rb)) /\
  block_at r (camera_intrinsics_ odp) 2 = Some (cf_cx (cost_function rb)) /\
  block_at r (camera_intrinsics_ odp) 3 = Some (cf_cy (cost_function rb)) /\
  block_at r (point_position_ odp) 0 = Some (cf_pnt_x (cost_function rb)) /\
  block_at r (point_position_ odp) 1 = Some (cf_pnt_y (cost_function rb)) /\
  block_at r (point_position_ odp) 2 = Some (cf_pnt_z (cost_function rb)).

(** The raw observations that the capture interface handed over in a
    history. *)
Definition raw_observations (h : list Event) : list Observation :=
  h ≫= (fun e =>
    match e with
    | EvGetObservations _ observations => observations
    | _ => []
    end).

(** ** Statements about [load] *)

(** The object behind [p] is replaced by [t]. *)
Definition write (p : ptr) (t : Target) (s : State) : State :=
  set_target_store (<[p := t]>) s.

Definition to_Point3d (pnt : double * double * double) : Point3d :=
  let '(p0, p1, p2) := pnt in mkPoint3d p0 p1 p2.

(** What one iteration of the loop over the static targets makes of the
    object it writes to. *)
Definition static_target_after (n : TargetNode.t) (t : Target) : Target :=
  mkTarget (TargetNode.target_name n) (is_moving t)
    (mkPose6d (TargetNode.angle_axis_ax n) (TargetNode.angle_axis_ay n)
       (TargetNode.angle_axis_az n) (TargetNode.position_x n)
       (TargetNode.position_y n) (TargetNode.position_z n))
    (TargetNode.num_points n)
    (pts t ++ map to_Point3d (TargetNode.points n))
    (mkCheckerBoard (TargetNode.target_rows n) (TargetNode.target_cols n)).

(** The same for the loop over the moving targets. *)
Definition moving_target_after (n : TargetNode.t) (t : Target) : Target :=
  mkTarget (TargetNode.target_name n) (is_moving t)
    (mkPose6d (TargetNode.angle_axis_ax n) (TargetNode.angle_axis_ax n)
       (TargetNode.angle_axis_ay n) (TargetNode.position_x n)
       (TargetNode.position_y n) (TargetNode.position_z n))
    (TargetNode.num_points n)
    (pts t ++ map to_Point3d (TargetNode.points n))
    (checker_board_parameters t).

(** The registry after the registrations of a whole loop, [t] being the
    object before the first iteration. *)
Fixpoint static_registry_after (p : ptr) (nodes : list TargetNode.t)
    (t : Target) (r : Registry.CeresBlocks) : Registry.CeresBlocks :=
  match nodes with
  | [] => r
  | n :: nodes' =>
      static_registry_after p nodes' (static_target_after n t)
        (Registry.addStaticTarget p (static_target_after n t) r)
  end.

Fixpoint moving_registry_after (p : ptr) (nodes : list TargetNode.t)
    (t : Target) (r : Registry.CeresBlocks) : Registry.CeresBlocks :=
  match nodes with
  | [] => r
  | n :: nodes' =>
      moving_registry_after p nodes' (moving_target_after n t)
        (Registry.addMovingTarget p (moving_target_after n t)
           (TargetNode.scene_id n) r)
  end.

(** Some input stream cannot be opened. *)
Definition cannot_open (files : Files) : bool :=
  fail (camera_input_file files) || fail (target_input_file files)
  || fail (caljob_input_file files).

(** The parser rejects the source. *)
Definition rejected {D} (f : Source D) : bool :=
  match f with Malformed => true | _ => false end.

(** Following the spec's words: after a failed [load] the job is as it was
    before, not loaded. *)
Definition left_unloaded (files : Files) (s : State) : Prop :=
  load files s = Ret false s.

(** What a failed [load] leaves alone in any case: the scenes, the data
    points, the problem and the history. *)
Definition plan_untouched (s s' : State) : Prop :=
  scene_list_ s' = scene_list_ s /\
  observation_data_point_list s' = observation_data_point_list s /\
  problem_ s' = problem_ s /\
  events s' = events s.

Definition option_list {A} (o : option (list A)) : list A :=
  match o with Some l => l | None => [] end.

(** The names that the camera and target documents define. *)
Definition camera_names (d : CameraDoc) : list string :=
  map CameraNode.camera_name
    (option_list (static_cameras d) ++ option_list (moving_cameras d)).

Definition target_names (d : TargetDoc) : list string :=
  map TargetNode.target_name
    (option_list (static_targets d) ++ option_list (moving_targets d)).

(** Some extraction that [load] performs on the camera document throws:
    one of the seventeen keys read from a static camera node, or one of the
    eighteen read from a moving camera node, is absent or does not
    convert. *)
Definition throws {A} (e : Extract A) : bool :=
  match e with Throws => true | Value _ => false end.

Definition static_camera_throws (n : YamlCamera.t) : bool :=
  throws (YamlCamera.camera_name n) || throws (YamlCamera.image_topic n)
  || throws (YamlCamera.angle_axis_ax n)
  || throws (YamlCamera.angle_axis_ay n)
  || throws (YamlCamera.angle_axis_az n)
  || throws (YamlCamera.position_x n) || throws (YamlCamera.position_y n)
  || throws (YamlCamera.position_z n)
  || throws (YamlCamera.focal_length_x n)
  || throws (YamlCamera.focal_length_y n)
  || throws (YamlCamera.center_x n) || throws (YamlCamera.center_y n)
  || throws (YamlCamera.distortion_k1 n)
  || throws (YamlCamera.distortion_k2 n)
  || throws (YamlCamera.distortion_k3 n)
  || throws (YamlCamera.distortion_p1 n)
  || throws (YamlCamera.distortion_p2 n).

Definition moving_camera_throws (n : YamlCamera.t) : bool :=
  static_camera_throws n || throws (YamlCamera.scene_id n).

Definition cameras_throw (d : YamlDoc.Cameras) : bool :=
  existsb static_camera_throws (option_list (YamlDoc.static_cameras d))
  || existsb moving_camera_throws (option_list (YamlDoc.moving_cameras d)).

(** Every camera and every target that a scene of the job document names
    is defined in the camera and target documents. *)
Definition names_resolve (cd : CameraDoc) (td : TargetDoc) (jd : CaljobDoc)
  : Prop :=
  forall sn on, sn ∈ option_list (scenes jd) ->
    on ∈ SceneNode.observations sn ->
    ObsNode.camera on ∈ camera_names cd /\
    ObsNode.target on ∈ target_names td.

(** The catalogue of targets refers to live objects only. *)
Definition catalogue_live (s : State) : Prop :=
  forall name q, Registry.targets (ceres_blocks_ s) !! name = Some q ->
    (q < length (target_store s))%nat.

Definition camera_parameters_of (n : CameraNode.t) : CameraParameters :=
  mkCameraParameters
    (CameraNode.angle_axis_ax n, CameraNode.angle_axis_ay n,
     CameraNode.angle_axis_az n)
    (CameraNode.position_x n, CameraNode.position_y n,
     CameraNode.position_z n)
    (CameraNode.focal_length_x n) (CameraNode.focal_length_y n)
    (CameraNode.center_x n) (CameraNode.center_y n)
    (CameraNode.distortion_k1 n) (CameraNode.distortion_k2 n)
    (CameraNode.distortion_k3 n)
    (CameraNode.distortion_p1 n) (CameraNode.distortion_p2 n).

(** The cameras that [load] builds from a node, and the registry after the
    camera document was read. *)
Definition static_camera_of (n : CameraNode.t) : Camera :=
  mkCamera (CameraNode.camera_name n) (camera_parameters_of n) false
    (Some (ROSCameraObserver (CameraNode.image_topic n))).

Definition moving_camera_of (n : CameraNode.t) : Camera :=
  mkCamera (CameraNode.camera_name n) (camera_parameters_of n) true None.

Definition cameras_registry_after (d : CameraDoc) (r : Registry.CeresBlocks)
  : Registry.CeresBlocks :=
  fold_left
    (fun r n =>
       Registry.addMovingCamera (moving_camera_of n) (CameraNode.scene_id n) r)
    (option_list (moving_cameras d))
    (fold_left (fun r n => Registry.addStaticCamera (static_camera_of n) r)
       (option_list (static_cameras d)) r).

(** From the catalogue of [r] to that of [r']: every entry is kept, and
    every new entry refers to the object at [p]. *)
Definition catalogue_extended_with (p : ptr) (r r' : Registry.CeresBlocks)
  : Prop :=
  (forall name q, Registry.targets r !! name = Some q ->
     Registry.targets r' !! name = Some q) /\
  (forall name q, Registry.targets r' !! name = Some q ->
     Registry.targets r !! name = Some q \/ q = p).



(** All the points of a list of target nodes, in order. *)
Definition all_points (nodes : list TargetNode.t) : list Point3d :=
  concat (map (fun n => map to_Point3d (TargetNode.points n)) nodes).

(** ** Invariants of the collection and of [load] *)

Module CollectorFacts.
Import Registry RegistryFacts.

(** From [s] to [s']: the registry grew and is well formed, the history
    and the list of data points were extended, the new data points are
    readable, and [d] more data points than raw observations were added. *)
Record step (d : Z) (s s' : State) : Prop := mk_step {
  step_wf : wf (ceres_blocks_ s');
  step_grows : grows (ceres_blocks_ s) (ceres_blocks_ s');
  step_hist : exists h new,
    events s' = events s ++ h /\
    observation_data_point_list s' = observation_data_point_list s ++ new /\
    Z.of_nat (length new) - Z.of_nat (length (raw_observations h)) = d /\
    Forall (readable (ceres_blocks_ s')) new }.

End CollectorFacts.

(** What reading a part of the target document does to the state. *)
Record targets_loaded (names : list string) (s s' : State) : Prop :=
  mk_targets_loaded {
  tl_plan : plan_untouched s s';
  tl_cameras :
    Registry.cameras (ceres_blocks_ s') = Registry.cameras (ceres_blocks_ s);
  tl_live : catalogue_live s -> catalogue_live s';
  tl_keeps : forall name q,
    Registry.targets (ceres_blocks_ s) !! name = Some q ->
    Registry.targets (ceres_blocks_ s') !! name = Some q;
  tl_names : forall name, name ∈ names ->
    is_Some (Registry.targets (ceres_blocks_ s') !! name) }.

(** What the loops of [load] over the scenes maintain: the registry [r] and
    the size [len] of the store stay as they are, and [temp_targ] refers to
    a live object. *)
Definition scene_inv (r : Registry.CeresBlocks) (len : nat)
    (temp_targ : nat) (st : State) : Prop :=
  ceres_blocks_ st = r /\ length (target_store st) = len /\
  (temp_targ < len)%nat.

(** ** Concrete inputs *)

Module Examples.

Definition empty_job : State := mkState Registry.empty [] [] [] [] [].

Definition params : CameraParameters :=
  mkCameraParameters (0.5, 0.25, 0.125)%float (1, 2, 3)%float
    500 510 320 240 0 0 0 0 0.

Definition camA : Camera :=
  mkCamera "camA" params false (Some (ROSCameraObserver "/camA/image")).

Definition camM : Camera :=
  mkCamera "camM" params true (Some (ROSCameraObserver "/camM/image")).

Definition four_points : list Point3d :=
  [mkPoint3d 0 0 0; mkPoint3d 1 0 0; mkPoint3d 0 1 0; mkPoint3d 1 1 0].

Definition targetA : Target :=
  mkTarget "targetA" false (mkPose6d 0 0 0 0 0 1) 4 four_points
    (mkCheckerBoard 2 2).

Definition targetM : Target :=
  mkTarget "targetM" true (mkPose6d 0 0 0 0 0 1) 4 four_points
    (mkCheckerBoard 2 2).

(** A store with [targetA] at address 0 and [targetM] at address 1. *)
Definition store_AM : list Target := [targetA; targetM].

Definition job_AM : State :=
  mkState Registry.empty [] [] [] store_AM [].

(** An outside world in which no capture ever completes. *)
Definition never_done : World :=
  mkWorld (fun _ _ => false) (fun _ _ => []).

(** An outside world in which the capture of a camera is complete at the
    third poll, and which then reports the four points of the target at
    address 0. *)
Definition four_observations : list Observation :=
  [mkObservation 0 0 10 10; mkObservation 0 1 20 10;
   mkObservation 0 2 10 20; mkObservation 0 3 20 20].

Fixpoint polls_so_far (h : list Event) : nat :=
  match h with
  | [] => 0
  | EvObservationsDone _ _ :: h' => S (polls_so_far h')
  | _ :: h' => polls_so_far h'
  end.

Definition done_at_third_poll : World :=
  mkWorld (fun h _ => (2 <=? polls_so_far h)%nat)
    (fun _ _ => four_observations).

(** One scene, in which the static camera looks for the target at address
    0. *)
Definition scene1 : ObservationScene :=
  mkScene 1 (mkTrigger 0 "triggered") [camA]
    [mkObservationCmd camA 0 (mkRoi 0 640 0 480)].

Definition job_one_scene : State :=
  mkState Registry.empty [scene1] [] [] store_AM [].

(** The job after the observations of [scene1] were collected: the
    registry holds the blocks of [camA] (0, 1) and of [targetA] (2 to 6),
    and there is one data point per observed point. *)
Definition registry_A : Registry.CeresBlocks :=
  Registry.addStaticTarget 0%nat targetA
    (Registry.addStaticCamera camA Registry.empty).

Definition data_points_A : list ObservationDataPoint :=
  [mkODP "camA" "targetA" 1 0%nat 1%nat 0 2%nat 3%nat 10 10;
   mkODP "camA" "targetA" 1 0%nat 1%nat 1 2%nat 4%nat 20 10;
   mkODP "camA" "targetA" 1 0%nat 1%nat 2 2%nat 5%nat 10 20;
   mkODP "camA" "targetA" 1 0%nat 1%nat 3 2%nat 6%nat 20 20].

Definition job_collected : State :=
  mkState registry_A [scene1] data_points_A [] store_AM [].

(** Input files: the camera document defines [camA]; the target source is
    rejected by the parser. *)
Definition node_camA : CameraNode.t :=
  CameraNode.mk "camA" "/camA/image" 0.5 0.25 0.125 1 2 3
    500 510 320 240 0 0 0 0 0 0.

Definition cameras_ok : CameraDoc := mkCameraDoc (Some [node_camA]) None.

Definition files_target_rejected : Files :=
  mkFiles (Document (yaml_cameras cameras_ok))
    Malformed
    (Document (yaml_caljob (mkCaljobDoc "world" "" None))).

(** A moving target node with the angle-axis components 1, 2, 3. *)
Definition node_targetM : TargetNode.t :=
  TargetNode.mk "targetM" 0 0 1 2 3 0 0 1 1 4
    [(0, 0, 0); (1, 0, 0); (0, 1, 0); (1, 1, 0)]%float.

Definition node_targetA : TargetNode.t :=
  TargetNode.mk "targetA" 2 2 0 0 0 0 0 1 0 4
    [(0, 0, 0); (1, 0, 0); (0, 1, 0); (1, 1, 0)]%float.

Definition node_targetB : TargetNode.t :=
  TargetNode.mk "targetB" 2 2 0 0 0 0 0 2 0 1 [(5, 5, 0)]%float.

(** Input files that open and parse, with one scene in which [camA] looks
    for [targetA]. *)
Definition targets_ok : TargetDoc :=
  mkTargetDoc (Some [node_targetA; node_targetB]) (Some [node_targetM]).

Definition caljob_ok : CaljobDoc :=
  mkCaljobDoc "world" ""
    (Some [SceneNode.mk 1 0 [ObsNode.mk "camA" 0 640 0 480 "targetA"]]).

Definition files_ok : Files :=
  mkFiles (Document (yaml_cameras cameras_ok))
    (Document (yaml_targets targets_ok))
    (Document (yaml_caljob caljob_ok)).

(** Input files that open and parse, with a scene that names a camera
    which the camera document does not define. *)
Definition files_unknown_camera : Files :=
  mkFiles (Document (yaml_cameras (mkCameraDoc (Some [node_camA]) None)))
    (Document (yaml_targets (mkTargetDoc (Some [node_targetA]) None)))
    (Document (yaml_caljob (mkCaljobDoc "world" ""
       (Some [SceneNode.mk 1 0
                [ObsNode.mk "camB" 0 640 0 480 "targetA"]])))).

End Examples.

(** ** Further statements about the collection *)

(** The data point [odp] mirrors the raw observation [obs]: same point id,
    same pixel, and the name of the target object the observation refers
    to. *)
Definition mirrors (store : list Target) (odp : ObservationDataPoint)
    (obs : Observation) : Prop :=
  odp_point_id_ odp = point_id obs /\
  image_x_ odp = image_loc_x obs /\
  image_y_ odp = image_loc_y obs /\
  exists t, store !! obs_target obs = Some t /\
            odp_target_name_ odp = target_name t.

(** The data point was made for camera [c] in the scene with id
    [scene_id]. *)
Definition made_for (scene_id : Z) (c : Camera) (odp : ObservationDataPoint)
  : Prop :=
  odp_scene_id_ odp = scene_id /\ odp_camera_name_ odp = camera_name_ c.

(** The data point was made for a camera of the scene [sc]. *)
Definition from_scene (sc : ObservationScene) (odp : ObservationDataPoint)
  : Prop :=
  exists c, c ∈ cameras_in_scene_ sc /\ made_for (scene_id_ sc) c odp.

(** The data point was made for a camera of one of the scenes [l]. *)
Definition from_scenes (l : list ObservationScene)
    (odp : ObservationDataPoint) : Prop :=
  exists sc, sc ∈ l /\ from_scene sc odp.

(** From [s] to [s'] the scenes, the problem and the target objects are
    kept; the history and the list of data points are extended, the new
    events satisfying [Q], the new data points mirroring, in order, the raw
    observations of the new history, and each of them satisfying [P]. *)
Record collected (Q : Event -> Prop) (P : ObservationDataPoint -> Prop)
    (s s' : State) : Prop := mk_collected {
  col_scenes : scene_list_ s' = scene_list_ s;
  col_problem : problem_ s' = problem_ s;
  col_store : target_store s' = target_store s;
  col_hist : exists h new,
    events s' = events s ++ h /\
    observation_data_point_list s' = observation_data_point_list s ++ new /\
    Forall Q h /\
    Forall2 (mirrors (target_store s)) new (raw_observations h) /\
    Forall P new }.

(** The events of the first three loops over a scene. *)
Definition observers (l : list Camera) : list CameraObserver :=
  omap camera_observer_ l.

Definition clear_events (l : list Camera) : list Event :=
  observers l ≫= (fun o => [EvClearObservations o; EvClearTargets o]).

Definition addTarget_events (l : list ObservationCmd) : list Event :=
  omap (fun c =>
          (fun o => EvAddTarget o (cmd_target c) (cmd_roi c))
            <$> camera_observer_ (cmd_camera c)) l.

Definition trigger_events (l : list Camera) : list Event :=
  EvTriggerCamera <$> observers l.

(** A poll or a retrieval of observations. *)
Definition is_collection_event (e : Event) : Prop :=
  match e with
  | EvObservationsDone _ _ | EvGetObservations _ _ => True
  | _ => False
  end.

(** ** Statements about the blocks of a data point *)

(** The registry [r] holds an intrinsics block under the name of camera [c]
    and an extrinsics block under the name and, for a moving camera only, the
    scene id. *)
Definition camera_registered (r : Registry.CeresBlocks) (scene_id : Z)
    (c : Camera) : Prop :=
  is_Some (Registry.intrinsics r !! camera_name_ c) /\
  is_Some (Registry.extrinsics r
             !! (camera_name_ c, scene_key (isMoving c) scene_id)).

(** The data point [odp] was made for camera [c] in the scene [scene_id],
    and its two camera blocks are the ones that the registry [r] holds under
    these keys. *)
Definition camera_bound (r : Registry.CeresBlocks) (scene_id : Z)
    (c : Camera) (odp : ObservationDataPoint) : Prop :=
  made_for scene_id c odp /\
  Registry.intrinsics r !! camera_name_ c = Some (camera_intrinsics_ odp) /\
  Registry.extrinsics r !! (camera_name_ c, scene_key (isMoving c) scene_id)
    = Some (camera_extrinsics_ odp).

(** The data point was made for a camera of one of the scenes [l], with the
    blocks of that camera and scene. *)
Definition camera_bound_in (l : list ObservationScene)
    (r : Registry.CeresBlocks) (odp : ObservationDataPoint) : Prop :=
  exists sc c, sc ∈ l /\ c ∈ cameras_in_scene_ sc /\
    camera_bound r (scene_id_ sc) c odp.

(** The data point [odp] was made from the raw observation [obs] of the
    target object [t]: its point block is the one that the registry [r]
    holds under the target name and the point id, its pose block the one
    held under the target name and, for a moving target only, the id of
    the scene of the data point. *)
Definition target_bound (r : Registry.CeresBlocks) (store : list Target)
    (t : Target) (odp : ObservationDataPoint) (obs : Observation) : Prop :=
  store !! obs_target obs = Some t /\
  odp_target_name_ odp = target_name t /\
  odp_point_id_ odp = point_id obs /\
  Registry.target_point r !! (target_name t, point_id obs)
    = Some (point_position_ odp) /\
  Registry.target_pose r
    !! (target_name t, scene_key (is_moving t) (odp_scene_id_ odp))
    = Some (target_pose_ odp).

Definition target_bound_to (r : Registry.CeresBlocks) (store : list Target)
    (odp : ObservationDataPoint) (obs : Observation) : Prop :=
  exists t, target_bound r store t odp obs.

(** From [s] to [s']: the registry grew and is well formed, the target
    objects are kept, the history and the list of data points were extended,
    every new data point is bound to the target blocks of the raw observation
    it was made from, and satisfies [P] in the registry of [s']. *)
Record bound_step
    (P : Registry.CeresBlocks -> ObservationDataPoint -> Prop)
    (s s' : State) : Prop := mk_bound_step {
  bs_wf : RegistryFacts.wf (ceres_blocks_ s');
  bs_grows : RegistryFacts.grows (ceres_blocks_ s) (ceres_blocks_ s');
  bs_store : target_store s' = target_store s;
  bs_hist : exists h new,
    events s' = events s ++ h /\
    observation_data_point_list s' = observation_data_point_list s ++ new /\
    Forall2 (target_bound_to (ceres_blocks_ s') (target_store s)) new
      (raw_observations h) /\
    Forall (P (ceres_blocks_ s')) new }.


(** ** Statements about what follows a wait that never ends *)

Definition on_outcome {A} (f : State -> State) (o : Outcome A) : Outcome A :=
  match o with
  | Ret a s => Ret a (f s)
  | Raise e => Raise e
  | Spin => Spin
  end.

(** The computation [m] neither reads nor writes the list of scenes. *)
Definition ignores_scenes {A} (m : M A) : Prop :=
  forall l s,
    m (set_scene_list (fun _ => l) s)
    = on_outcome (set_scene_list (fun _ => l)) (m s).

(** The job [s] with the list of scenes [l]. *)
Definition with_scenes (l : list ObservationScene) (s : State) : State :=
  set_scene_list (fun _ => l) s.

(** Neither outcome is a return, and both are the same abnormal end: both
    computations spin, or both raise the same error. *)
Definition ends_like {A B} (o : Outcome A) (o' : Outcome B) : Prop :=
  (o = Spin /\ o' = Spin) \/ (exists e, o = Raise e /\ o' = Raise e).

(** ** Further statements about the residuals *)

(** The residual that the body of the inner loop of [runOptimization] builds
    for a data point, when the blocks it reads are live. *)
Definition residual_for (r : Registry.CeresBlocks)
    (ODP : ObservationDataPoint) : option ResidualBlock :=
  fx ← block_at r (camera_intrinsics_ ODP) 0;
  fy ← block_at r (camera_intrinsics_ ODP) 1;
  cx ← block_at r (camera_intrinsics_ ODP) 2;
  cy ← block_at r (camera_intrinsics_ ODP) 3;
  px ← block_at r (point_position_ ODP) 0;
  py ← block_at r (point_position_ ODP) 1;
  pz ← block_at r (point_position_ ODP) 2;
  Some (mkResidualBlock
          (TargetCameraReprjErrorNoDistortion (image_x_ ODP) (image_y_ ODP)
             fx fy cx cy px py pz)
          true [camera_extrinsics_ ODP; target_pose_ ODP]).


(** ** Further statements about [load] *)

(** The computation [m], whenever it returns, leaves the part [proj] of the
    state as it was. *)
Definition keeps {A B} (proj : State -> B) (m : M A) : Prop :=
  forall s a s', m s = Ret a s' -> proj s' = proj s.

(** The parts of the job that [load] has no business with. *)
Definition collection_state (s : State)
  : list ObservationDataPoint * list ResidualBlock * list Event :=
  (observation_data_point_list s, problem_ s, events s).

(** Id and trigger of a scene, and what a scene node says they are. *)
Definition scene_head (sc : ObservationScene) : Z * Trigger :=
  (scene_id_ sc, trig_ sc).

Definition node_head (sn : SceneNode.t) : Z * Trigger :=
  (SceneNode.scene_id sn, mkTrigger (SceneNode.trigger_type sn) "triggered").

(** A target node with other values under the keys [target_rows] and
    [target_cols]. *)
Definition with_rows_cols (rows cols : Z) (n : TargetNode.t) : TargetNode.t :=
  TargetNode.mk (TargetNode.target_name n) rows cols
    (TargetNode.angle_axis_ax n) (TargetNode.angle_axis_ay n)
    (TargetNode.angle_axis_az n) (TargetNode.position_x n)
    (TargetNode.position_y n) (TargetNode.position_z n)
    (TargetNode.scene_id n) (TargetNode.num_points n) (TargetNode.points n).

(** A target node as [load] sees it, with other results for the
    extractions of the keys [target_rows] and [target_cols]. *)
Definition yaml_with_rows_cols (rows cols : Extract Z) (n : YamlTarget.t)
  : YamlTarget.t :=
  YamlTarget.mk (YamlTarget.target_name n) rows cols
    (YamlTarget.angle_axis_ax n) (YamlTarget.angle_axis_ay n)
    (YamlTarget.angle_axis_az n) (YamlTarget.position_x n)
    (YamlTarget.position_y n) (YamlTarget.position_z n)
    (YamlTarget.scene_id n) (YamlTarget.num_points n) (YamlTarget.points n).

(** The number of points that a list of target nodes defines. *)
Definition points_defined (nodes : list TargetNode.t) : nat :=
  sum_list (map (fun n => length (TargetNode.points n)) nodes).

Module MoreExamples.



(** A job in which [camA] is catalogued and the targets "targetA" and
    "targetM" are catalogued at the addresses 0 and 1 of the store. *)
Definition registry_catalogued : Registry.CeresBlocks :=
  Registry.addMovingTarget 1%nat Examples.targetM 1
    (Registry.addStaticTarget 0%nat Examples.targetA
       (Registry.addStaticCamera Examples.camA Registry.empty)).

Definition job_catalogued : State :=
  mkState registry_catalogued [default_scene] [] []
    (Examples.store_AM ++ [default_Target]) [].



(** An outside world in which every capture is complete at the first poll
    and reports point 3 of the target at address 1. *)
Definition done_at_once : World :=
  mkWorld (fun _ _ => true) (fun _ _ => [mkObservation 1 3 10 10]).

(** Two scenes, 1 and 2, in each of which the moving camera looks for the
    moving target at address 1. *)
Definition scene_M (id : Z) : ObservationScene :=
  mkScene id (mkTrigger 0 "triggered") [Examples.camM]
    [mkObservationCmd Examples.camM 1 (mkRoi 0 640 0 480)].

Definition job_moving : State :=
  mkState Registry.empty [scene_M 1; scene_M 2] [] [] Examples.store_AM [].

Definition job_moved : State :=
  match runObservations done_at_once 1 job_moving with
  | Ret _ s => s
  | _ => job_moving
  end.

(** An outside world in which the capture of [camA] never completes, while
    every other capture is complete at the first poll. *)
Definition camA_stuck : World :=
  mkWorld
    (fun _ o =>
       match o with
       | ROSCameraObserver topic => negb (String.eqb topic "/camA/image")
       end)
    (fun _ _ => []).

(** A job whose first scene uses the moving camera and whose second scene
    uses [camA]; a third scene follows. *)
Definition job_stuck_second : State :=
  mkState Registry.empty [scene_M 1; Examples.scene1; scene_M 3] [] []
    Examples.store_AM [].

(** Input files that open and parse, in which a key is absent: the key
    [points] of a target node, the key [observations] of a scene, the key
    [reference_frame] of the job document. *)
Definition files_missing_points : Files :=
  mkFiles (Document (yaml_cameras Examples.cameras_ok))
    (Document
       (YamlDoc.mkTargets
          (Some [YamlTarget.mk (Value "targetA") (Value 2) (Value 2)
                   (Value 0%float) (Value 0%float) (Value 0%float)
                   (Value 0%float) (Value 0%float) (Value 1%float)
                   (Value 0) (Value 4) None])
          None))
    (Document (yaml_caljob Examples.caljob_ok)).

Definition files_missing_observations : Files :=
  mkFiles (Document (yaml_cameras Examples.cameras_ok))
    (Document (yaml_targets Examples.targets_ok))
    (Document
       (YamlDoc.mkCaljob (Value "world") (Value "")
          (Some [YamlScene.mk (Value 1) (Value 0) None]))).

Definition files_missing_reference_frame : Files :=
  mkFiles (Document (yaml_cameras Examples.cameras_ok))
    (Document (yaml_targets Examples.targets_ok))
    (Document
       (YamlDoc.mkCaljob Throws (Value "")
          (Some [yaml_scene
                   (SceneNode.mk 1 0
                      [ObsNode.mk "camA" 0 640 0 480 "targetA"])]))).

(** A camera document whose second static camera has no convertible value
    under the key [center_x]; the target source would be rejected by the
    parser. *)
Definition cameras_missing_key : YamlDoc.Cameras :=
  YamlDoc.mkCameras
    (Some [yaml_camera Examples.node_camA;
           YamlCamera.mk (Value "camB") (Value "/camB/image")
             (Value 0%float) (Value 0%float) (Value 0%float)
             (Value 0%float) (Value 0%float) (Value 0%float)
             (Value 500%float) (Value 500%float) Throws (Value 240%float)
             (Value 0%float) (Value 0%float) (Value 0%float)
             (Value 0%float) (Value 0%float) (Value 0)])
    None.

Definition files_missing_key : Files :=
  mkFiles (Document cameras_missing_key) Malformed
    (Document (yaml_caljob Examples.caljob_ok)).

Definition obs_A : ObsNode.t := ObsNode.mk "camA" 0 640 0 480 "targetA".
Definition obs_M : ObsNode.t := ObsNode.mk "camA" 0 640 0 480 "targetM".

(** A job document with two scenes. *)
Definition caljob_two_scenes : CaljobDoc :=
  mkCaljobDoc "world" ""
    (Some [SceneNode.mk 10 1 [obs_A]; SceneNode.mk 20 2 [obs_A; obs_M]]).

End MoreExamples.
(** * Properties *)

Module RegistryLemmas.
Import Registry RegistryFacts.

Lemma wf_empty : wf empty.
Proof.
  split; [split|unfold point_catalogued]; cbn; intros *;
    rewrite lookup_empty; discriminate.
Qed.

Lemma grows_refl r : grows r r.
Proof. split; reflexivity. Qed.

Lemma grows_trans r1 r2 r3 : grows r1 r2 -> grows r2 r3 -> grows r1 r3.
Proof.
  intros [] []; split; etrans; eauto.
Qed.

Lemma lookup_snoc_old {A} (l : list A) (x : A) (b : nat) (v : A) :
  l !! b = Some v -> (l ++ [x]) !! b = Some v.
Proof. intros H. by apply lookup_app_l_Some. Qed.

Lemma lookup_snoc_new {A} (l : list A) (x : A) :
  (l ++ [x]) !! length l = Some x.
Proof. by rewrite lookup_app_r, Nat.sub_diag. Qed.

Ltac old_block :=
  match goal with
  | Hwf : forall k b, ?m !! k = Some b -> exists v, _ /\ _,
    H : ?m !! _ = Some ?b |- exists v, _ /\ _ =>
      destruct (Hwf _ _ H) as (v & Hv & Hlen); exists v; split;
      [by apply lookup_snoc_old | done]
  end.

Ltac old_bound :=
  match goal with
  | Hwf : forall k b, ?m !! k = Some b -> (b < _)%nat,
    H : ?m !! _ = Some ?b |- _ =>
      let Hb := fresh "Hb" in
      pose proof (Hwf _ _ H) as Hb; rewrite ?length_app; cbn; try lia
  end.

Lemma ensure_intrinsics_wfb c r : wf_blocks r -> wf_blocks (ensure_intrinsics c r).
Proof.
  intros [Hi Hp He Ho Hei Hoi]. unfold ensure_intrinsics.
  destruct (intrinsics r !! camera_name_ c) eqn:E; [by split|].
  split; cbn; intros *.
  - rewrite lookup_insert_Some. intros [[_ <-]|[_ H]].
    + eexists; split; [apply lookup_snoc_new | done].
    + old_block.
  - intros H. old_block.
  - intros H. old_bound.
  - intros H. old_bound.
  - apply Hei.
  - apply Hoi.
Qed.

Lemma ensure_intrinsics_grows c r : grows r (ensure_intrinsics c r).
Proof.
  unfold ensure_intrinsics.
  destruct (intrinsics r !! camera_name_ c) eqn:E; [apply grows_refl|].
  split; cbn; try reflexivity.
  - by apply prefix_app_r.
  - by apply insert_subseteq.
Qed.

Lemma ensure_intrinsics_lookup c r :
  is_Some (intrinsics (ensure_intrinsics c r) !! camera_name_ c).
Proof.
  unfold ensure_intrinsics.
  destruct (intrinsics r !! camera_name_ c) eqn:E; cbn.
  - by rewrite E.
  - by rewrite lookup_insert_eq.
Qed.

Lemma ensure_extrinsics_wfb c sc r : wf_blocks r -> wf_blocks (ensure_extrinsics c sc r).
Proof.
  intros [Hi Hp He Ho Hei Hoi]. unfold ensure_extrinsics.
  destruct (extrinsics r !! (camera_name_ c, sc)) eqn:E; [by split|].
  split; cbn; intros *.
  - intros H. old_block.
  - intros H. old_block.
  - rewrite lookup_insert_Some, length_app. cbn.
    intros [[_ <-]|[_ H]]; [lia | old_bound].
  - intros H. old_bound.
  - rewrite !lookup_insert_Some.
    intros [[<- <-]|[_ H1]] [[<- E2]|[_ H2]]; try done.
    + old_bound.
    + subst. old_bound.
    + eauto.
  - apply Hoi.
Qed.

Lemma ensure_extrinsics_grows c sc r : grows r (ensure_extrinsics c sc r).
Proof.
  unfold ensure_extrinsics.
  destruct (extrinsics r !! (camera_name_ c, sc)) eqn:E; [apply grows_refl|].
  split; cbn; try reflexivity.
  - by apply prefix_app_r.
  - by apply insert_subseteq.
Qed.

Lemma ensure_extrinsics_lookup c sc r :
  is_Some (extrinsics (ensure_extrinsics c sc r) !! (camera_name_ c, sc)).
Proof.
  unfold ensure_extrinsics.
  destruct (extrinsics r !! (camera_name_ c, sc)) eqn:E; cbn.
  - by rewrite E.
  - by rewrite lookup_insert_eq.
Qed.

Lemma catalog_camera_wfb c r : wf_blocks r -> wf_blocks (catalog_camera c r).
Proof.
  intros [Hi Hp He Ho Hei Hoi]. unfold catalog_camera.
  destruct (cameras r !! camera_name_ c); by split.
Qed.

Lemma catalog_camera_grows c r : grows r (catalog_camera c r).
Proof.
  unfold catalog_camera.
  destruct (cameras r !! camera_name_ c) eqn:E; [apply grows_refl|].
  split; cbn; try reflexivity. by apply insert_subseteq.
Qed.

Lemma addCamera_wfb c sc r : wf_blocks r -> wf_blocks (addCamera c sc r).
Proof.
  intros H. unfold addCamera.
  by apply catalog_camera_wfb, ensure_extrinsics_wfb, ensure_intrinsics_wfb.
Qed.

Lemma addCamera_grows c sc r : grows r (addCamera c sc r).
Proof.
  unfold addCamera.
  eapply grows_trans; [apply ensure_intrinsics_grows|].
  eapply grows_trans; [apply ensure_extrinsics_grows|].
  apply catalog_camera_grows.
Qed.

Lemma addCamera_intrinsics c sc r :
  is_Some (intrinsics (addCamera c sc r) !! camera_name_ c).
Proof.
  unfold addCamera.
  destruct (ensure_intrinsics_lookup c r) as [b Hb].
  exists b.
  eapply lookup_weaken; [exact Hb|].
  apply grows_intrinsics.
  eapply grows_trans; [apply ensure_extrinsics_grows|apply catalog_camera_grows].
Qed.

Lemma addCamera_extrinsics c sc r :
  is_Some (extrinsics (addCamera c sc r) !! (camera_name_ c, sc)).
Proof.
  unfold addCamera.
  destruct (ensure_extrinsics_lookup c sc (ensure_intrinsics c r)) as [b Hb].
  exists b.
  eapply lookup_weaken; [exact Hb|].
  apply grows_extrinsics, catalog_camera_grows.
Qed.

Lemma addCamera_cameras c sc r :
  is_Some (cameras (addCamera c sc r) !! camera_name_ c).
Proof.
  unfold addCamera. generalize (ensure_extrinsics c sc (ensure_intrinsics c r)).
  intros r'. unfold catalog_camera.
  destruct (cameras r' !! camera_name_ c) eqn:E; cbn.
  - by rewrite E.
  - by rewrite lookup_insert_eq.
Qed.

Lemma addCamera_targets c sc r :
  target_point (addCamera c sc r) = target_point r /\
  targets (addCamera c sc r) = targets r.
Proof.
  unfold addCamera, catalog_camera, ensure_extrinsics, ensure_intrinsics.
  repeat match goal with |- context [match ?x with _ => _ end] =>
    destruct x; cbn end; done.
Qed.

Lemma addCamera_wf c sc r : wf r -> wf (addCamera c sc r).
Proof.
  intros [Hb Hc]. split; [by apply addCamera_wfb|].
  destruct (addCamera_targets c sc r) as [E1 E2].
  unfold point_catalogued. rewrite E1, E2. apply Hc.
Qed.

Lemma ensure_pose_wfb t sc r : wf_blocks r -> wf_blocks (ensure_pose t sc r).
Proof.
  intros [Hi Hp He Ho Hei Hoi]. unfold ensure_pose.
  destruct (target_pose r !! (target_name t, sc)) eqn:E; [by split|].
  split; cbn; intros *.
  - intros H. old_block.
  - intros H. old_block.
  - intros H. old_bound.
  - rewrite lookup_insert_Some, length_app. cbn.
    intros [[_ <-]|[_ H]]; [lia | old_bound].
  - apply Hei.
  - rewrite !lookup_insert_Some.
    intros [[<- <-]|[_ H1]] [[<- E2]|[_ H2]]; try done.
    + old_bound.
    + subst. old_bound.
    + eauto.
Qed.

Lemma ensure_pose_grows t sc r : grows r (ensure_pose t sc r).
Proof.
  unfold ensure_pose.
  destruct (target_pose r !! (target_name t, sc)) eqn:E; [apply grows_refl|].
  split; cbn; try reflexivity.
  - by apply prefix_app_r.
  - by apply insert_subseteq.
Qed.

Lemma ensure_pose_lookup t sc r :
  is_Some (target_pose (ensure_pose t sc r) !! (target_name t, sc)).
Proof.
  unfold ensure_pose.
  destruct (target_pose r !! (target_name t, sc)) eqn:E; cbn.
  - by rewrite E.
  - by rewrite lookup_insert_eq.
Qed.

Lemma ensure_pose_targets t sc r :
  target_point (ensure_pose t sc r) = target_point r /\
  targets (ensure_pose t sc r) = targets r.
Proof.
  unfold ensure_pose. by destruct (target_pose r !! _).
Qed.

Lemma add_points_wfb name id l r :
  wf_blocks r -> wf_blocks (add_points name id l r).
Proof.
  revert id r. induction l as [|p l IH]; intros id r Hwf; cbn; [done|].
  apply IH. destruct Hwf as [Hi Hp He Ho Hei Hoi].
  split; cbn; intros *.
  - intros H. old_block.
  - rewrite lookup_insert_Some. intros [[_ <-]|[_ H]].
    + eexists; split; [apply lookup_snoc_new | done].
    + old_block.
  - intros H. old_bound.
  - intros H. old_bound.
  - apply Hei.
  - apply Hoi.
Qed.

Lemma add_points_targets name id l r :
  targets (add_points name id l r) = targets r.
Proof.
  revert id r. induction l as [|p l IH]; intros id r; cbn; [done|].
  by rewrite IH.
Qed.

Lemma add_points_grows name id l r :
  (forall id', id <= id' -> target_point r !! (name, id') = None) ->
  grows r (add_points name id l r).
Proof.
  revert id r. induction l as [|p l IH]; intros id r Hfresh; cbn;
    [apply grows_refl|].
  eapply grows_trans; [|apply IH].
  - split; cbn; try reflexivity.
    + by apply prefix_app_r.
    + apply insert_subseteq, Hfresh. lia.
  - cbn. intros id' Hid. rewrite lookup_insert_ne.
    + apply Hfresh. lia.
    + intros [= ?]. lia.
Qed.

Lemma add_points_lookup name id l r (j : nat) :
  (forall id', id <= id' -> target_point r !! (name, id') = None) ->
  (j < length l)%nat ->
  is_Some (target_point (add_points name id l r) !! (name, id + Z.of_nat j)).
Proof.
  revert id r j. induction l as [|p l IH]; intros id r j Hfresh Hj; cbn in *;
    [lia|].
  set (r1 := mkCeresBlocks _ _ _ _ _ _ _).
  assert (Hfresh1 : forall id', id + 1 <= id' ->
            target_point r1 !! (name, id') = None).
  { intros id' Hid. cbn. rewrite lookup_insert_ne.
    - apply Hfresh. lia.
    - intros [= ?]. lia. }
  destruct j as [|j].
  - rewrite Z.add_0_r.
    exists (length (blocks r)).
    eapply lookup_weaken; [|apply grows_point, add_points_grows, Hfresh1].
    cbn. by rewrite lookup_insert_eq.
  - replace (id + Z.of_nat (S j)) with (id + 1 + Z.of_nat j) by lia.
    apply IH; [done | lia].
Qed.

Lemma add_points_keys name id l r n' i' b :
  target_point (add_points name id l r) !! (n', i') = Some b ->
  target_point r !! (n', i') = Some b \/ n' = name.
Proof.
  revert id r. induction l as [|p l IH]; intros id r; cbn; [by left|].
  intros H. apply IH in H as [H|H]; [|by right]. cbn in H.
  apply lookup_insert_Some in H as [[[= <- _] _]|[_ H]]; [by right|by left].
Qed.

Lemma ensure_points_wf p t r : wf r -> wf (ensure_points p t r).
Proof.
  intros [Hb Hc]. unfold ensure_points.
  destruct (targets r !! target_name t) eqn:E; [by split|].
  split.
  - pose proof (add_points_wfb (target_name t) 0 (pts t) r Hb)
      as [Hi Hp He Ho Hei Hoi].
    by split.
  - intros name id b. cbn. rewrite add_points_targets. intros H.
    apply add_points_keys in H as [H| ->].
    + destruct (Hc _ _ _ H) as [q Hq].
      exists q. rewrite lookup_insert_ne; [done|]. congruence.
    + by rewrite lookup_insert_eq.
Qed.

Lemma ensure_points_grows p t r : wf r -> grows r (ensure_points p t r).
Proof.
  intros [Hb Hc]. unfold ensure_points.
  destruct (targets r !! target_name t) eqn:E; [apply grows_refl|].
  assert (Hg : grows r (add_points (target_name t) 0 (pts t) r)).
  { apply add_points_grows. intros id' _.
    destruct (target_point r !! (target_name t, id')) eqn:E'; [|done].
    destruct (Hc _ _ _ E') as [q Hq]. congruence. }
  destruct Hg. split; cbn; try done.
  rewrite add_points_targets. by apply insert_subseteq.
Qed.

Lemma ensure_points_catalogued p t r :
  is_Some (targets (ensure_points p t r) !! target_name t).
Proof.
  unfold ensure_points.
  destruct (targets r !! target_name t) eqn:E; cbn.
  - by rewrite E.
  - by rewrite lookup_insert_eq.
Qed.

Lemma ensure_points_new p t r (j : nat) :
  wf r -> targets r !! target_name t = None -> (j < length (pts t))%nat ->
  is_Some (target_point (ensure_points p t r) !! (target_name t, Z.of_nat j)).
Proof.
  intros [Hb Hc] E Hj. unfold ensure_points. rewrite E. cbn.
  apply (add_points_lookup (target_name t) 0 (pts t) r j); [|done].
  intros id' _.
  destruct (target_point r !! (target_name t, id')) eqn:E'; [|done].
  destruct (Hc _ _ _ E') as [q Hq]. congruence.
Qed.

Lemma addTarget_wf p t sc r : wf r -> wf (addTarget p t sc r).
Proof.
  intros [Hb Hc]. unfold addTarget. apply ensure_points_wf.
  split; [by apply ensure_pose_wfb|].
  destruct (ensure_pose_targets t sc r) as [E1 E2].
  unfold point_catalogued. rewrite E1, E2. apply Hc.
Qed.

Lemma ensure_pose_wf t sc r : wf r -> wf (ensure_pose t sc r).
Proof.
  intros [Hb Hc]. split; [by apply ensure_pose_wfb|].
  destruct (ensure_pose_targets t sc r) as [E1 E2].
  unfold point_catalogued. rewrite E1, E2. apply Hc.
Qed.

Lemma addTarget_grows p t sc r : wf r -> grows r (addTarget p t sc r).
Proof.
  intros Hwf. unfold addTarget.
  eapply grows_trans; [apply ensure_pose_grows|].
  by apply ensure_points_grows, ensure_pose_wf.
Qed.

Lemma addTarget_pose p t sc r :
  wf r -> is_Some (target_pose (addTarget p t sc r) !! (target_name t, sc)).
Proof.
  intros Hwf. unfold addTarget.
  destruct (ensure_pose_lookup t sc r) as [b Hb]. exists b.
  eapply lookup_weaken; [exact Hb|].
  by apply grows_pose, ensure_points_grows, ensure_pose_wf.
Qed.

Lemma addTarget_catalogued p t sc r :
  is_Some (targets (addTarget p t sc r) !! target_name t).
Proof. apply ensure_points_catalogued. Qed.

End RegistryLemmas.

(** ** Reasoning in the monad *)

Module MonadLemmas.

Lemma bind_Ret {A B} (m : M A) (f : A -> M B) s a s1 :
  m s = Ret a s1 -> (m ≫= f) s = f a s1.
Proof. intros H. unfold mbind, M_bind. by rewrite H. Qed.

Lemma bind_Ret_inv {A B} (m : M A) (f : A -> M B) s b s2 :
  (m ≫= f) s = Ret b s2 ->
  exists a s1, m s = Ret a s1 /\ f a s1 = Ret b s2.
Proof.
  unfold mbind, M_bind. destruct (m s) as [a s1| |]; [eauto|done|done].
Qed.

Lemma bind_Raise {A B} (m : M A) (f : A -> M B) s e :
  m s = Raise e -> (m ≫= f) s = Raise e.
Proof. intros H. unfold mbind, M_bind. by rewrite H. Qed.

Lemma bind_Spin {A B} (m : M A) (f : A -> M B) s :
  m s = Spin -> (m ≫= f) s = Spin.
Proof. intros H. unfold mbind, M_bind. by rewrite H. Qed.

Lemma foreach_app {A} (l1 l2 : list A) (body : A -> M unit) s :
  foreach (l1 ++ l2) body s = (foreach l1 body ;; foreach l2 body) s.
Proof.
  revert s. induction l1 as [|a l1 IH]; intros s; cbn; [done|].
  unfold mbind, M_bind. destruct (body a s) as [[] s1| |]; [|done|done].
  apply IH.
Qed.

Lemma foreach_Ret_inv {A} (l : list A) (body : A -> M unit) s u s' a :
  foreach l body s = Ret u s' -> a ∈ l ->
  exists sa sa', body a sa = Ret tt sa'.
Proof.
  revert s. induction l as [|x l IH]; intros s Hrun Hin.
  - by apply not_elem_of_nil in Hin.
  - cbn in Hrun. apply bind_Ret_inv in Hrun as ([] & s1 & Hx & Hrest).
    apply elem_of_cons in Hin as [->|Hin]; [eauto|].
    eapply IH; eauto.
Qed.

End MonadLemmas.

Module CollectorLemmas.
Import Registry RegistryFacts RegistryLemmas MonadLemmas.

Lemma camera_blocks_eq camera scene_id s :
  exists i e,
    intrinsics (addCamera camera (scene_key (isMoving camera) scene_id)
                  (ceres_blocks_ s)) !! camera_name_ camera = Some i /\
    extrinsics (addCamera camera (scene_key (isMoving camera) scene_id)
                  (ceres_blocks_ s))
      !! (camera_name_ camera, scene_key (isMoving camera) scene_id)
      = Some e /\
    camera_blocks camera scene_id s =
      Ret (i, e)
        (set_ceres_blocks
           (addCamera camera (scene_key (isMoving camera) scene_id)) s).
Proof.
  destruct (addCamera_intrinsics camera
              (scene_key (isMoving camera) scene_id) (ceres_blocks_ s))
    as [i Hi].
  destruct (addCamera_extrinsics camera
              (scene_key (isMoving camera) scene_id) (ceres_blocks_ s))
    as [e He].
  exists i, e. split; [done|]. split; [done|].
  unfold camera_blocks.
  destruct (isMoving camera); cbn in *;
    repeat (unfold mbind, M_bind, lookup_block, update_blocks, modify, gets,
              from_option, getMovingCameraParameterBlockIntrinsics,
              getMovingCameraParameterBlockExtrinsics,
              getStaticCameraParameterBlockIntrinsics,
              getStaticCameraParameterBlockExtrinsics,
              addMovingCamera, addStaticCamera; cbn);
    rewrite Hi; cbn; rewrite He; done.
Qed.

End CollectorLemmas.

(** ** The wait for capture completion *)

Module WaitLemmas.
Import MonadLemmas.

Lemma observationsDone_eq world camera o s :
  camera_observer_ camera = Some o ->
  observationsDone world camera s =
    Ret (observationsDone_answer world (events s) o)
      (set_events
         (.++ [EvObservationsDone o
                 (observationsDone_answer world (events s) o)]) s).
Proof.
  intros Ho. unfold observationsDone, observer_of. rewrite Ho. done.
Qed.

Lemma polls_S o n h :
  h ++ polls o (S n) = (h ++ [EvObservationsDone o false]) ++ polls o n.
Proof. unfold polls. cbn. by rewrite <- app_assoc. Qed.

Lemma wait_never world camera o fuel s :
  camera_observer_ camera = Some o ->
  (forall n, observationsDone_answer world (events s ++ polls o n) o = false) ->
  wait_observationsDone world fuel camera s = Spin.
Proof.
  intros Ho. revert s. induction fuel as [|fuel IH]; intros s Hnever; [done|].
  cbn. unfold mbind, M_bind. rewrite (observationsDone_eq _ _ o) by done.
  pose proof (Hnever 0%nat) as H0. unfold polls in H0. cbn in H0.
  rewrite app_nil_r in H0. rewrite H0.
  apply IH. intros n. cbn. rewrite <- polls_S. apply Hnever.
Qed.

Lemma wait_until world camera o k fuel s :
  camera_observer_ camera = Some o ->
  (forall n, (n < k)%nat ->
     observationsDone_answer world (events s ++ polls o n) o = false) ->
  observationsDone_answer world (events s ++ polls o k) o = true ->
  (k < fuel)%nat ->
  wait_observationsDone world fuel camera s =
    Ret tt (set_events (.++ polls o k ++ [EvObservationsDone o true]) s).
Proof.
  intros Ho. revert fuel s.
  induction k as [|k IH]; intros fuel s Hbefore Hat Hfuel;
    (destruct fuel as [|fuel]; [lia|]);
    cbn; unfold mbind, M_bind; rewrite (observationsDone_eq _ _ o) by done.
  - unfold polls in Hat. cbn in Hat. rewrite app_nil_r in Hat. rewrite Hat.
    done.
  - pose proof (Hbefore 0%nat ltac:(lia)) as H0. unfold polls in H0.
    cbn in H0. rewrite app_nil_r in H0. rewrite H0.
    rewrite IH; [|..|lia].
    + unfold set_events. cbn. f_equal. f_equal.
      by rewrite <- app_assoc.
    + intros n Hn. cbn. rewrite <- polls_S. apply Hbefore. lia.
    + cbn. rewrite <- polls_S. apply Hat.
Qed.

Lemma wait_not_Ret world camera o fuel s u s' :
  camera_observer_ camera = Some o ->
  (forall h, observationsDone_answer world h o = false) ->
  wait_observationsDone world fuel camera s <> Ret u s'.
Proof.
  intros Ho Hnever. by rewrite (wait_never _ _ o).
Qed.

Lemma process_scene_not_Ret world fuel scene camera o s u s' :
  camera ∈ cameras_in_scene_ scene ->
  camera_observer_ camera = Some o ->
  (forall h, observationsDone_answer world h o = false) ->
  process_scene world fuel scene s <> Ret u s'.
Proof.
  intros Hcamera Ho Hnever Hsc.
  unfold process_scene in Hsc.
  apply bind_Ret_inv in Hsc as ([] & s4 & _ & Hsc).
  apply bind_Ret_inv in Hsc as ([] & s5 & _ & Hsc).
  apply bind_Ret_inv in Hsc as ([] & s6 & _ & Hsc).
  destruct (foreach_Ret_inv _ _ _ _ _ camera Hsc Hcamera) as (sb & sb' & Hc).
  unfold process_camera in Hc.
  apply bind_Ret_inv in Hc as ([] & s7 & Hwait & _).
  by eapply wait_not_Ret.
Qed.

Lemma runObservations_eq world fuel s :
  runObservations world fuel s =
    match foreach (scene_list_ s) (process_scene world fuel)
            (set_ceres_blocks Registry.clearCamerasTargets s) with
    | Ret _ s' => Ret true s'
    | Raise e => Raise e
    | Spin => Spin
    end.
Proof. reflexivity. Qed.

Lemma runObservations_not_Ret world fuel s scene camera o b s' :
  scene ∈ scene_list_ s ->
  camera ∈ cameras_in_scene_ scene ->
  camera_observer_ camera = Some o ->
  (forall h, observationsDone_answer world h o = false) ->
  runObservations world fuel s <> Ret b s'.
Proof.
  intros Hscene Hcamera Ho Hnever. rewrite runObservations_eq.
  destruct (foreach _ _ _) as [[] s1| |] eqn:Hrun; [|done|done].
  destruct (foreach_Ret_inv _ _ _ _ _ scene Hrun Hscene) as (sa & sa' & Hsc).
  by eapply process_scene_not_Ret in Hsc.
Qed.

(** A loop whose body never returns on [a] ends at [a]: what follows [a] in
    the list has no part in the outcome. *)
Lemma foreach_stuck {A} (before after : list A) (a : A) (body : A -> M unit)
    s :
  (forall s1 u s2, body a s1 <> Ret u s2) ->
  foreach (before ++ a :: after) body s = foreach (before ++ [a]) body s.
Proof.
  intros Hstuck. revert s.
  induction before as [|x before IH]; intros s; cbn; unfold mbind, M_bind.
  - destruct (body a s) as [u s1| |] eqn:E; [|done|done].
    by apply Hstuck in E.
  - destruct (body x s) as [u s1| |]; [|done|done]. apply IH.
Qed.

Lemma foreach_stuck_not_Ret {A} (before : list A) (a : A)
    (body : A -> M unit) s u s' :
  (forall s1 u s2, body a s1 <> Ret u s2) ->
  foreach (before ++ [a]) body s <> Ret u s'.
Proof.
  intros Hstuck Hrun.
  destruct (foreach_Ret_inv _ _ _ _ _ a Hrun) as (sa & sa' & Ha).
  - apply elem_of_app. right. apply list_elem_of_here.
  - by apply Hstuck in Ha.
Qed.

End WaitLemmas.

(** ** What follows a wait that never ends *)

Module SceneIndependence.
Import MonadLemmas.

Lemma ignores_ret {A} (a : A) : ignores_scenes (mret a : M A).
Proof. done. Qed.

Lemma ignores_bind {A B} (m : M A) (f : A -> M B) :
  ignores_scenes m -> (forall a, ignores_scenes (f a)) ->
  ignores_scenes (m ≫= f).
Proof.
  intros Hm Hf l s. unfold mbind, M_bind. rewrite Hm.
  destruct (m s) as [a s1| |]; cbn; [apply Hf|done|done].
Qed.

Lemma ignores_gets {A} (f : State -> A) :
  (forall l s, f (set_scene_list (fun _ => l) s) = f s) ->
  ignores_scenes (gets f).
Proof. intros Hf l s. unfold gets. cbn. by rewrite Hf. Qed.

Lemma ignores_modify (g : State -> State) :
  (forall l s, g (set_scene_list (fun _ => l) s)
               = set_scene_list (fun _ => l) (g s)) ->
  ignores_scenes (modify g).
Proof. intros Hg l s. unfold modify. cbn. by rewrite Hg. Qed.

Lemma ignores_from_option {A} e (o : option A) :
  ignores_scenes (from_option e o).
Proof. by destruct o. Qed.

Lemma ignores_foreach {A} (l : list A) (body : A -> M unit) :
  (forall a, ignores_scenes (body a)) -> ignores_scenes (foreach l body).
Proof.
  intros Hbody. induction l as [|a l IH]; cbn [foreach].
  - apply ignores_ret.
  - apply ignores_bind; [apply Hbody|]. intros _. apply IH.
Qed.

Ltac ignores_step :=
  lazymatch goal with
  | |- ignores_scenes (mbind _ _) => apply ignores_bind; [|intros ?]
  | |- ignores_scenes (mret _) => apply ignores_ret
  | |- ignores_scenes (from_option _ _) => apply ignores_from_option
  | |- ignores_scenes (foreach _ _) => apply ignores_foreach; intros ?
  | |- ignores_scenes (gets _) => apply ignores_gets; done
  | |- ignores_scenes (modify _) => apply ignores_modify; done
  | |- ignores_scenes (match ?p with _ => _ end) => destruct p
  end.

Lemma ignores_emit e : ignores_scenes (emit e).
Proof. unfold emit. ignores_step. Qed.

Lemma ignores_update_blocks f : ignores_scenes (update_blocks f).
Proof. unfold update_blocks. ignores_step. Qed.

Lemma ignores_lookup_block {A} (f : Registry.CeresBlocks -> option A) :
  ignores_scenes (lookup_block f).
Proof. unfold lookup_block. repeat ignores_step. Qed.

Lemma ignores_deref p : ignores_scenes (deref p).
Proof. unfold deref. repeat ignores_step. Qed.

Lemma ignores_observer_emit c (ev : CameraObserver -> Event) :
  ignores_scenes (observer_of c ≫= fun o => emit (ev o)).
Proof. unfold observer_of. ignores_step; [ignores_step|apply ignores_emit]. Qed.

Lemma ignores_observationsDone world c :
  ignores_scenes (observationsDone world c).
Proof.
  unfold observationsDone, observer_of. cbn zeta.
  repeat first [apply ignores_emit | ignores_step].
Qed.

Lemma ignores_getObservations world c :
  ignores_scenes (getObservations world c).
Proof.
  unfold getObservations, observer_of. cbn zeta.
  repeat first [apply ignores_emit | ignores_step].
Qed.

Lemma ignores_wait world fuel c :
  ignores_scenes (wait_observationsDone world fuel c).
Proof.
  induction fuel as [|fuel IH]; cbn [wait_observationsDone].
  - by intros l s.
  - apply ignores_bind; [apply ignores_observationsDone|].
    intros []; [apply ignores_ret|apply IH].
Qed.

Lemma ignores_camera_blocks c scene_id :
  ignores_scenes (camera_blocks c scene_id).
Proof.
  unfold camera_blocks. cbn zeta.
  repeat first [apply ignores_update_blocks | apply ignores_lookup_block
               | ignores_step].
Qed.

Lemma ignores_target_blocks p pnt_id scene_id :
  ignores_scenes (target_blocks p pnt_id scene_id).
Proof.
  unfold target_blocks. cbn zeta.
  repeat first [apply ignores_update_blocks | apply ignores_lookup_block
               | apply ignores_deref | ignores_step].
Qed.

Lemma ignores_process_observation scene_id name i e obs :
  ignores_scenes (process_observation scene_id name i e obs).
Proof.
  unfold process_observation, addObservationPoint. cbn zeta.
  repeat first [apply ignores_target_blocks | apply ignores_deref
               | ignores_step].
Qed.

Lemma ignores_process_camera world fuel scene_id c :
  ignores_scenes (process_camera world fuel scene_id c).
Proof.
  unfold process_camera. cbn zeta.
  repeat first [apply ignores_wait | apply ignores_camera_blocks
               | apply ignores_getObservations
               | apply ignores_process_observation | ignores_step].
Qed.

Lemma ignores_process_scene world fuel sc :
  ignores_scenes (process_scene world fuel sc).
Proof.
  unfold process_scene, clearObservations, clearTargets, addTarget,
    triggerCamera. cbn zeta.
  repeat first [apply ignores_observer_emit | apply ignores_process_camera
               | ignores_step].
Qed.

(** When the wait for a camera of [scene] never ends, the collection ends
    in that scene, whatever scenes follow it in the list. *)
Lemma runObservations_ends_in world fuel s scene camera o before after :
  camera ∈ cameras_in_scene_ scene ->
  camera_observer_ camera = Some o ->
  (forall h, observationsDone_answer world h o = false) ->
  ends_like
    (foreach (before ++ [scene]) (process_scene world fuel)
       (set_ceres_blocks Registry.clearCamerasTargets s))
    (runObservations world fuel (with_scenes (before ++ scene :: after) s)).
Proof.
  intros Hcamera Ho Hnever.
  assert (forall s1 u s2, process_scene world fuel scene s1 <> Ret u s2)
    as Hstuck.
  { intros s1 u s2. by eapply WaitLemmas.process_scene_not_Ret. }
  rewrite WaitLemmas.runObservations_eq.
  change (set_ceres_blocks Registry.clearCamerasTargets
            (with_scenes (before ++ scene :: after) s))
    with (set_scene_list (fun _ => before ++ scene :: after)
            (set_ceres_blocks Registry.clearCamerasTargets s)).
  cbn [scene_list_ with_scenes set_scene_list].
  rewrite (ignores_foreach _ _ (ignores_process_scene world fuel)).
  rewrite (WaitLemmas.foreach_stuck before after scene _ _ Hstuck).
  destruct (foreach (before ++ [scene]) _ _) as [u s1| |] eqn:E.
  - by apply WaitLemmas.foreach_stuck_not_Ret in E.
  - right. by exists e.
  - by left.
Qed.

Lemma with_scenes_id s : with_scenes (scene_list_ s) s = s.
Proof. by destruct s. Qed.

Lemma ends_like_eq {A B} (o : Outcome A) (o1 o2 : Outcome B) :
  ends_like o o1 -> ends_like o o2 -> o1 = o2.
Proof.
  intros [[H1 ->]|(e & H1 & ->)] [[H2 ->]|(e' & H2 & ->)]; congruence.
Qed.

End SceneIndependence.

(** C4, as the source has it.  The wait for capture completion has no
    timeout: it polls [observationsDone] until a poll answers true.  If the
    first true answer comes after [k] false ones, the wait ends there, after
    [k + 1] polls.  If no poll ever answers true the wait never ends.  And if
    the capture of one camera that is active in a scene of the job never
    completes, whatever the captures of the other cameras do, then
    [runObservations] never returns, and it ends the same way whatever
    scenes follow that scene in the list: no later scene is processed. *)
Theorem capture_wait_has_no_timeout (world : World) (camera : Camera)
    (o : CameraObserver) (scene : ObservationScene) (s : State) :
  camera_observer_ camera = Some o ->
  camera ∈ cameras_in_scene_ scene ->
  scene ∈ scene_list_ s ->
  (forall k fuel,
     (forall n, (n < k)%nat ->
        observationsDone_answer world (events s ++ polls o n) o = false) ->
     observationsDone_answer world (events s ++ polls o k) o = true ->
     (k < fuel)%nat ->
     wait_observationsDone world fuel camera s =
       Ret tt (set_events (.++ polls o k ++ [EvObservationsDone o true]) s))
  /\
  ((forall n,
      observationsDone_answer world (events s ++ polls o n) o = false) ->
   forall fuel, wait_observationsDone world fuel camera s = Spin)
  /\
  ((forall h, observationsDone_answer world h o = false) ->
   forall fuel,
     (forall b s', runObservations world fuel s <> Ret b s') /\
     (forall before after after',
        scene_list_ s = before ++ scene :: after ->
        runObservations world fuel
          (with_scenes (before ++ scene :: after') s)
        = runObservations world fuel s)).
Proof.
  intros Ho Hcamera Hscene. split; [|split].
  - intros k fuel. by apply WaitLemmas.wait_until.
  - intros Hnever fuel. by apply (WaitLemmas.wait_never _ _ o).
  - intros Hnever fuel. split.
    + intros b s'.
      by apply (WaitLemmas.runObservations_not_Ret _ _ _ scene camera o).
    + intros before after after' Hsplit.
      eapply SceneIndependence.ends_like_eq.
      * by apply (SceneIndependence.runObservations_ends_in world fuel s
                    scene camera o before after').
      * rewrite <- (SceneIndependence.with_scenes_id s) at 2.
        rewrite Hsplit.
        by apply (SceneIndependence.runObservations_ends_in world fuel s
                    scene camera o before after).
Qed.

(** The theorem at the camera of the example scene: in a world that
    answers true at the third poll the wait ends after three polls; in a
    world in which only the capture of this camera never completes, a job
    that has its scene between two others never returns from the
    collection, whatever follows that scene. *)
Lemma capture_wait_has_no_timeout_witness :
  wait_observationsDone Examples.done_at_third_poll 5 Examples.camA
    Examples.job_one_scene
  = Ret tt
      (set_events
         (.++ polls (ROSCameraObserver "/camA/image") 2 ++
              [EvObservationsDone (ROSCameraObserver "/camA/image") true])
         Examples.job_one_scene)
  /\
  (forall fuel,
     (forall b s',
        runObservations MoreExamples.camA_stuck fuel
          MoreExamples.job_stuck_second <> Ret b s') /\
     (forall before after after',
        scene_list_ MoreExamples.job_stuck_second
          = before ++ Examples.scene1 :: after ->
        runObservations MoreExamples.camA_stuck fuel
          (with_scenes (before ++ Examples.scene1 :: after')
             MoreExamples.job_stuck_second)
        = runObservations MoreExamples.camA_stuck fuel
            MoreExamples.job_stuck_second)).
Proof.
  split.
  - apply (proj1 (capture_wait_has_no_timeout Examples.done_at_third_poll
                    Examples.camA (ROSCameraObserver "/camA/image")
                    Examples.scene1 Examples.job_one_scene eq_refl
                    (list_elem_of_here _ _) (list_elem_of_here _ _))).
    + intros n Hn. destruct n as [|[|n]]; [reflexivity|reflexivity|lia].
    + reflexivity.
    + lia.
  - apply (proj2 (proj2
             (capture_wait_has_no_timeout MoreExamples.camA_stuck
                Examples.camA (ROSCameraObserver "/camA/image")
                Examples.scene1 MoreExamples.job_stuck_second eq_refl
                (list_elem_of_here _ _)
                (list_elem_of_further _ _ _ (list_elem_of_here _ _))))).
    reflexivity.
Defined.

(** The claim as the spec states it fails: with one scene, one camera and a
    capture that never completes, no amount of fuel brings the run to an
    end. *)
Lemma wait_is_not_bounded :
  ~ wait_is_bounded Examples.never_done Examples.job_one_scene.
Proof.
  intros [fuel Hfuel]. apply Hfuel.
  unfold runObservations, Examples.job_one_scene.
  repeat (unfold mbind, M_bind, process_scene, process_camera;
          cbn -[wait_observationsDone]).
  rewrite (WaitLemmas.wait_never _ _ (ROSCameraObserver "/camA/image"));
    done.
Qed.

(** ** The residuals of [runOptimization] *)

Module AssemblerLemmas.
Import MonadLemmas.

Lemma read_block_eq b i s v :
  block_at (ceres_blocks_ s) b i = Some v -> read_block b i s = Ret v s.
Proof.
  intros H. unfold read_block, mbind, M_bind, gets. by rewrite H.
Qed.

Lemma block_at_lt r b i (v : list double) :
  Registry.blocks r !! b = Some v -> (i < length v)%nat ->
  is_Some (block_at r b i).
Proof.
  intros Hb Hi. unfold block_at. rewrite Hb. cbn.
  by apply lookup_lt_is_Some.
Qed.

Lemma set_problem_app l1 l2 s :
  set_problem (.++ l2) (set_problem (.++ l1) s) = set_problem (.++ l1 ++ l2) s.
Proof. unfold set_problem. cbn. by rewrite <- app_assoc. Qed.

Lemma set_problem_nil s : set_problem (.++ []) s = s.
Proof. destruct s. unfold set_problem. cbn. by rewrite app_nil_r. Qed.

Lemma add_residual_eq odp s :
  readable (ceres_blocks_ s) odp ->
  exists rb,
    add_residual odp s = Ret tt (set_problem (.++ [rb]) s) /\
    residual_of odp rb /\ variant3 (ceres_blocks_ s) odp rb /\
    loss_is_null rb = true.
Proof.
  intros [(iv & Hiv & Hil) (pv & Hpv & Hpl)].
  destruct (block_at_lt _ _ 0 _ Hiv ltac:(lia)) as [fx Hfx].
  destruct (block_at_lt _ _ 1 _ Hiv ltac:(lia)) as [fy Hfy].
  destruct (block_at_lt _ _ 2 _ Hiv ltac:(lia)) as [cx Hcx].
  destruct (block_at_lt _ _ 3 _ Hiv ltac:(lia)) as [cy Hcy].
  destruct (block_at_lt _ _ 0 _ Hpv ltac:(lia)) as [px Hpx].
  destruct (block_at_lt _ _ 1 _ Hpv ltac:(lia)) as [py Hpy].
  destruct (block_at_lt _ _ 2 _ Hpv ltac:(lia)) as [pz Hpz].
  eexists. split; [|split; [|split]].
  - unfold add_residual.
    rewrite (bind_Ret _ _ _ _ _ (read_block_eq _ _ _ _ Hfx)).
    rewrite (bind_Ret _ _ _ _ _ (read_block_eq _ _ _ _ Hfy)).
    rewrite (bind_Ret _ _ _ _ _ (read_block_eq _ _ _ _ Hcx)).
    rewrite (bind_Ret _ _ _ _ _ (read_block_eq _ _ _ _ Hcy)).
    rewrite (bind_Ret _ _ _ _ _ (read_block_eq _ _ _ _ Hpx)).
    rewrite (bind_Ret _ _ _ _ _ (read_block_eq _ _ _ _ Hpy)).
    rewrite (bind_Ret _ _ _ _ _ (read_block_eq _ _ _ _ Hpz)).
    reflexivity.
  - done.
  - by repeat split.
  - done.
Qed.

Lemma foreach_add_residual l s :
  Forall (readable (ceres_blocks_ s)) l ->
  exists rbs,
    foreach l add_residual s = Ret tt (set_problem (.++ rbs) s) /\
    Forall2 residual_of l rbs /\
    Forall2 (variant3 (ceres_blocks_ s)) l rbs /\
    Forall (fun rb => loss_is_null rb = true) rbs.
Proof.
  revert s. induction l as [|odp l IH]; intros s Hl.
  - exists []. cbn. by rewrite set_problem_nil.
  - apply Forall_cons in Hl as [Hodp Hl].
    destruct (add_residual_eq odp s Hodp) as (rb & Hrun & Hof & Hv3 & Hloss).
    destruct (IH (set_problem (.++ [rb]) s) Hl)
      as (rbs & Hrest & Hofs & Hv3s & Hlosses).
    exists (rb :: rbs). cbn.
    rewrite (bind_Ret _ _ _ _ _ Hrun), Hrest, set_problem_app.
    repeat split; by constructor.
Qed.

Lemma runOptimization_eq s :
  Forall (readable (ceres_blocks_ s)) (observation_data_point_list s) ->
  exists rbs,
    runOptimization s = Ret true (set_problem (.++ rbs) s) /\
    Forall2 residual_of (observation_data_point_list s) rbs /\
    Forall2 (variant3 (ceres_blocks_ s)) (observation_data_point_list s) rbs
    /\ Forall (fun rb => loss_is_null rb = true) rbs.
Proof.
  intros Hl.
  destruct (foreach_add_residual _ s Hl) as (rbs & Hrun & Hof & Hv3 & Hloss).
  exists rbs. split; [|done].
  unfold runOptimization, mbind, M_bind, gets.
  destruct (observation_data_point_list s) as [|odp l] eqn:E.
  - cbn. apply Forall2_nil_inv_l in Hof as ->.
    by rewrite set_problem_nil.
  - cbn -[foreach]. unfold mbind, M_bind. rewrite E, Hrun. done.
Qed.

Lemma read_block_inv b i s v s' : read_block b i s = Ret v s' -> s' = s.
Proof.
  unfold read_block, mbind, M_bind, gets, from_option.
  destruct (block_at (ceres_blocks_ s) b i); [|done]. by intros [= _ <-].
Qed.

Lemma add_residual_events odp s u s' :
  add_residual odp s = Ret u s' -> events s' = events s.
Proof.
  unfold add_residual. intros H.
  repeat (apply bind_Ret_inv in H as (? & ? & Hr & H);
          apply read_block_inv in Hr as ->).
  by injection H as _ <-.
Qed.

Lemma foreach_events {A} (l : list A) (body : A -> M unit) s u s' :
  (forall a s1 s2, body a s1 = Ret tt s2 -> events s2 = events s1) ->
  foreach l body s = Ret u s' -> events s' = events s.
Proof.
  intros Hbody. revert s. induction l as [|a l IH]; intros s Hrun.
  - by injection Hrun as _ <-.
  - cbn in Hrun. apply bind_Ret_inv in Hrun as ([] & s1 & Ha & Hrest).
    rewrite (IH _ Hrest). eauto.
Qed.

End AssemblerLemmas.

(** ** What a run of the collector maintains *)

Module CollectorInvariant.
Import Registry RegistryFacts RegistryLemmas MonadLemmas CollectorLemmas.
Import CollectorFacts.

Lemma readable_grows r r' odp : grows r r' -> readable r odp -> readable r' odp.
Proof.
  intros Hg [(iv & Hiv & Hil) (pv & Hpv & Hpl)].
  pose proof (grows_blocks _ _ Hg) as Hp.
  split; eexists; (split; [eapply prefix_lookup_Some; eauto | done]).
Qed.

Lemma raw_observations_app h1 h2 :
  raw_observations (h1 ++ h2) = raw_observations h1 ++ raw_observations h2.
Proof. unfold raw_observations. apply bind_app. Qed.

Lemma step_refl s : wf (ceres_blocks_ s) -> step 0 s s.
Proof.
  intros Hwf. split; [done|apply grows_refl|].
  exists [], []. by rewrite !app_nil_r.
Qed.

Lemma step_trans d1 d2 s s' s'' :
  step d1 s s' -> step d2 s' s'' -> step (d1 + d2) s s''.
Proof.
  intros [_ Hg1 (h1 & n1 & He1 & Hi1 & Hd1 & Hr1)]
         [Hwf2 Hg2 (h2 & n2 & He2 & Hi2 & Hd2 & Hr2)].
  split; [done|by eapply grows_trans|].
  exists (h1 ++ h2), (n1 ++ n2).
  rewrite He2, He1, Hi2, Hi1, <- !app_assoc.
  split; [done|]. split; [done|]. split.
  - rewrite raw_observations_app, !length_app. lia.
  - apply Forall_app. split; [|done].
    eapply Forall_impl; [exact Hr1|]. intros odp. by apply readable_grows.
Qed.

Lemma step_emit e s :
  raw_observations [e] = [] -> wf (ceres_blocks_ s) ->
  step 0 s (set_events (.++ [e]) s).
Proof.
  intros He Hwf. split; [done|apply grows_refl|].
  exists [e], []. rewrite He. cbn. by rewrite app_nil_r.
Qed.

Lemma observer_emit_inv c (ev : CameraObserver -> Event) s u s' :
  (observer_of c ≫= fun o => emit (ev o)) s = Ret u s' ->
  exists o, s' = set_events (.++ [ev o]) s.
Proof.
  unfold observer_of, mbind, M_bind.
  destruct (camera_observer_ c) as [o|]; cbn; [|done].
  intros [= _ <-]. by exists o.
Qed.

Lemma foreach_step {A} (l : list A) (body : A -> M unit) s u s' :
  (forall a s1 s2, wf (ceres_blocks_ s1) -> body a s1 = Ret tt s2 ->
     step 0 s1 s2) ->
  wf (ceres_blocks_ s) -> foreach l body s = Ret u s' -> step 0 s s'.
Proof.
  intros Hbody. revert s. induction l as [|a l IH]; intros s Hwf Hrun.
  - injection Hrun as _ <-. by apply step_refl.
  - cbn in Hrun. apply bind_Ret_inv in Hrun as ([] & s1 & Ha & Hrest).
    pose proof (Hbody _ _ _ Hwf Ha) as H1.
    pose proof (IH _ (step_wf _ _ _ H1) Hrest) as H2.
    apply (step_trans 0 0 _ _ _ H1 H2).
Qed.

Lemma wait_step world fuel camera s u s' :
  wf (ceres_blocks_ s) ->
  wait_observationsDone world fuel camera s = Ret u s' -> step 0 s s'.
Proof.
  revert s. induction fuel as [|fuel IH]; intros s Hwf Hrun; [done|].
  cbn in Hrun. apply bind_Ret_inv in Hrun as (b & s1 & Hpoll & Hrest).
  assert (step 0 s s1) as H1.
  { unfold observationsDone in Hpoll.
    apply bind_Ret_inv in Hpoll as (o & s2 & Ho & Hpoll).
    unfold observer_of in Ho.
    destruct (camera_observer_ camera); [|done]. injection Ho as <- <-.
    cbn in Hpoll. injection Hpoll as _ <-. by apply step_emit. }
  destruct b.
  - injection Hrest as _ <-. done.
  - apply (step_trans 0 0 _ _ _ H1). apply IH; [|done].
    by apply (step_wf _ _ _ H1).
Qed.

Lemma camera_blocks_step camera scene_id s i e s' :
  wf (ceres_blocks_ s) ->
  camera_blocks camera scene_id s = Ret (i, e) s' ->
  step 0 s s' /\
  exists v, blocks (ceres_blocks_ s') !! i = Some v /\ length v = 9%nat.
Proof.
  intros Hwf Hrun.
  destruct (camera_blocks_eq camera scene_id s) as (i' & e' & Hi & He & Heq).
  rewrite Heq in Hrun. injection Hrun as <- <- <-.
  pose proof (addCamera_wf camera (scene_key (isMoving camera) scene_id)
                _ Hwf) as Hwf'.
  split.
  - split; [done|apply addCamera_grows|].
    exists [], []. cbn. by rewrite !app_nil_r.
  - cbn. destruct Hwf' as [Hb _]. eapply wf_intrinsics; eauto.
Qed.

Lemma getObservations_step world camera s obs s' :
  wf (ceres_blocks_ s) ->
  getObservations world camera s = Ret obs s' ->
  step (- Z.of_nat (length obs)) s s'.
Proof.
  intros Hwf Hrun. unfold getObservations in Hrun.
  apply bind_Ret_inv in Hrun as (o & s1 & Ho & Hrun).
  unfold observer_of in Ho.
  destruct (camera_observer_ camera); [|done]. injection Ho as <- <-.
  cbn in Hrun. injection Hrun as <- <-.
  split; [done|apply grows_refl|].
  eexists [_], []. cbn. rewrite !app_nil_r. repeat split; try done; lia.
Qed.

Lemma target_blocks_inv target pnt_id scene_id s pose pt s' :
  target_blocks target pnt_id scene_id s = Ret (pose, pt) s' ->
  exists t,
    target_store s !! target = Some t /\
    s' = set_ceres_blocks
           (addTarget target t (scene_key (is_moving t) scene_id)) s /\
    target_point (ceres_blocks_ s') !! (target_name t, pnt_id) = Some pt.
Proof.
  unfold target_blocks. intros Hrun.
  apply bind_Ret_inv in Hrun as (t & s1 & Ht & Hrun).
  unfold deref, mbind, M_bind, gets, from_option in Ht. cbn in Ht.
  destruct (target_store s !! target) as [t'|] eqn:Et; [|done].
  injection Ht as <- <-. exists t'. split; [done|].
  destruct (is_moving t');
    apply bind_Ret_inv in Hrun as ([] & s2 & Hadd & Hrun);
    injection Hadd as <-;
    apply bind_Ret_inv in Hrun as (po & s3 & Hpose & Hrun);
    apply bind_Ret_inv in Hrun as (pp & s4 & Hpt & Hrun);
    injection Hrun as <- <- <-;
    unfold lookup_block, mbind, M_bind, gets, from_option in Hpose, Hpt;
    cbn in Hpose, Hpt.
  - unfold getMovingTargetPoseParameterBlock in Hpose.
    unfold getMovingTargetPointParameterBlock in Hpt.
    destruct (target_pose _ !! _); [|done]. injection Hpose as <- <-.
    cbn in Hpt.
    destruct (target_point _ !! _) eqn:Ep; [|done]. injection Hpt as <- <-.
    done.
  - unfold getStaticTargetPoseParameterBlock in Hpose.
    unfold getStaticTargetPointParameterBlock in Hpt.
    destruct (target_pose _ !! _); [|done]. injection Hpose as <- <-.
    cbn in Hpt.
    destruct (target_point _ !! _) eqn:Ep; [|done]. injection Hpt as <- <-.
    done.
Qed.

Lemma live_grows r r' (i : nat) (n : nat) :
  grows r r' ->
  (exists v, blocks r !! i = Some v /\ length v = n) ->
  exists v, blocks r' !! i = Some v /\ length v = n.
Proof.
  intros Hg (v & Hv & Hn). exists v. split; [|done].
  eapply prefix_lookup_Some; [exact Hv|]. by apply grows_blocks.
Qed.

Lemma process_observation_step scene_id name i e obs s u s' :
  wf (ceres_blocks_ s) ->
  (exists v, blocks (ceres_blocks_ s) !! i = Some v /\ length v = 9%nat) ->
  process_observation scene_id name i e obs s = Ret u s' ->
  step 1 s s'.
Proof.
  intros Hwf Hlive Hrun. unfold process_observation in Hrun.
  apply bind_Ret_inv in Hrun as (t & s0 & Ht & Hrun).
  unfold deref, mbind, M_bind, gets, from_option in Ht. cbn in Ht.
  destruct (target_store s !! obs_target obs) as [t'|] eqn:Et; [|done].
  injection Ht as <- <-.
  apply bind_Ret_inv in Hrun as ([pose pt] & s1 & Hblocks & Hrun).
  apply target_blocks_inv in Hblocks as (t2 & Ht2 & -> & Hpt).
  injection Hrun as <- <-.
  pose proof (addTarget_wf (obs_target obs) t2
                (scene_key (is_moving t2) scene_id) _ Hwf) as Hwf'.
  pose proof (addTarget_grows (obs_target obs) t2
                (scene_key (is_moving t2) scene_id) _ Hwf) as Hg.
  split; [done|done|].
  eexists [], [_]. cbn. rewrite app_nil_r.
  repeat split; try done. constructor; [|done].
  split; cbn.
  - destruct (live_grows _ _ _ _ Hg Hlive) as (v & Hv & Hn).
    exists v. split; [done|lia].
  - cbn in Hpt. destruct Hwf' as [Hb _].
    destruct (wf_point _ Hb _ _ Hpt) as (v & Hv & Hn).
    exists v. split; [done|lia].
Qed.

Lemma foreach_observation_step scene_id name i e l s u s' :
  wf (ceres_blocks_ s) ->
  (exists v, blocks (ceres_blocks_ s) !! i = Some v /\ length v = 9%nat) ->
  foreach l (process_observation scene_id name i e) s = Ret u s' ->
  step (Z.of_nat (length l)) s s'.
Proof.
  revert s. induction l as [|obs l IH]; intros s Hwf Hlive Hrun.
  - injection Hrun as _ <-. by apply step_refl.
  - cbn [foreach] in Hrun.
    apply bind_Ret_inv in Hrun as ([] & s1 & Hobs & Hrest).
    pose proof (process_observation_step _ _ _ _ _ _ _ _ Hwf Hlive Hobs)
      as H1.
    pose proof (IH _ (step_wf _ _ _ H1)
                  (live_grows _ _ _ _ (step_grows _ _ _ H1) Hlive) Hrest)
      as H2.
    replace (Z.of_nat (length (obs :: l))) with (1 + Z.of_nat (length l))
      by (cbn [length]; lia).
    by eapply step_trans.
Qed.

Lemma process_camera_step world fuel scene_id camera s u s' :
  wf (ceres_blocks_ s) ->
  process_camera world fuel scene_id camera s = Ret u s' -> step 0 s s'.
Proof.
  intros Hwf Hrun. unfold process_camera in Hrun.
  apply bind_Ret_inv in Hrun as ([] & s1 & Hwait & Hrun).
  apply bind_Ret_inv in Hrun as ([i e] & s2 & Hblocks & Hrun).
  apply bind_Ret_inv in Hrun as (obs & s3 & Hget & Hrun).
  pose proof (wait_step _ _ _ _ _ _ Hwf Hwait) as H1.
  destruct (camera_blocks_step _ _ _ _ _ _ (step_wf _ _ _ H1) Hblocks)
    as [H2 Hlive].
  pose proof (getObservations_step _ _ _ _ _ (step_wf _ _ _ H2) Hget) as H3.
  pose proof (foreach_observation_step _ _ _ _ _ _ _ _ (step_wf _ _ _ H3)
                (live_grows _ _ _ _ (step_grows _ _ _ H3) Hlive) Hrun) as H4.
  pose proof (step_trans _ _ _ _ _ H1
                (step_trans _ _ _ _ _ H2 (step_trans _ _ _ _ _ H3 H4))) as H.
  replace (0 + (0 + (- Z.of_nat (length obs) + Z.of_nat (length obs))))
    with 0 in H by lia.
  done.
Qed.

Lemma process_scene_step world fuel scene s u s' :
  wf (ceres_blocks_ s) ->
  process_scene world fuel scene s = Ret u s' -> step 0 s s'.
Proof.
  intros Hwf Hrun. unfold process_scene in Hrun.
  apply bind_Ret_inv in Hrun as ([] & s1 & Hclear & Hrun).
  apply bind_Ret_inv in Hrun as ([] & s2 & Hadd & Hrun).
  apply bind_Ret_inv in Hrun as ([] & s3 & Htrig & Hrun).
  assert (step 0 s s1) as H1.
  { eapply foreach_step; [|exact Hwf|exact Hclear].
    intros c sa sb Hwfa Hc.
    apply bind_Ret_inv in Hc as ([] & sc & Hc1 & Hc2).
    apply observer_emit_inv in Hc1 as (o1 & ->).
    apply observer_emit_inv in Hc2 as (o2 & ->).
    apply (step_trans 0 0 _ (set_events (.++ [EvClearObservations o1]) sa));
      by apply step_emit. }
  assert (step 0 s1 s2) as H2.
  { eapply foreach_step; [|exact (step_wf _ _ _ H1)|exact Hadd].
    intros c sa sb Hwfa Hc.
    apply observer_emit_inv in Hc as (o1 & ->). by apply step_emit. }
  assert (step 0 s2 s3) as H3.
  { eapply foreach_step; [|exact (step_wf _ _ _ H2)|exact Htrig].
    intros c sa sb Hwfa Hc.
    apply observer_emit_inv in Hc as (o1 & ->). by apply step_emit. }
  assert (step 0 s3 s') as H4.
  { eapply foreach_step; [|exact (step_wf _ _ _ H3)|exact Hrun].
    intros c sa sb Hwfa Hc. by eapply process_camera_step. }
  apply (step_trans 0 0 _ _ _ H1).
  apply (step_trans 0 0 _ _ _ H2).
  apply (step_trans 0 0 _ _ _ H3 H4).
Qed.

(** A run of [runObservations]: one new data point per raw observation
    handed over during the run, each of them readable in the registry the
    run leaves behind. *)
Lemma runObservations_collects world fuel s b s' :
  runObservations world fuel s = Ret b s' ->
  b = true /\
  wf (ceres_blocks_ s') /\
  exists h new,
    events s' = events s ++ h /\
    observation_data_point_list s' = observation_data_point_list s ++ new /\
    length new = length (raw_observations h) /\
    Forall (readable (ceres_blocks_ s')) new.
Proof.
  intros Hrun. unfold runObservations in Hrun.
  apply bind_Ret_inv in Hrun as ([] & s1 & Hclear & Hrun).
  injection Hclear as <-.
  apply bind_Ret_inv in Hrun as (scenes & s2 & Hget & Hrun).
  injection Hget as <- <-.
  apply bind_Ret_inv in Hrun as ([] & s3 & Hrun & Hret).
  injection Hret as <- <-. split; [done|].
  assert (step 0 (set_ceres_blocks clearCamerasTargets s) s3)
    as [Hwf _ (h & new & He & Hi & Hd & Hr)].
  { eapply foreach_step; [| |exact Hrun].
    - intros sc sa sb Hwfa Hsc. by eapply process_scene_step.
    - apply wf_empty. }
  split; [done|]. exists h, new. cbn in He, Hi.
  repeat split; try done. lia.
Qed.

End CollectorInvariant.







(** C8.  Every residual that [runOptimization] submits binds exactly two
    parameter blocks, the camera extrinsics and the target pose of its data
    point; the four intrinsic values and the three coordinates of the point
    are read once and stored in the cost function as constants. *)
Theorem residuals_bind_extrinsics_and_pose (s : State) :
  Forall (readable (ceres_blocks_ s)) (observation_data_point_list s) ->
  exists rbs s2,
    runOptimization s = Ret true s2 /\
    problem_ s2 = problem_ s ++ rbs /\
    Forall2 (variant3 (ceres_blocks_ s)) (observation_data_point_list s) rbs.
Proof.
  intros Hr.
  destruct (AssemblerLemmas.runOptimization_eq s Hr)
    as (rbs & Hopt & _ & Hv3 & _).
  exists rbs. eexists. split; [exact Hopt|]. done.
Qed.

Lemma job_collected_readable :
  Forall (readable Examples.registry_A) Examples.data_points_A.
Proof.
  repeat constructor;
    eexists; (split; [vm_compute; reflexivity | cbn; lia]).
Defined.

(** The theorem at the four data points of the example job. *)
Lemma residuals_bind_extrinsics_and_pose_witness :
  Forall (readable Examples.registry_A) Examples.data_points_A /\
  exists rbs s2,
    runOptimization Examples.job_collected = Ret true s2 /\
    problem_ s2 = [] ++ rbs /\
    Forall2 (variant3 Examples.registry_A) Examples.data_points_A rbs.
Proof.
  split; [exact job_collected_readable|].
  exact (residuals_bind_extrinsics_and_pose Examples.job_collected
           job_collected_readable).
Defined.

(** C5, what the source does.  Whenever [runOptimization] returns, it
    returns [true] and has not called the solver: the history has no new
    event, so no [EvSolve].  What a solver would report about the problem
    has no part in the result. *)
Theorem runOptimization_never_solves (s s' : State) (b : bool) :
  runOptimization s = Ret b s' -> b = true /\ events s' = events s.
Proof.
  unfold runOptimization. intros H.
  apply MonadLemmas.bind_Ret_inv in H as (items & s1 & Hget & H).
  injection Hget as <- <-.
  apply MonadLemmas.bind_Ret_inv in H as (r & s2 & Hloop & H).
  destruct (observation_data_point_list s) as [|odp l] eqn:E.
  - injection Hloop as <- <-. by injection H as <- <-.
  - cbn [foreach_return] in Hloop.
    apply MonadLemmas.bind_Ret_inv in Hloop as (r' & s3 & Hbody & Hloop).
    apply MonadLemmas.bind_Ret_inv in Hbody as (items' & s4 & Hget & Hbody).
    injection Hget as <- <-.
    apply MonadLemmas.bind_Ret_inv in Hbody as ([] & s5 & Hinner & Hbody).
    injection Hbody as <- <-. injection Hloop as <- <-.
    injection H as <- <-. split; [done|].
    eapply AssemblerLemmas.foreach_events; [|exact Hinner].
    intros a sa sb. apply AssemblerLemmas.add_residual_events.
Qed.

(** The theorem at the example job with its four data points. *)
Lemma runOptimization_never_solves_witness :
  exists s',
    runOptimization Examples.job_collected = Ret true s' /\
    true = true /\ events s' = events Examples.job_collected.
Proof.
  eexists. split.
  - vm_compute. reflexivity.
  - eapply runOptimization_never_solves. vm_compute. reflexivity.
Defined.

(** Whatever the two phases do, [run] hands no value back. *)
Lemma run_value (world : World) (fuel : nat) (s s' : State)
    (v : option bool) :
  run world fuel s = Ret v s' -> v = None.
Proof.
  unfold run. intros H.
  apply MonadLemmas.bind_Ret_inv in H as (b1 & s1 & _ & H).
  apply MonadLemmas.bind_Ret_inv in H as (b2 & s2 & _ & H).
  by injection H as <- _.
Qed.

(** C6, what the source does.  On the example job both phases return
    [true], and [run] reaches the end of its body without handing a value
    back. *)
Theorem run_hands_back_no_value :
  exists s1 s2,
    runObservations Examples.done_at_third_poll 5 Examples.job_one_scene
      = Ret true s1 /\
    runOptimization s1 = Ret true s2 /\
    run Examples.done_at_third_poll 5 Examples.job_one_scene = Ret None s2.
Proof.
  do 2 eexists. split; [|split].
  - vm_compute. reflexivity.
  - vm_compute. reflexivity.
  - vm_compute. reflexivity.
Qed.

(** ** [load]: the target objects *)

Module LoadLemmas.
Import MonadLemmas.

Lemma lookup_snoc_new_store {A} (l : list A) (x : A) :
  (l ++ [x]) !! length l = Some x.
Proof. by rewrite lookup_app_r, Nat.sub_diag. Qed.

Lemma write_write p t t' s : write p t' (write p t s) = write p t' s.
Proof.
  unfold write, set_target_store. cbn. by rewrite list_insert_insert_eq.
Qed.

Lemma write_id p t s : target_store s !! p = Some t -> write p t s = s.
Proof.
  intros H. destruct s. unfold write, set_target_store. cbn in *.
  by rewrite list_insert_id.
Qed.

Lemma lookup_write p t s :
  (p < length (target_store s))%nat -> target_store (write p t s) !! p = Some t.
Proof. intros H. cbn. by apply list_lookup_insert_eq. Qed.

Lemma deref_write p t s :
  (p < length (target_store s))%nat -> deref p (write p t s) = Ret t (write p t s).
Proof.
  intros H. unfold deref, mbind, M_bind, gets.
  by rewrite lookup_write.
Qed.

Lemma assign_write p f t s :
  (p < length (target_store s))%nat ->
  assign p f (write p t s) = Ret tt (write p (f t) s).
Proof.
  intros H. unfold assign.
  rewrite (bind_Ret _ _ _ _ _ (deref_write p t s H)).
  unfold modify. by rewrite <- (write_write p t (f t) s).
Qed.

Lemma extract_Value {A} (v : A) s : extract (Value v) s = Ret v s.
Proof. reflexivity. Qed.

Lemma extract_into_write {A} (v : A) p (set : A -> Target -> Target) t s :
  (p < length (target_store s))%nat ->
  extract_into (Value v) p set (write p t s) = Ret tt (write p (set v t) s).
Proof.
  intros H. unfold extract_into.
  rewrite (bind_Ret _ _ _ _ _ (extract_Value v _)). by apply assign_write.
Qed.

Lemma extract_into_eq {A} (v : A) p (set : A -> Target -> Target) t s :
  target_store s !! p = Some t ->
  extract_into (Value v) p set s = Ret tt (write p (set v t) s).
Proof.
  intros H. unfold extract_into.
  rewrite (bind_Ret _ _ _ _ _ (extract_Value v _)).
  unfold assign, deref, mbind, M_bind, gets. by rewrite H.
Qed.

(** The points of a node that has all its keys, with values that convert. *)
Lemma load_points_write p l t s :
  (p < length (target_store s))%nat ->
  load_points p (Some (map yaml_point l)) (write p t s) =
    Ret tt (write p (mkTarget (target_name t) (is_moving t) (pose t)
                       (num_points t) (pts t ++ map to_Point3d l)
                       (checker_board_parameters t)) s).
Proof.
  intros H. unfold load_points.
  erewrite bind_Ret; [|reflexivity]. revert t.
  induction l as [|[[p0 p1] p2] l IH]; intros t.
  - cbn. rewrite app_nil_r. by destruct t.
  - cbn [foreach map yaml_point].
    erewrite bind_Ret;
      [|do 5 (erewrite bind_Ret; [|reflexivity]); by apply assign_write].
    rewrite IH. cbn. by rewrite <- app_assoc.
Qed.

Ltac assign_step :=
  erewrite bind_Ret; [|by apply extract_into_write].

Lemma load_static_target_write p n t s :
  (p < length (target_store s))%nat ->
  load_static_target p (yaml_target n) (write p t s) =
    Ret tt
      (set_ceres_blocks (Registry.addStaticTarget p (static_target_after n t))
         (write p (static_target_after n t) s)).
Proof.
  intros H. unfold load_static_target, yaml_target.
  do 10 assign_step.
  erewrite bind_Ret; [|by apply load_points_write].
  erewrite bind_Ret; [|by apply deref_write].
  reflexivity.
Qed.

Lemma load_moving_target_write p n t s :
  (p < length (target_store s))%nat ->
  load_moving_target p (yaml_target n) (write p t s) =
    Ret tt
      (set_ceres_blocks
         (Registry.addMovingTarget p (moving_target_after n t)
            (TargetNode.scene_id n))
         (write p (moving_target_after n t) s)).
Proof.
  intros H. unfold load_moving_target, yaml_target.
  do 7 assign_step.
  erewrite bind_Ret; [|reflexivity].
  assign_step.
  erewrite bind_Ret; [|by apply load_points_write].
  erewrite bind_Ret; [|by apply deref_write].
  reflexivity.
Qed.

Lemma foreach_static_targets p nodes t s :
  (p < length (target_store s))%nat ->
  foreach (map yaml_target nodes) (load_static_target p) (write p t s) =
    Ret tt
      (set_ceres_blocks (static_registry_after p nodes t)
         (write p (fold_left (fun t n => static_target_after n t) nodes t)
            s)).
Proof.
  intros H. revert t s H.
  induction nodes as [|n nodes IH]; intros t s H; [done|].
  cbn [foreach map].
  erewrite bind_Ret; [|by apply load_static_target_write].
  change (set_ceres_blocks ?f (write p ?t1 s))
    with (write p t1 (set_ceres_blocks f s)).
  by rewrite IH.
Qed.

Lemma foreach_moving_targets p nodes t s :
  (p < length (target_store s))%nat ->
  foreach (map yaml_target nodes) (load_moving_target p) (write p t s) =
    Ret tt
      (set_ceres_blocks (moving_registry_after p nodes t)
         (write p (fold_left (fun t n => moving_target_after n t) nodes t)
            s)).
Proof.
  intros H. revert t s H.
  induction nodes as [|n nodes IH]; intros t s H; [done|].
  cbn [foreach map].
  erewrite bind_Ret; [|by apply load_moving_target_write].
  change (set_ceres_blocks ?f (write p ?t1 s))
    with (write p t1 (set_ceres_blocks f s)).
  by rewrite IH.
Qed.

Lemma insert_snoc {A} (l : list A) (x y : A) :
  <[length l := y]> (l ++ [x]) = l ++ [y].
Proof. by rewrite insert_app_r_alt, Nat.sub_diag by lia. Qed.

Lemma assign_eq p f t s :
  target_store s !! p = Some t -> assign p f s = Ret tt (write p (f t) s).
Proof.
  intros H. unfold assign, deref, mbind, M_bind, gets. by rewrite H.
Qed.

Lemma make_shared_Target_eq s :
  make_shared_Target s =
    Ret (length (target_store s)) (set_target_store (.++ [default_Target]) s).
Proof. reflexivity. Qed.

(** The prologue of both loops: a new object, then the loop on it. *)
Lemma load_static_targets_eq nodes s :
  load_static_targets (map yaml_target nodes) s =
    Ret tt
      (set_ceres_blocks
         (static_registry_after (length (target_store s)) nodes
            (set_is_moving false default_Target))
         (set_target_store
            (.++ [fold_left (fun t n => static_target_after n t) nodes
                    (set_is_moving false default_Target)]) s)).
Proof.
  unfold load_static_targets.
  rewrite (bind_Ret _ _ _ _ _ (make_shared_Target_eq s)).
  erewrite bind_Ret;
    [|apply assign_eq; cbn; apply lookup_snoc_new_store].
  rewrite foreach_static_targets by (cbn; rewrite length_app; cbn; lia).
  unfold write, set_target_store, set_ceres_blocks. cbn.
  by rewrite insert_snoc.
Qed.

Lemma load_moving_targets_eq nodes s :
  load_moving_targets (map yaml_target nodes) s =
    Ret tt
      (set_ceres_blocks
         (moving_registry_after (length (target_store s)) nodes
            (set_is_moving true default_Target))
         (set_target_store
            (.++ [fold_left (fun t n => moving_target_after n t) nodes
                    (set_is_moving true default_Target)]) s)).
Proof.
  unfold load_moving_targets.
  rewrite (bind_Ret _ _ _ _ _ (make_shared_Target_eq s)).
  erewrite bind_Ret;
    [|apply assign_eq; cbn; apply lookup_snoc_new_store].
  rewrite foreach_moving_targets by (cbn; rewrite length_app; cbn; lia).
  unfold write, set_target_store, set_ceres_blocks. cbn.
  by rewrite insert_snoc.
Qed.





Lemma fold_static_pts nodes t :
  pts (fold_left (fun t n => static_target_after n t) nodes t)
  = pts t ++ all_points nodes.
Proof.
  revert t. induction nodes as [|n nodes IH]; intros t.
  - cbn. by rewrite app_nil_r.
  - cbn. rewrite IH. cbn. by rewrite <- app_assoc.
Qed.


Lemma fold_moving_pose nodes last t :
  pose (fold_left (fun t n => moving_target_after n t) (nodes ++ [last]) t)
  = mkPose6d (TargetNode.angle_axis_ax last) (TargetNode.angle_axis_ax last)
      (TargetNode.angle_axis_ay last) (TargetNode.position_x last)
      (TargetNode.position_y last) (TargetNode.position_z last).
Proof. by rewrite fold_left_app. Qed.

(** The catalogue of targets under registration. *)
Lemma addTarget_targets p t sc r :
  Registry.targets (Registry.addTarget p t sc r) =
    match Registry.targets r !! target_name t with
    | Some _ => Registry.targets r
    | None => <[target_name t := p]> (Registry.targets r)
    end.
Proof.
  unfold Registry.addTarget, Registry.ensure_points.
  destruct (RegistryLemmas.ensure_pose_targets t sc r) as [_ E]. rewrite E.
  destruct (Registry.targets r !! target_name t); cbn; [done|].
  by rewrite RegistryLemmas.add_points_targets, E.
Qed.

Lemma catalogue_refl p r : catalogue_extended_with p r r.
Proof. split; eauto. Qed.

Lemma catalogue_trans p r1 r2 r3 :
  catalogue_extended_with p r1 r2 -> catalogue_extended_with p r2 r3 ->
  catalogue_extended_with p r1 r3.
Proof.
  intros [Hk1 Hn1] [Hk2 Hn2]. split; [eauto|].
  intros name q H. destruct (Hn2 _ _ H) as [H'|]; eauto.
Qed.

Lemma addTarget_catalogue p t sc r :
  catalogue_extended_with p r (Registry.addTarget p t sc r) /\
  is_Some (Registry.targets (Registry.addTarget p t sc r) !! target_name t).
Proof.
  unfold catalogue_extended_with. rewrite addTarget_targets.
  destruct (Registry.targets r !! target_name t) as [q|] eqn:E.
  - split; [split; eauto|]. by rewrite E.
  - split; [split|].
    + intros name q H. rewrite lookup_insert_ne; [done|]. congruence.
    + intros name q. rewrite lookup_insert_Some. intros [[_ <-]|[_ H]]; eauto.
    + by rewrite lookup_insert_eq.
Qed.

Lemma static_registry_catalogue p nodes t r :
  catalogue_extended_with p r (static_registry_after p nodes t r) /\
  forall n, n ∈ nodes ->
    is_Some (Registry.targets (static_registry_after p nodes t r)
             !! TargetNode.target_name n).
Proof.
  revert t r. induction nodes as [|n nodes IH]; intros t r.
  - split; [apply catalogue_refl|]. intros n Hn. by apply not_elem_of_nil in Hn.
  - cbn [static_registry_after].
    destruct (addTarget_catalogue p (static_target_after n t) None r)
      as [Hc Hn].
    destruct (IH (static_target_after n t)
                (Registry.addStaticTarget p (static_target_after n t) r))
      as [Hc' Hall].
    split; [by eapply catalogue_trans|].
    intros n' Hin. apply elem_of_cons in Hin as [->|Hin]; [|by apply Hall].
    destruct Hn as [q Hq]. exists q. by apply Hc'.
Qed.

Lemma moving_registry_catalogue p nodes t r :
  catalogue_extended_with p r (moving_registry_after p nodes t r) /\
  forall n, n ∈ nodes ->
    is_Some (Registry.targets (moving_registry_after p nodes t r)
             !! TargetNode.target_name n).
Proof.
  revert t r. induction nodes as [|n nodes IH]; intros t r.
  - split; [apply catalogue_refl|]. intros n Hn. by apply not_elem_of_nil in Hn.
  - cbn [moving_registry_after].
    destruct (addTarget_catalogue p (moving_target_after n t)
                (Some (TargetNode.scene_id n)) r) as [Hc Hn].
    destruct (IH (moving_target_after n t)
                (Registry.addMovingTarget p (moving_target_after n t)
                   (TargetNode.scene_id n) r))
      as [Hc' Hall].
    split; [by eapply catalogue_trans|].
    intros n' Hin. apply elem_of_cons in Hin as [->|Hin]; [|by apply Hall].
    destruct Hn as [q Hq]. exists q. by apply Hc'.
Qed.

End LoadLemmas.




(** ** [load]: what it returns *)

Module LoadOutcome.
Import MonadLemmas LoadLemmas.

Lemma foreach_update_blocks {A} (l : list A)
    (f : A -> Registry.CeresBlocks -> Registry.CeresBlocks) s :
  foreach l (fun a => update_blocks (f a)) s =
    Ret tt (set_ceres_blocks (fun r => fold_left (fun r a => f a r) l r) s).
Proof.
  revert s. induction l as [|a l IH]; intros s.
  - by destruct s.
  - cbn [foreach]. unfold mbind, M_bind. cbn.
    change (update_blocks (f a) s) with (Ret tt (set_ceres_blocks (f a) s)).
    cbn. by rewrite IH.
Qed.

Lemma foreach_map {A B} (g : A -> B) (l : list A) (body : B -> M unit)
    (body' : A -> M unit) s :
  (forall a s, body (g a) s = body' a s) ->
  foreach (map g l) body s = foreach l body' s.
Proof.
  intros Hbody. revert s. induction l as [|a l IH]; intros s; [done|].
  cbn [foreach map]. unfold mbind, M_bind. rewrite Hbody.
  destruct (body' a s) as [[] s1| |]; [apply IH|done|done].
Qed.

(** The cameras of a document that has all its keys, with values that
    convert. *)
Lemma load_static_cameras_eq l s :
  foreach (map yaml_camera l) load_static_camera s =
    Ret tt
      (set_ceres_blocks
         (fun r => fold_left
                     (fun r n =>
                        Registry.addStaticCamera (static_camera_of n) r) l r)
         s).
Proof.
  rewrite (foreach_map yaml_camera l load_static_camera
             (fun n => update_blocks
                         (Registry.addStaticCamera (static_camera_of n))))
    by done.
  apply (foreach_update_blocks l
           (fun n => Registry.addStaticCamera (static_camera_of n))).
Qed.

Lemma load_moving_cameras_eq l s :
  foreach (map yaml_camera l) load_moving_camera s =
    Ret tt
      (set_ceres_blocks
         (fun r => fold_left
                     (fun r n =>
                        Registry.addMovingCamera (moving_camera_of n)
                          (CameraNode.scene_id n) r) l r)
         s).
Proof.
  rewrite (foreach_map yaml_camera l load_moving_camera
             (fun n => update_blocks
                         (Registry.addMovingCamera (moving_camera_of n)
                            (CameraNode.scene_id n))))
    by done.
  apply (foreach_update_blocks l
           (fun n => Registry.addMovingCamera (moving_camera_of n)
                       (CameraNode.scene_id n))).
Qed.

Lemma load_cameras_eq d s :
  load_cameras (yaml_cameras d) s
  = Ret tt (set_ceres_blocks (cameras_registry_after d) s).
Proof.
  unfold load_cameras, cameras_registry_after, yaml_cameras.
  destruct d as [[st|] [mv|]];
    cbn [static_cameras moving_cameras option_list fmap option_fmap
         option_map YamlDoc.static_cameras YamlDoc.moving_cameras].
  - rewrite (bind_Ret _ _ _ _ _ (load_static_cameras_eq st s)).
    by rewrite load_moving_cameras_eq.
  - rewrite (bind_Ret _ _ _ _ _ (load_static_cameras_eq st s)).
    done.
  - unfold mbind, M_bind. cbn.
    rewrite load_moving_cameras_eq.
    by destruct s.
  - by destruct s.
Qed.

(** Registering cameras keeps and extends the catalogue of cameras and
    leaves the catalogue of targets alone. *)
Lemma fold_addCamera_cameras {A} (l : list A) (cam : A -> Camera)
    (sc : A -> option Z) r :
  Registry.cameras r ⊆
    Registry.cameras
      (fold_left (fun r a => Registry.addCamera (cam a) (sc a) r) l r) /\
  Registry.targets
    (fold_left (fun r a => Registry.addCamera (cam a) (sc a) r) l r)
  = Registry.targets r /\
  forall a, a ∈ l ->
    is_Some (Registry.cameras
               (fold_left (fun r a => Registry.addCamera (cam a) (sc a) r) l r)
             !! camera_name_ (cam a)).
Proof.
  revert r. induction l as [|x l IH]; intros r.
  - split; [done|]. split; [done|]. intros a Ha.
    by apply not_elem_of_nil in Ha.
  - cbn [fold_left].
    destruct (IH (Registry.addCamera (cam x) (sc x) r)) as (Hsub & Ht & Hall).
    pose proof (RegistryFacts.grows_cameras _ _
                  (RegistryLemmas.addCamera_grows (cam x) (sc x) r)) as Hg.
    split; [by etrans|]. split.
    + rewrite Ht. apply RegistryLemmas.addCamera_targets.
    + intros a Ha. apply elem_of_cons in Ha as [->|Ha]; [|by apply Hall].
      destruct (RegistryLemmas.addCamera_cameras (cam x) (sc x) r) as [c Hc].
      exists c. by eapply lookup_weaken.
Qed.

Lemma cameras_registry_after_spec d r :
  Registry.targets (cameras_registry_after d r) = Registry.targets r /\
  forall name, name ∈ camera_names d ->
    is_Some (Registry.cameras (cameras_registry_after d r) !! name).
Proof.
  unfold cameras_registry_after, camera_names.
  set (r1 := fold_left _ (option_list (static_cameras d)) r).
  destruct (fold_addCamera_cameras (option_list (static_cameras d))
              static_camera_of (fun _ => None) r) as (_ & Ht1 & Hall1).
  destruct (fold_addCamera_cameras (option_list (moving_cameras d))
              moving_camera_of (fun n => Some (CameraNode.scene_id n)) r1)
    as (Hsub2 & Ht2 & Hall2).
  fold r1 in Ht1, Hall1.
  split.
  - unfold Registry.addMovingCamera. rewrite Ht2. exact Ht1.
  - intros name Hin. apply list_elem_of_fmap in Hin as (n & -> & Hn).
    apply elem_of_app in Hn as [Hn|Hn].
    + destruct (Hall1 n Hn) as [c Hc]. exists c.
      eapply lookup_weaken; [exact Hc|exact Hsub2].
    + exact (Hall2 n Hn).
Qed.

Lemma targets_loaded_refl s : targets_loaded [] s s.
Proof.
  split; try done. intros name Hin. by apply not_elem_of_nil in Hin.
Qed.

Lemma targets_loaded_trans n1 n2 s s' s'' :
  targets_loaded n1 s s' -> targets_loaded n2 s' s'' ->
  targets_loaded (n1 ++ n2) s s''.
Proof.
  intros [(P1 & P2 & P3 & P4) C1 L1 K1 N1] [(Q1 & Q2 & Q3 & Q4) C2 L2 K2 N2].
  split.
  - repeat split; congruence.
  - congruence.
  - eauto.
  - eauto.
  - intros name Hin. apply elem_of_app in Hin as [Hin|Hin]; [|eauto].
    destruct (N1 _ Hin) as [q Hq]. exists q. eauto.
Qed.

Lemma addTarget_cameras p t sc r :
  Registry.cameras (Registry.addTarget p t sc r) = Registry.cameras r.
Proof.
  unfold Registry.addTarget, Registry.ensure_points, Registry.ensure_pose.
  assert (forall name id l r0,
            Registry.cameras (Registry.add_points name id l r0)
            = Registry.cameras r0) as Hadd.
  { intros name id l. revert id.
    induction l as [|x l IH]; intros id r0; cbn; [done|]. by rewrite IH. }
  repeat match goal with |- context [match ?x with _ => _ end] =>
    destruct x; cbn end; rewrite ?Hadd; done.
Qed.

Lemma static_registry_cameras p nodes t r :
  Registry.cameras (static_registry_after p nodes t r) = Registry.cameras r.
Proof.
  revert t r. induction nodes as [|n nodes IH]; intros t r; [done|].
  cbn [static_registry_after]. rewrite IH. apply addTarget_cameras.
Qed.

Lemma moving_registry_cameras p nodes t r :
  Registry.cameras (moving_registry_after p nodes t r) = Registry.cameras r.
Proof.
  revert t r. induction nodes as [|n nodes IH]; intros t r; [done|].
  cbn [moving_registry_after]. rewrite IH. apply addTarget_cameras.
Qed.

Lemma catalogue_to_loaded nodes r' T s :
  catalogue_extended_with (length (target_store s)) (ceres_blocks_ s) r' ->
  Registry.cameras r' = Registry.cameras (ceres_blocks_ s) ->
  (forall n, n ∈ nodes ->
     is_Some (Registry.targets r' !! TargetNode.target_name n)) ->
  targets_loaded (map TargetNode.target_name nodes) s
    (set_ceres_blocks (fun _ => r') (set_target_store (.++ [T]) s)).
Proof.
  intros [Hkeep Hnew] Hcam Hall. split; cbn.
  - done.
  - done.
  - intros Hlive name q Hq. cbn in Hq |- *. rewrite length_app. cbn.
    destruct (Hnew _ _ Hq) as [Hold| ->]; [|lia].
    pose proof (Hlive _ _ Hold). lia.
  - done.
  - intros name Hin. apply list_elem_of_fmap in Hin as (n & -> & Hn). eauto.
Qed.

Lemma load_static_targets_loaded nodes s :
  exists s', load_static_targets (map yaml_target nodes) s = Ret tt s' /\
             targets_loaded (map TargetNode.target_name nodes) s s'.
Proof.
  eexists. split; [apply load_static_targets_eq|].
  destruct (static_registry_catalogue (length (target_store s)) nodes
              (set_is_moving false default_Target) (ceres_blocks_ s))
    as [Hc Hall].
  apply (catalogue_to_loaded nodes _ _ s Hc); [|done].
  apply static_registry_cameras.
Qed.

Lemma load_moving_targets_loaded nodes s :
  exists s', load_moving_targets (map yaml_target nodes) s = Ret tt s' /\
             targets_loaded (map TargetNode.target_name nodes) s s'.
Proof.
  eexists. split; [apply load_moving_targets_eq|].
  destruct (moving_registry_catalogue (length (target_store s)) nodes
              (set_is_moving true default_Target) (ceres_blocks_ s))
    as [Hc Hall].
  apply (catalogue_to_loaded nodes _ _ s Hc); [|done].
  apply moving_registry_cameras.
Qed.

Lemma load_targets_loaded d s :
  exists s', load_targets (yaml_targets d) s = Ret tt s' /\
             targets_loaded (target_names d) s s'.
Proof.
  unfold load_targets, target_names, yaml_targets. rewrite map_app.
  cbn [YamlDoc.static_targets YamlDoc.moving_targets].
  assert (exists s1,
    match map yaml_target <$> static_targets d with
    | Some target_parameters => load_static_targets target_parameters
    | None => mret tt
    end s = Ret tt s1 /\
    targets_loaded
      (map TargetNode.target_name (option_list (static_targets d))) s s1)
    as (s1 & Hrun1 & H1).
  { destruct (static_targets d) as [l|]; cbn.
    - apply load_static_targets_loaded.
    - exists s. split; [done|apply targets_loaded_refl]. }
  assert (exists s2,
    match map yaml_target <$> moving_targets d with
    | Some target_parameters => load_moving_targets target_parameters
    | None => mret tt
    end s1 = Ret tt s2 /\
    targets_loaded
      (map TargetNode.target_name (option_list (moving_targets d))) s1 s2)
    as (s2 & Hrun2 & H2).
  { destruct (moving_targets d) as [l|]; cbn.
    - apply load_moving_targets_loaded.
    - exists s1. split; [done|apply targets_loaded_refl]. }
  exists s2. split; [|by eapply targets_loaded_trans].
  by rewrite (bind_Ret _ _ _ _ _ Hrun1).
Qed.

Lemma lookup_block_eq {A} (f : Registry.CeresBlocks -> option A) st a :
  f (ceres_blocks_ st) = Some a -> lookup_block f st = Ret a st.
Proof.
  intros H. unfold lookup_block, mbind, M_bind, gets. by rewrite H.
Qed.

Lemma foreach_carry_inv {A B} (I : B -> State -> Prop) (l : list A)
    (body : B -> A -> M B) acc st :
  (forall a acc st, a ∈ l -> I acc st ->
     exists acc' st', body acc a st = Ret acc' st' /\ I acc' st') ->
  I acc st ->
  exists acc' st', foreach_carry l acc body st = Ret acc' st' /\ I acc' st'.
Proof.
  revert acc st. induction l as [|a l IH]; intros acc st Hbody HI.
  - by exists acc, st.
  - destruct (Hbody a acc st (list_elem_of_here _ _) HI)
      as (acc1 & st1 & Hrun & HI1).
    destruct (IH acc1 st1) as (acc2 & st2 & Hrest & HI2); [|done|].
    { intros a' acc' st' Hin. apply Hbody. by apply list_elem_of_further. }
    exists acc2, st2. split; [|done]. cbn.
    by rewrite (bind_Ret _ _ _ _ _ Hrun).
Qed.

Section Scenes.

Variable r : Registry.CeresBlocks.
Variable len : nat.
Variables cnames tnames : list string.

Hypothesis Hcams : forall name, name ∈ cnames ->
  is_Some (Registry.cameras r !! name).
Hypothesis Htargs : forall name, name ∈ tnames ->
  is_Some (Registry.targets r !! name).
Hypothesis Hlive : forall name q,
  Registry.targets r !! name = Some q -> (q < len)%nat.

Lemma load_observation_ok i temp_targ n st :
  ObsNode.camera n ∈ cnames -> ObsNode.target n ∈ tnames ->
  scene_inv r len temp_targ st ->
  exists q st', load_observation i temp_targ (yaml_obs n) st = Ret q st' /\
                scene_inv r len q st'.
Proof.
  intros Hc Ht (Hr & Hlen & Htarg).
  destruct (Hcams _ Hc) as [cam Hcam].
  destruct (Htargs _ Ht) as [q Hq].
  destruct (lookup_lt_is_Some_2 (target_store st) temp_targ) as [t Hst];
    [lia|].
  unfold load_observation, yaml_obs.
  erewrite bind_Ret; [|reflexivity].
  erewrite bind_Ret;
    [|apply lookup_block_eq; unfold Registry.getCameraByName;
      rewrite Hr; exact Hcam].
  erewrite bind_Ret; [|reflexivity].
  do 4 (erewrite bind_Ret; [|reflexivity]).
  erewrite bind_Ret; [|apply extract_into_eq; exact Hst].
  erewrite bind_Ret; [|apply deref_write; cbn; lia].
  erewrite bind_Ret;
    [|apply lookup_block_eq; unfold Registry.getTargetByName; cbn;
      rewrite Hr; exact Hq].
  erewrite bind_Ret; [|reflexivity].
  do 2 eexists. split; [reflexivity|].
  split; [done|]. split; [|by eapply Hlive].
  cbn. by rewrite length_insert.
Qed.

Lemma load_scene_ok temp_targ i sn st :
  (forall on, on ∈ SceneNode.observations sn ->
     ObsNode.camera on ∈ cnames /\ ObsNode.target on ∈ tnames) ->
  scene_inv r len temp_targ st ->
  exists q st', load_scene temp_targ (i, yaml_scene sn) st = Ret q st' /\
                scene_inv r len q st'.
Proof.
  intros Hobs Hinv. unfold load_scene, yaml_scene.
  do 5 (erewrite bind_Ret; [|reflexivity]).
  apply (foreach_carry_inv (scene_inv r len)); [|done].
  intros on acc st' Hin Hacc.
  apply list_elem_of_fmap in Hin as (on' & -> & Hin).
  destruct (Hobs on' Hin). by apply load_observation_ok.
Qed.

Lemma load_scenes_ok temp_targ jd st :
  (forall sn on, sn ∈ option_list (scenes jd) ->
     on ∈ SceneNode.observations sn ->
     ObsNode.camera on ∈ cnames /\ ObsNode.target on ∈ tnames) ->
  scene_inv r len temp_targ st ->
  exists st', load_scenes temp_targ (yaml_caljob jd) st = Ret tt st'.
Proof.
  intros Hres Hinv. unfold load_scenes, yaml_caljob.
  do 2 (erewrite bind_Ret; [|reflexivity]).
  cbn [YamlDoc.scenes].
  destruct (scenes jd) as [l|]; [|by eexists].
  cbn [fmap option_fmap option_map].
  erewrite bind_Ret; [|reflexivity].
  destruct (foreach_carry_inv (scene_inv r len)
              (zip (seq 0 (length (map yaml_scene l))) (map yaml_scene l))
              load_scene temp_targ
              (set_scene_list
                 (resize (length (map yaml_scene l)) default_scene) st))
    as (q & st' & Hrun & _).
  - intros [i y] acc st0 Hin Hacc.
    apply elem_of_zip_r, list_elem_of_fmap in Hin as (sn & -> & Hin).
    apply load_scene_ok; [|done].
    intros on Hon. by apply (Hres sn on).
  - done.
  - exists st'. by rewrite (bind_Ret _ _ _ _ _ Hrun).
Qed.

End Scenes.

Lemma load_after_cameras cd t j s :
  fail t = false -> fail j = false ->
  load (mkFiles (Document (yaml_cameras cd)) t j) s =
    (match GetNextDocument t with
     | None => mret false
     | Some target_doc =>
         load_targets target_doc;;
         temp_targ ← make_shared_Target;
         match GetNextDocument j with
         | None => mret false
         | Some caljob_doc => load_scenes temp_targ caljob_doc;; mret true
         end
     end) (set_ceres_blocks (cameras_registry_after cd) s).
Proof.
  intros Ht Hj. unfold load. cbn [camera_input_file target_input_file
    caljob_input_file fail GetNextDocument]. rewrite Ht, Hj.
  by rewrite (bind_Ret _ _ _ _ _ (load_cameras_eq cd s)).
Qed.

Lemma cameras_registry_after_keeps d r :
  Registry.cameras r ⊆ Registry.cameras (cameras_registry_after d r).
Proof.
  unfold cameras_registry_after.
  destruct (fold_addCamera_cameras (option_list (static_cameras d))
              static_camera_of (fun _ => None) r) as (Hsub1 & _ & _).
  destruct (fold_addCamera_cameras (option_list (moving_cameras d))
              moving_camera_of (fun n => Some (CameraNode.scene_id n))
              (fold_left
                 (fun r n => Registry.addStaticCamera (static_camera_of n) r)
                 (option_list (static_cameras d)) r)) as (Hsub2 & _ & _).
  etrans; [exact Hsub1|exact Hsub2].
Qed.

(** An extraction that throws while the cameras are read. *)
Lemma load_static_camera_run n s :
  if static_camera_throws n
  then load_static_camera n s = Raise RepresentationException
  else exists c, load_static_camera n s
                 = Ret tt (set_ceres_blocks (Registry.addStaticCamera c) s).
Proof.
  destruct n as [a1 a2 a3 a4 a5 a6 a7 a8 a9 a10 a11 a12 a13 a14 a15 a16 a17
                 a18].
  unfold static_camera_throws, load_static_camera. cbn.
  destruct a1; [|done]. destruct a2; [|done]. destruct a3; [|done].
  destruct a4; [|done]. destruct a5; [|done]. destruct a6; [|done].
  destruct a7; [|done]. destruct a8; [|done]. destruct a9; [|done].
  destruct a10; [|done]. destruct a11; [|done]. destruct a12; [|done].
  destruct a13; [|done]. destruct a14; [|done]. destruct a15; [|done].
  destruct a16; [|done]. destruct a17; [|done].
  cbn. by eexists.
Qed.

Lemma load_moving_camera_run n s :
  if moving_camera_throws n
  then load_moving_camera n s = Raise RepresentationException
  else exists c id,
         load_moving_camera n s
         = Ret tt (set_ceres_blocks (Registry.addMovingCamera c id) s).
Proof.
  destruct n as [a1 a2 a3 a4 a5 a6 a7 a8 a9 a10 a11 a12 a13 a14 a15 a16 a17
                 a18].
  unfold moving_camera_throws, static_camera_throws, load_moving_camera. cbn.
  destruct a1; [|done]. destruct a2; [|done]. destruct a3; [|done].
  destruct a4; [|done]. destruct a5; [|done]. destruct a6; [|done].
  destruct a7; [|done]. destruct a8; [|done]. destruct a9; [|done].
  destruct a10; [|done]. destruct a11; [|done]. destruct a12; [|done].
  destruct a13; [|done]. destruct a14; [|done]. destruct a15; [|done].
  destruct a16; [|done]. destruct a17; [|done]. destruct a18; [|done].
  cbn. by do 2 eexists.
Qed.

Lemma foreach_cameras_run (throwing : YamlCamera.t -> bool)
    (body : YamlCamera.t -> M unit) l s :
  (forall n s, if throwing n
               then body n s = Raise RepresentationException
               else exists f, body n s = Ret tt (set_ceres_blocks f s)) ->
  if existsb throwing l
  then foreach l body s = Raise RepresentationException
  else exists f, foreach l body s = Ret tt (set_ceres_blocks f s).
Proof.
  intros Hbody. revert s. induction l as [|n l IH]; intros s.
  - cbn. exists id. by destruct s.
  - cbn [existsb foreach]. specialize (Hbody n s).
    destruct (throwing n); cbn.
    + by rewrite (bind_Raise _ _ _ _ Hbody).
    + destruct Hbody as [f Hf]. rewrite (bind_Ret _ _ _ _ _ Hf).
      specialize (IH (set_ceres_blocks f s)).
      destruct (existsb throwing l); [done|].
      destruct IH as [g Hg]. exists (g ∘ f). by rewrite Hg.
Qed.

Lemma load_cameras_throws d s :
  cameras_throw d = true ->
  load_cameras d s = Raise RepresentationException.
Proof.
  unfold cameras_throw, load_cameras. intros Hthrow.
  assert (forall n s,
            if static_camera_throws n
            then load_static_camera n s = Raise RepresentationException
            else exists f, load_static_camera n s
                           = Ret tt (set_ceres_blocks f s)) as Hst.
  { intros n s0. pose proof (load_static_camera_run n s0) as H.
    destruct (static_camera_throws n); [done|].
    destruct H as [c Hc]. by eexists. }
  assert (forall n s,
            if moving_camera_throws n
            then load_moving_camera n s = Raise RepresentationException
            else exists f, load_moving_camera n s
                           = Ret tt (set_ceres_blocks f s)) as Hmv.
  { intros n s0. pose proof (load_moving_camera_run n s0) as H.
    destruct (moving_camera_throws n); [done|].
    destruct H as (c & id & Hc). by eexists. }
  pose proof (foreach_cameras_run _ _
                (option_list (YamlDoc.static_cameras d)) s Hst) as H1.
  destruct (existsb static_camera_throws
              (option_list (YamlDoc.static_cameras d))) eqn:E1.
  - destruct (YamlDoc.static_cameras d) as [l|]; [|done].
    cbn in H1. by rewrite (bind_Raise _ _ _ _ H1).
  - cbn in Hthrow. destruct H1 as [f Hf].
    assert (exists s1,
              match YamlDoc.static_cameras d with
              | Some camera_parameters =>
                  foreach camera_parameters load_static_camera
              | None => mret tt
              end s = Ret tt s1) as [s1 Hs1].
    { destruct (YamlDoc.static_cameras d) as [l|]; [|by eexists].
      cbn in Hf. by eexists. }
    rewrite (bind_Ret _ _ _ _ _ Hs1).
    pose proof (foreach_cameras_run _ _
                  (option_list (YamlDoc.moving_cameras d)) s1 Hmv) as H2.
    rewrite Hthrow in H2.
    destruct (YamlDoc.moving_cameras d) as [l|]; [|done].
    exact H2.
Qed.

(** When the three sources yield documents, [load] does not return
    [false]. *)
Lemma load_documents cd td jd s b s' :
  load (mkFiles (Document cd) (Document td) (Document jd)) s = Ret b s' ->
  b = true.
Proof.
  unfold load. cbn [camera_input_file target_input_file caljob_input_file
    fail GetNextDocument]. intros H.
  apply bind_Ret_inv in H as ([] & s1 & _ & H).
  apply bind_Ret_inv in H as ([] & s2 & _ & H).
  apply bind_Ret_inv in H as (p & s3 & _ & H).
  apply bind_Ret_inv in H as ([] & s4 & _ & H).
  by injection H as <- _.
Qed.

End LoadOutcome.

(** C7, as the source has it.  [load] returns [false] without reading
    anything when one of the three streams cannot be opened, and the job is
    then as before.  When all three open, the documents are read in the
    order cameras, targets, job, and [load] returns [false] at the first
    source that the parser rejects, the documents before it having all their
    keys, with values that convert.  The job is as before when that is the
    camera source.  When it is the target source, the job is as before
    except that the cameras of the camera document are registered.  When it
    is the job source, the cameras and the targets of the two documents are
    registered; the scenes, the data points, the problem and the history are
    as before.  In both cases what was catalogued before stays catalogued.
    When all three sources yield documents that have all their keys, with
    values that convert, the catalogue refers to live targets and every
    camera and target that a scene names is defined in the camera and
    target documents, [load] returns [true].  [load] returns [false] in no
    other case than a stream that cannot be opened or a source that the
    parser rejects; in particular, when all three streams open and an
    extraction from the camera document throws (a key that is absent, a
    scalar that does not convert), [load] ends by that exception, which no
    [catch] clause of [load] names, whatever the other two sources hold. *)
Theorem load_outcomes (files : Files) (s : State) :
  (cannot_open files = true -> load files s = Ret false s) /\
  (cannot_open files = false ->
   rejected (camera_input_file files) = true ->
   load files s = Ret false s) /\
  (forall cd,
     cannot_open files = false ->
     camera_input_file files = Document (yaml_cameras cd) ->
     rejected (target_input_file files) = true ->
     load files s
       = Ret false (set_ceres_blocks (cameras_registry_after cd) s) /\
     Registry.cameras (ceres_blocks_ s)
       ⊆ Registry.cameras (cameras_registry_after cd (ceres_blocks_ s)) /\
     forall name, name ∈ camera_names cd ->
       is_Some (Registry.getCameraByName name
                  (cameras_registry_after cd (ceres_blocks_ s)))) /\
  (forall cd td,
     cannot_open files = false ->
     camera_input_file files = Document (yaml_cameras cd) ->
     target_input_file files = Document (yaml_targets td) ->
     rejected (caljob_input_file files) = true ->
     exists s',
       load files s = Ret false s' /\
       plan_untouched s s' /\
       Registry.cameras (ceres_blocks_ s)
         ⊆ Registry.cameras (ceres_blocks_ s') /\
       (forall name q,
          Registry.targets (ceres_blocks_ s) !! name = Some q ->
          Registry.targets (ceres_blocks_ s') !! name = Some q) /\
       (forall name, name ∈ camera_names cd ->
          is_Some (Registry.getCameraByName name (ceres_blocks_ s'))) /\
       (forall name, name ∈ target_names td ->
          is_Some (Registry.getTargetByName name (ceres_blocks_ s')))) /\
  (forall cd td jd,
     files = mkFiles (Document (yaml_cameras cd)) (Document (yaml_targets td))
               (Document (yaml_caljob jd)) ->
     catalogue_live s -> names_resolve cd td jd ->
     exists s', load files s = Ret true s') /\
  (forall s',
     load files s = Ret false s' ->
     cannot_open files = true \/
     rejected (camera_input_file files) || rejected (target_input_file files)
     || rejected (caljob_input_file files) = true) /\
  (forall d,
     cannot_open files = false ->
     camera_input_file files = Document d ->
     cameras_throw d = true ->
     load files s = Raise RepresentationException).
Proof.
  destruct files as [c t j].
  split; [|split; [|split; [|split; [|split; [|split]]]]].
  - unfold cannot_open, load. cbn.
    destruct c; cbn; [done|..]; (destruct t; cbn; [done|..]);
      (destruct j; cbn; done).
  - unfold cannot_open. cbn -[load].
    destruct c as [| |cd]; cbn -[load]; [done| |done].
    intros Hopen _. unfold load. cbn. by destruct t, j.
  - intros cd. unfold cannot_open. cbn -[load].
    intros Hopen -> Hrej. cbn in Hopen.
    destruct t as [| |td]; [done| |done].
    destruct j as [| |jd]; [done|..];
      (split; [by rewrite LoadOutcome.load_after_cameras|]);
      (split; [apply LoadOutcome.cameras_registry_after_keeps|]);
      apply LoadOutcome.cameras_registry_after_spec.
  - intros cd td. unfold cannot_open. cbn -[load].
    intros Hopen -> -> Hrej. cbn in Hopen.
    destruct j as [| |jd]; [done| |done].
    destruct (LoadOutcome.load_targets_loaded td
                (set_ceres_blocks (cameras_registry_after cd) s))
      as (s2 & Hrun & [Hplan Hcam Hlive Hkeep Hnames]).
    destruct (LoadOutcome.cameras_registry_after_spec cd (ceres_blocks_ s))
      as [Htargets Hcams].
    eexists. split.
    { rewrite LoadOutcome.load_after_cameras by done.
      cbn [GetNextDocument].
      rewrite (MonadLemmas.bind_Ret _ _ _ _ _ Hrun). reflexivity. }
    cbn. destruct Hplan as (P1 & P2 & P3 & P4). cbn in P1, P2, P3, P4.
    split; [by repeat split|].
    split; [rewrite Hcam; apply LoadOutcome.cameras_registry_after_keeps|].
    split.
    { intros name q Hq. apply Hkeep. cbn. by rewrite Htargets. }
    split; [|exact Hnames].
    intros name Hin. unfold Registry.getCameraByName. rewrite Hcam.
    by apply Hcams.
  - intros cd td jd [= -> -> ->] Hlive Hres.
    destruct (LoadOutcome.cameras_registry_after_spec cd (ceres_blocks_ s))
      as [Htargets Hcams].
    destruct (LoadOutcome.load_targets_loaded td
                (set_ceres_blocks (cameras_registry_after cd) s))
      as (s2 & Hrun & [_ Hcam2 Hlive2 _ Hnames2]).
    destruct (LoadOutcome.load_scenes_ok (ceres_blocks_ s2)
                (length (target_store s2 ++ [default_Target]))
                (camera_names cd) (target_names td))
      with (temp_targ := length (target_store s2)) (jd := jd)
           (st := set_target_store (.++ [default_Target]) s2)
      as [s' Hscenes].
    + intros name Hin. rewrite Hcam2. by apply Hcams.
    + exact Hnames2.
    + intros name q Hq. rewrite length_app. cbn.
      assert (catalogue_live s2) as Hl.
      { apply Hlive2. intros n0 q0. cbn. rewrite Htargets. apply Hlive. }
      pose proof (Hl _ _ Hq). lia.
    + exact Hres.
    + split; [done|]. split; [done|]. rewrite length_app. cbn. lia.
    + exists s'.
      rewrite LoadOutcome.load_after_cameras by done.
      cbn [GetNextDocument].
      rewrite (MonadLemmas.bind_Ret _ _ _ _ _ Hrun).
      unfold mbind at 1, M_bind at 1. cbn [make_shared_Target].
      rewrite LoadLemmas.make_shared_Target_eq.
      by rewrite (MonadLemmas.bind_Ret _ _ _ _ _ Hscenes).
  - intros s' Hrun. unfold cannot_open. cbn -[load] in *.
    destruct c as [| |cd]; cbn; [by left|by right|].
    destruct t as [| |td]; cbn; [by left|by right|].
    destruct j as [| |jd]; cbn; [by left|by right|].
    by apply LoadOutcome.load_documents in Hrun.
  - intros d. unfold cannot_open. cbn -[load].
    intros Hopen -> Hthrows. cbn in Hopen.
    destruct t as [| |td]; [done|..]; (destruct j as [| |jd]; [done|..]);
      unfold load;
      cbn [camera_input_file target_input_file caljob_input_file fail
           GetNextDocument];
      by rewrite (MonadLemmas.bind_Raise _ _ _ _
                    (LoadOutcome.load_cameras_throws d s Hthrows)).
Qed.

(** The theorem at a target source that the parser rejects, at three
    sources that open and parse, and at a camera document in which the key
    [center_x] of the second camera is absent. *)
Lemma load_outcomes_witness :
  (load Examples.files_target_rejected Examples.empty_job
     = Ret false
         (set_ceres_blocks (cameras_registry_after Examples.cameras_ok)
            Examples.empty_job) /\
   Registry.cameras (ceres_blocks_ Examples.empty_job)
     ⊆ Registry.cameras
         (cameras_registry_after Examples.cameras_ok
            (ceres_blocks_ Examples.empty_job)) /\
   forall name, name ∈ camera_names Examples.cameras_ok ->
     is_Some (Registry.getCameraByName name
                (cameras_registry_after Examples.cameras_ok
                   (ceres_blocks_ Examples.empty_job)))) /\
  (exists s', load Examples.files_ok Examples.empty_job = Ret true s') /\
  load MoreExamples.files_missing_key Examples.empty_job
    = Raise RepresentationException.
Proof.
  split; [|split].
  - apply (proj1 (proj2 (proj2 (load_outcomes Examples.files_target_rejected
                                  Examples.empty_job))));
      reflexivity.
  - apply (proj1 (proj2 (proj2 (proj2 (proj2
             (load_outcomes Examples.files_ok Examples.empty_job)))))
             _ _ _ eq_refl).
    + intros name q H. cbn in H. by rewrite lookup_empty in H.
    + intros sn on Hsn Hon. cbn in Hsn.
      apply list_elem_of_singleton in Hsn as ->. cbn in Hon.
      apply list_elem_of_singleton in Hon as ->. cbn.
      split; apply list_elem_of_here.
  - apply (proj2 (proj2 (proj2 (proj2 (proj2 (proj2
             (load_outcomes MoreExamples.files_missing_key
                Examples.empty_job)))))) MoreExamples.cameras_missing_key);
      reflexivity.
Defined.

(** The claim as the spec states it fails: the camera document defines
    [camA], the parser rejects the target source; [load] returns [false],
    but the job is not as it was, [camA] is registered. *)
Lemma failed_load_is_not_left_unloaded :
  ~ left_unloaded Examples.files_target_rejected Examples.empty_job.
Proof.
  unfold left_unloaded. intros H.
  apply (f_equal (fun o =>
           match o with
           | Ret _ s => Registry.cameras (ceres_blocks_ s) !! "camA"
           | _ => None
           end)) in H.
  vm_compute in H. discriminate.
Qed.


(** A scene that names a camera no document defines: all three sources
    open and parse, and [load] ends in the NotFound condition of the
    registry instead of returning. *)
Lemma load_unknown_camera :
  load Examples.files_unknown_camera Examples.empty_job
  = Raise NotFoundError.
Proof. vm_compute. reflexivity. Qed.

(** A target node without the key [points], and a scene without the key
    [observations]: all three sources open and parse, and [load] ends by
    dereferencing the null result of [FindValue]. *)
Lemma load_missing_points :
  load MoreExamples.files_missing_points Examples.empty_job
  = Raise BadPointer.
Proof. vm_compute. reflexivity. Qed.

Lemma load_missing_observations :
  load MoreExamples.files_missing_observations Examples.empty_job
  = Raise BadPointer.
Proof. vm_compute. reflexivity. Qed.

(** A job document without the key [reference_frame]: the exception of the
    extraction ends [load] after the cameras and the targets were read. *)
Lemma load_missing_reference_frame :
  load MoreExamples.files_missing_reference_frame Examples.empty_job
  = Raise RepresentationException.
Proof. vm_compute. reflexivity. Qed.

(** * Further properties *)

(** ** [runOptimization]: what it changes *)

Module AssemblerFrame.
Import MonadLemmas AssemblerLemmas.

Lemma read_block_run b i s :
  read_block b i s =
    match block_at (ceres_blocks_ s) b i with
    | Some v => Ret v s
    | None => Raise BadPointer
    end.
Proof.
  unfold read_block, mbind, M_bind, gets, from_option.
  by destruct (block_at (ceres_blocks_ s) b i).
Qed.

Lemma add_residual_run odp s :
  add_residual odp s =
    match residual_for (ceres_blocks_ s) odp with
    | Some rb => Ret tt (set_problem (.++ [rb]) s)
    | None => Raise BadPointer
    end.
Proof.
  unfold add_residual, residual_for.
  repeat (unfold mbind at 1, M_bind at 1; rewrite read_block_run;
          match goal with
          | |- context [block_at ?r ?b ?i] =>
              destruct (block_at r b i); cbn; [|reflexivity]
          end).
  reflexivity.
Qed.

Lemma foreach_add_residual_run l s :
  foreach l add_residual s =
    match mapM (residual_for (ceres_blocks_ s)) l with
    | Some rbs => Ret tt (set_problem (.++ rbs) s)
    | None => Raise BadPointer
    end.
Proof.
  revert s. induction l as [|odp l IH]; intros s.
  - cbn. by rewrite set_problem_nil.
  - cbn [foreach mapM]. unfold mbind at 1, M_bind at 1.
    rewrite add_residual_run.
    destruct (residual_for (ceres_blocks_ s) odp) as [rb|]; cbn; [|done].
    rewrite IH. cbn.
    destruct (mapM (residual_for (ceres_blocks_ s)) l) as [rbs|]; cbn;
      [|done].
    by rewrite set_problem_app.
Qed.

Lemma runOptimization_run s :
  runOptimization s =
    match mapM (residual_for (ceres_blocks_ s))
            (observation_data_point_list s) with
    | Some rbs => Ret true (set_problem (.++ rbs) s)
    | None => Raise BadPointer
    end.
Proof.
  unfold runOptimization, mbind, M_bind, gets.
  destruct (observation_data_point_list s) as [|odp l] eqn:E.
  - cbn. by rewrite set_problem_nil.
  - cbn [foreach_return]. unfold mbind, M_bind. rewrite E.
    rewrite foreach_add_residual_run.
    by destruct (mapM _ _).
Qed.

End AssemblerFrame.

(** X1.  When [runOptimization] returns, the only thing it has changed is
    the problem, which received as many residuals as there are data points:
    the registry, the scenes, the target objects, the history and the list
    of data points itself are as before.  The data points are not
    consumed. *)
Theorem runOptimization_only_extends_problem (s s' : State) (b : bool) :
  runOptimization s = Ret b s' ->
  exists rbs,
    s' = set_problem (.++ rbs) s /\
    length rbs = length (observation_data_point_list s).
Proof.
  rewrite AssemblerFrame.runOptimization_run.
  destruct (mapM _ _) as [rbs|] eqn:E; [|done].
  intros [= _ <-]. exists rbs. split; [done|].
  symmetry. by eapply length_mapM.
Qed.

Lemma runOptimization_only_extends_problem_witness :
  exists s',
    runOptimization Examples.job_collected = Ret true s' /\
    exists rbs,
      s' = set_problem (.++ rbs) Examples.job_collected /\
      length rbs = length (observation_data_point_list Examples.job_collected).
Proof.
  eexists. split.
  - vm_compute. reflexivity.
  - apply (runOptimization_only_extends_problem Examples.job_collected _
             true).
    vm_compute. reflexivity.
Defined.

(** X2.  [runOptimization] is not idempotent.  The problem is a member of
    the job and the data points stay in their list, so a second call that
    follows a first one submits the same residuals once more: every
    observation is then weighted twice. *)
Theorem runOptimization_twice_duplicates (s s1 : State) (b : bool) :
  runOptimization s = Ret b s1 ->
  exists rbs s2,
    problem_ s1 = problem_ s ++ rbs /\
    runOptimization s1 = Ret true s2 /\
    problem_ s2 = problem_ s ++ rbs ++ rbs.
Proof.
  rewrite AssemblerFrame.runOptimization_run.
  destruct (mapM _ _) as [rbs|] eqn:E; [|done].
  intros [= _ <-]. exists rbs. eexists. split; [done|].
  rewrite AssemblerFrame.runOptimization_run. cbn. rewrite E.
  split; [reflexivity|]. cbn. by rewrite <- app_assoc.
Qed.

Lemma runOptimization_twice_duplicates_witness :
  exists s1,
    runOptimization Examples.job_collected = Ret true s1 /\
    exists rbs s2,
      problem_ s1 = problem_ Examples.job_collected ++ rbs /\
      runOptimization s1 = Ret true s2 /\
      problem_ s2 = problem_ Examples.job_collected ++ rbs ++ rbs.
Proof.
  eexists. split.
  - vm_compute. reflexivity.
  - apply (runOptimization_twice_duplicates Examples.job_collected _ true).
    vm_compute. reflexivity.
Defined.

(** ** [runObservations]: what it collects and what it keeps *)

Module CollectorFrame.
Import MonadLemmas.

Lemma set_events_app a b s :
  set_events (.++ b) (set_events (.++ a) s) = set_events (.++ a ++ b) s.
Proof. unfold set_events. cbn. by rewrite <- app_assoc. Qed.

Lemma set_events_nil s : set_events (.++ []) s = s.
Proof. destruct s. unfold set_events. cbn. by rewrite app_nil_r. Qed.

Lemma raw_app h1 h2 :
  raw_observations (h1 ++ h2) = raw_observations h1 ++ raw_observations h2.
Proof. unfold raw_observations. apply bind_app. Qed.

Lemma raw_polls o k : raw_observations (polls o k) = [].
Proof. induction k as [|k IH]; [done|]. exact IH. Qed.

Lemma collected_refl Q P s : collected Q P s s.
Proof.
  split; try done. exists [], []. rewrite !app_nil_r. by repeat split.
Qed.

Lemma collected_trans Q P s s' s'' :
  collected Q P s s' -> collected Q P s' s'' -> collected Q P s s''.
Proof.
  intros [A1 B1 C1 (h1 & n1 & He1 & Hi1 & Hq1 & Hm1 & Hp1)]
         [A2 B2 C2 (h2 & n2 & He2 & Hi2 & Hq2 & Hm2 & Hp2)].
  split; [congruence..|].
  exists (h1 ++ h2), (n1 ++ n2).
  rewrite He2, He1, Hi2, Hi1, <- !app_assoc.
  split; [done|]. split; [done|]. split; [by apply Forall_app|].
  split; [|by apply Forall_app].
  rewrite raw_app. apply Forall2_app; [done|]. by rewrite <- C1.
Qed.

Lemma collected_weaken (Q Q' : Event -> Prop)
    (P P' : ObservationDataPoint -> Prop) s s' :
  (forall e, Q e -> Q' e) -> (forall o, P o -> P' o) ->
  collected Q P s s' -> collected Q' P' s s'.
Proof.
  intros HQ HP [A B C (h & n & He & Hi & Hq & Hm & Hp)].
  split; try done. exists h, n. repeat split; try done.
  - eapply Forall_impl; eauto.
  - eapply Forall_impl; eauto.
Qed.

Lemma foreach_collected {A} Q (P : A -> ObservationDataPoint -> Prop)
    (P' : ObservationDataPoint -> Prop) (l : list A) (body : A -> M unit)
    s u s' :
  (forall a s1 s2, a ∈ l -> body a s1 = Ret tt s2 ->
     collected Q (P a) s1 s2) ->
  (forall a o, a ∈ l -> P a o -> P' o) ->
  foreach l body s = Ret u s' -> collected Q P' s s'.
Proof.
  revert s. induction l as [|a l IH]; intros s Hbody HP Hrun.
  - injection Hrun as _ <-. apply collected_refl.
  - cbn in Hrun. apply bind_Ret_inv in Hrun as ([] & s1 & Ha & Hrest).
    eapply collected_trans.
    + eapply collected_weaken; [| |apply (Hbody a); [apply list_elem_of_here|done]].
      * done.
      * intros o. apply HP, list_elem_of_here.
    + apply (IH s1); [| |done].
      * intros a' s2 s3 Hin. apply Hbody. by apply list_elem_of_further.
      * intros a' o Hin. apply HP. by apply list_elem_of_further.
Qed.

(** The wait ends after some polls answered false and one answered true. *)
Lemma wait_inv world fuel camera s u s' :
  wait_observationsDone world fuel camera s = Ret u s' ->
  exists o k,
    camera_observer_ camera = Some o /\
    s' = set_events (.++ polls o k ++ [EvObservationsDone o true]) s.
Proof.
  revert s. induction fuel as [|fuel IH]; intros s Hrun; [done|].
  cbn in Hrun. apply bind_Ret_inv in Hrun as (b & s1 & Hpoll & Hrest).
  destruct (camera_observer_ camera) as [o|] eqn:Ho.
  - rewrite (WaitLemmas.observationsDone_eq world camera o s Ho) in Hpoll.
    injection Hpoll as <- <-.
    destruct (observationsDone_answer world (events s) o).
    + injection Hrest as _ <-. by exists o, 0%nat.
    + apply IH in Hrest as (o' & k & Ho' & ->).
      injection Ho' as <-.
      exists o, (S k). split; [done|].
      by rewrite set_events_app.
  - unfold observationsDone, observer_of, mbind, M_bind in Hpoll.
    by rewrite Ho in Hpoll.
Qed.

Lemma getObservations_inv world camera s obs s' :
  getObservations world camera s = Ret obs s' ->
  exists o,
    camera_observer_ camera = Some o /\
    s' = set_events (.++ [EvGetObservations o obs]) s.
Proof.
  unfold getObservations. intros Hrun.
  apply bind_Ret_inv in Hrun as (o & s1 & Ho & Hrun).
  unfold observer_of in Ho.
  destruct (camera_observer_ camera) as [o'|]; [|done].
  injection Ho as <- <-. cbn in Hrun. injection Hrun as <- <-.
  by exists o'.
Qed.

Lemma camera_blocks_inv camera scene_id s r s' :
  camera_blocks camera scene_id s = Ret r s' ->
  s' = set_ceres_blocks
         (Registry.addCamera camera (scene_key (isMoving camera) scene_id)) s.
Proof.
  destruct (CollectorLemmas.camera_blocks_eq camera scene_id s)
    as (i & e & _ & _ & Heq).
  rewrite Heq. by intros [= _ <-].
Qed.

(** One data point is appended, made from the observation. *)
Lemma process_observation_inv scene_id name i e obs s u s' :
  process_observation scene_id name i e obs s = Ret u s' ->
  exists t pose pt f,
    target_store s !! obs_target obs = Some t /\
    s' = set_items
           (.++ [mkODP name (target_name t) scene_id i e (point_id obs)
                   pose pt (image_loc_x obs) (image_loc_y obs)])
           (set_ceres_blocks f s).
Proof.
  unfold process_observation. intros Hrun.
  apply bind_Ret_inv in Hrun as (t & s0 & Ht & Hrun).
  unfold deref, mbind, M_bind, gets, from_option in Ht. cbn in Ht.
  destruct (target_store s !! obs_target obs) as [t'|] eqn:Et; [|done].
  injection Ht as <- <-.
  apply bind_Ret_inv in Hrun as ([pose pt] & s1 & Hblocks & Hrun).
  apply CollectorInvariant.target_blocks_inv in Hblocks
    as (t2 & Ht2 & -> & Hpt).
  injection Hrun as <- <-.
  exists t', pose, pt. eexists. split; [done|]. reflexivity.
Qed.

Lemma foreach_observation_inv scene_id camera i e l s u s' :
  foreach l (process_observation scene_id (camera_name_ camera) i e) s
    = Ret u s' ->
  scene_list_ s' = scene_list_ s /\ problem_ s' = problem_ s /\
  target_store s' = target_store s /\ events s' = events s /\
  exists new,
    observation_data_point_list s' = observation_data_point_list s ++ new /\
    Forall2 (mirrors (target_store s)) new l /\
    Forall (made_for scene_id camera) new.
Proof.
  revert s. induction l as [|obs l IH]; intros s Hrun.
  - injection Hrun as _ <-. repeat split; try done.
    exists []. by rewrite app_nil_r.
  - cbn [foreach] in Hrun.
    apply bind_Ret_inv in Hrun as ([] & s1 & Hobs & Hrest).
    apply process_observation_inv in Hobs as (t & pose & pt & f & Ht & ->).
    apply IH in Hrest as (A & B & C & D & new & Hi & Hm & Hp).
    cbn in A, B, C, D, Hi, Hm.
    repeat split; try done.
    eexists (_ :: new). rewrite Hi, <- app_assoc. split; [reflexivity|].
    split; constructor; try done.
    repeat split; try done. by exists t.
Qed.

Lemma process_camera_collected world fuel scene_id camera s u s' :
  process_camera world fuel scene_id camera s = Ret u s' ->
  collected is_collection_event (made_for scene_id camera) s s'.
Proof.
  unfold process_camera. intros Hrun.
  apply bind_Ret_inv in Hrun as ([] & s1 & Hwait & Hrun).
  apply bind_Ret_inv in Hrun as ([i e] & s2 & Hblocks & Hrun).
  apply bind_Ret_inv in Hrun as (obs & s3 & Hget & Hrun).
  apply wait_inv in Hwait as (o & k & Ho & ->).
  apply camera_blocks_inv in Hblocks as ->.
  apply getObservations_inv in Hget as (o' & Ho' & ->).
  apply foreach_observation_inv in Hrun as (A & B & C & D & new & Hi & Hm & Hp).
  cbn in A, B, C, D, Hi, Hm.
  split; try done.
  eexists. exists new. split; [by rewrite D, <- app_assoc|].
  split; [done|]. split.
  - apply Forall_app. split; [apply Forall_app; split|].
    + unfold polls. by apply Forall_replicate.
    + by repeat constructor.
    + by repeat constructor.
  - split; [|done]. rewrite !raw_app, raw_polls. cbn.
    by rewrite app_nil_r.
Qed.

Lemma observer_emit_observer c (ev : CameraObserver -> Event) s u s' :
  (observer_of c ≫= fun o => emit (ev o)) s = Ret u s' ->
  exists o, camera_observer_ c = Some o /\ s' = set_events (.++ [ev o]) s.
Proof.
  unfold observer_of, mbind, M_bind.
  destruct (camera_observer_ c) as [o|]; cbn; [|done].
  intros [= _ <-]. by exists o.
Qed.

Lemma foreach_clear_inv cams s u s' :
  foreach cams (fun c => clearObservations c;; clearTargets c) s = Ret u s' ->
  s' = set_events (.++ clear_events cams) s.
Proof.
  revert s. induction cams as [|c cams IH]; intros s Hrun.
  - injection Hrun as _ <-. by rewrite set_events_nil.
  - cbn [foreach] in Hrun.
    apply bind_Ret_inv in Hrun as ([] & s1 & Hc & Hrest).
    apply bind_Ret_inv in Hc as ([] & s2 & Hc1 & Hc2).
    apply observer_emit_observer in Hc1 as (o & Ho & ->).
    apply observer_emit_observer in Hc2 as (o' & Ho' & ->).
    rewrite Ho in Ho'. injection Ho' as <-.
    apply IH in Hrest as ->.
    rewrite !set_events_app. unfold clear_events, observers. cbn.
    by rewrite Ho.
Qed.

Lemma foreach_addTarget_inv cmds s u s' :
  foreach cmds (fun o_command =>
    addTarget (cmd_camera o_command) (cmd_target o_command)
      (cmd_roi o_command)) s = Ret u s' ->
  s' = set_events (.++ addTarget_events cmds) s.
Proof.
  revert s. induction cmds as [|c cmds IH]; intros s Hrun.
  - injection Hrun as _ <-. by rewrite set_events_nil.
  - cbn [foreach] in Hrun.
    apply bind_Ret_inv in Hrun as ([] & s1 & Hc & Hrest).
    apply (observer_emit_observer _
             (fun o => EvAddTarget o (cmd_target c) (cmd_roi c))) in Hc
      as (o & Ho & ->).
    apply IH in Hrest as ->.
    rewrite !set_events_app. unfold addTarget_events. cbn.
    by rewrite Ho.
Qed.

Lemma foreach_trigger_inv cams s u s' :
  foreach cams triggerCamera s = Ret u s' ->
  s' = set_events (.++ trigger_events cams) s.
Proof.
  revert s. induction cams as [|c cams IH]; intros s Hrun.
  - injection Hrun as _ <-. by rewrite set_events_nil.
  - cbn [foreach] in Hrun.
    apply bind_Ret_inv in Hrun as ([] & s1 & Hc & Hrest).
    apply observer_emit_observer in Hc as (o & Ho & ->).
    apply IH in Hrest as ->.
    rewrite !set_events_app. unfold trigger_events, observers. cbn.
    by rewrite Ho.
Qed.

Lemma raw_clear_events cams : raw_observations (clear_events cams) = [].
Proof.
  unfold clear_events, observers.
  induction cams as [|c cams IH]; [done|]. cbn.
  destruct (camera_observer_ c); [|done]. exact IH.
Qed.

Lemma raw_addTarget_events cmds :
  raw_observations (addTarget_events cmds) = [].
Proof.
  unfold addTarget_events.
  induction cmds as [|c cmds IH]; [done|]. cbn.
  destruct (camera_observer_ (cmd_camera c)); [|done]. exact IH.
Qed.

Lemma raw_trigger_events cams : raw_observations (trigger_events cams) = [].
Proof.
  unfold trigger_events, observers.
  induction cams as [|c cams IH]; [done|]. cbn.
  destruct (camera_observer_ c); [|done]. exact IH.
Qed.

(** A scene: the three announcing loops, then the collection. *)
Lemma process_scene_inv world fuel sc s u s' :
  process_scene world fuel sc s = Ret u s' ->
  collected is_collection_event (from_scene sc)
    (set_events
       (.++ clear_events (cameras_in_scene_ sc) ++
            addTarget_events (observation_command_list_ sc) ++
            trigger_events (cameras_in_scene_ sc)) s)
    s'.
Proof.
  unfold process_scene. intros Hrun.
  apply bind_Ret_inv in Hrun as ([] & s1 & Hclear & Hrun).
  apply bind_Ret_inv in Hrun as ([] & s2 & Hadd & Hrun).
  apply bind_Ret_inv in Hrun as ([] & s3 & Htrig & Hrun).
  apply foreach_clear_inv in Hclear as ->.
  apply foreach_addTarget_inv in Hadd as ->.
  apply foreach_trigger_inv in Htrig as ->.
  rewrite !set_events_app in Hrun.
  eapply (foreach_collected _ (made_for (scene_id_ sc))); [| |exact Hrun].
  - intros c s4 s5 _. apply process_camera_collected.
  - intros c o Hin Hmade. by exists c.
Qed.

Lemma process_scene_collected world fuel sc s u s' :
  process_scene world fuel sc s = Ret u s' ->
  collected (fun _ => True) (from_scene sc) s s'.
Proof.
  intros Hrun. apply process_scene_inv in Hrun
    as [A B C (h & new & He & Hi & Hq & Hm & Hp)].
  cbn in A, B, C, He, Hi, Hm.
  split; try done. eexists. exists new.
  split; [by rewrite He, <- app_assoc|]. split; [done|].
  split; [by apply Forall_true|]. split; [|done].
  by rewrite !raw_app, raw_clear_events, raw_addTarget_events,
    raw_trigger_events.
Qed.

Lemma runObservations_collected world fuel s b s' :
  runObservations world fuel s = Ret b s' ->
  b = true /\
  collected (fun _ => True) (from_scenes (scene_list_ s)) s s'.
Proof.
  unfold runObservations. intros Hrun.
  apply bind_Ret_inv in Hrun as ([] & s1 & Hclear & Hrun).
  injection Hclear as <-.
  apply bind_Ret_inv in Hrun as (scenes & s2 & Hget & Hrun).
  injection Hget as <- <-.
  apply bind_Ret_inv in Hrun as ([] & s3 & Hrun & Hret).
  injection Hret as <- <-. split; [done|].
  assert (collected (fun _ => True) (from_scenes (scene_list_ s))
            (set_ceres_blocks Registry.clearCamerasTargets s) s3)
    as [A B C D].
  { eapply (foreach_collected _ from_scene); [| |exact Hrun].
    - intros sc s4 s5 _. apply process_scene_collected.
    - intros sc o Hin Hfrom. by exists sc. }
  by split.
Qed.

End CollectorFrame.

(** ** [runObservations]: the blocks of the data points *)

Module CollectorBinding.
Import Registry RegistryFacts RegistryLemmas MonadLemmas CollectorLemmas.
Import CollectorFrame.

Lemma camera_registered_grows r r' scene_id c :
  grows r r' -> camera_registered r scene_id c ->
  camera_registered r' scene_id c.
Proof.
  intros Hg [[i Hi] [e He]]. split.
  - exists i. eapply lookup_weaken; [exact Hi|]. by apply grows_intrinsics.
  - exists e. eapply lookup_weaken; [exact He|]. by apply grows_extrinsics.
Qed.

Lemma camera_bound_grows r r' scene_id c odp :
  grows r r' -> camera_bound r scene_id c odp ->
  camera_bound r' scene_id c odp.
Proof.
  intros Hg (Hm & Hi & He). split; [done|]. split.
  - eapply lookup_weaken; [exact Hi|]. by apply grows_intrinsics.
  - eapply lookup_weaken; [exact He|]. by apply grows_extrinsics.
Qed.

Lemma target_bound_to_grows r r' store odp obs :
  grows r r' -> target_bound_to r store odp obs ->
  target_bound_to r' store odp obs.
Proof.
  intros Hg (t & Ht & Hn & Hid & Hpt & Hpose). exists t.
  split; [done|]. split; [done|]. split; [done|]. split.
  - eapply lookup_weaken; [exact Hpt|]. by apply grows_point.
  - eapply lookup_weaken; [exact Hpose|]. by apply grows_pose.
Qed.

Lemma bound_step_refl P s : wf (ceres_blocks_ s) -> bound_step P s s.
Proof.
  intros Hwf. split; [done|apply grows_refl|done|].
  exists [], []. rewrite !app_nil_r. by repeat split.
Qed.

Lemma bound_step_trans (P : CeresBlocks -> ObservationDataPoint -> Prop)
    s s' s'' :
  (forall r r' o, grows r r' -> P r o -> P r' o) ->
  bound_step P s s' -> bound_step P s' s'' -> bound_step P s s''.
Proof.
  intros Hmono [_ Hg1 Hs1 (h1 & n1 & He1 & Hi1 & Hb1 & Hp1)]
               [Hwf2 Hg2 Hs2 (h2 & n2 & He2 & Hi2 & Hb2 & Hp2)].
  split; [done|by eapply grows_trans|congruence|].
  exists (h1 ++ h2), (n1 ++ n2).
  rewrite He2, He1, Hi2, Hi1, <- !app_assoc.
  split; [done|]. split; [done|]. split.
  - rewrite raw_app. apply Forall2_app.
    + eapply Forall2_impl; [exact Hb1|].
      intros odp obs. by apply target_bound_to_grows.
    + by rewrite <- Hs1.
  - apply Forall_app. split; [|done].
    eapply Forall_impl; [exact Hp1|]. intros odp. by apply Hmono.
Qed.

Lemma bound_step_weaken (P P' : CeresBlocks -> ObservationDataPoint -> Prop)
    s s' :
  (forall r o, P r o -> P' r o) -> bound_step P s s' -> bound_step P' s s'.
Proof.
  intros HP [Hwf Hg Hs (h & new & He & Hi & Hb & Hp)].
  split; try done. exists h, new. repeat split; try done.
  eapply Forall_impl; [exact Hp|]. intros odp. apply HP.
Qed.

(** Events that hand over no observation. *)
Lemma bound_step_events P h s :
  raw_observations h = [] -> wf (ceres_blocks_ s) ->
  bound_step P s (set_events (.++ h) s).
Proof.
  intros Hraw Hwf. split; [done|apply grows_refl|done|].
  exists h, []. rewrite Hraw. cbn. rewrite app_nil_r. by repeat split.
Qed.

Lemma foreach_bound {A}
    (PA : A -> CeresBlocks -> ObservationDataPoint -> Prop)
    (RA : A -> CeresBlocks -> Prop)
    (P : CeresBlocks -> ObservationDataPoint -> Prop)
    (l : list A) (body : A -> M unit) s u s' :
  (forall r r' o, grows r r' -> P r o -> P r' o) ->
  (forall a r r', grows r r' -> RA a r -> RA a r') ->
  (forall a r o, a ∈ l -> PA a r o -> P r o) ->
  (forall a s1 s2, a ∈ l -> wf (ceres_blocks_ s1) -> body a s1 = Ret tt s2 ->
     bound_step (PA a) s1 s2 /\ RA a (ceres_blocks_ s2)) ->
  wf (ceres_blocks_ s) -> foreach l body s = Ret u s' ->
  bound_step P s s' /\ forall a, a ∈ l -> RA a (ceres_blocks_ s').
Proof.
  intros HmonoP HmonoR. revert s.
  induction l as [|a l IH]; intros s HP Hbody Hwf Hrun.
  - injection Hrun as _ <-. split; [by apply bound_step_refl|].
    intros a Hin. by apply not_elem_of_nil in Hin.
  - cbn in Hrun. apply bind_Ret_inv in Hrun as ([] & s1 & Ha & Hrest).
    destruct (Hbody a s s1 (list_elem_of_here _ _) Hwf Ha) as [H1 HR1].
    destruct (IH s1) as [H2 HR2]; [| |by apply (bs_wf _ _ _ H1)|done|].
    + intros a' r o Hin. apply HP. by apply list_elem_of_further.
    + intros a' s2 s3 Hin. apply Hbody. by apply list_elem_of_further.
    + split.
      * eapply bound_step_trans; [done| |exact H2].
        eapply bound_step_weaken; [|exact H1].
        intros r o. apply HP, list_elem_of_here.
      * intros a' Hin. apply elem_of_cons in Hin as [->|Hin]; [|by apply HR2].
        eapply HmonoR; [|exact HR1]. by apply (bs_grows _ _ _ H2).
Qed.

(** The lookups of lines 120-131, read back from their results. *)
Lemma target_blocks_bound target pnt_id scene_id s pose pt s' :
  target_blocks target pnt_id scene_id s = Ret (pose, pt) s' ->
  exists t,
    target_store s !! target = Some t /\
    s' = set_ceres_blocks
           (addTarget target t (scene_key (is_moving t) scene_id)) s /\
    target_point (ceres_blocks_ s') !! (target_name t, pnt_id) = Some pt /\
    target_pose (ceres_blocks_ s')
      !! (target_name t, scene_key (is_moving t) scene_id) = Some pose.
Proof.
  unfold target_blocks. intros Hrun.
  apply bind_Ret_inv in Hrun as (t & s1 & Ht & Hrun).
  unfold deref, mbind, M_bind, gets, from_option in Ht. cbn in Ht.
  destruct (target_store s !! target) as [t'|] eqn:Et; [|done].
  injection Ht as <- <-. exists t'. split; [done|].
  destruct (is_moving t');
    apply bind_Ret_inv in Hrun as ([] & s2 & Hadd & Hrun);
    injection Hadd as <-;
    apply bind_Ret_inv in Hrun as (po & s3 & Hpose & Hrun);
    apply bind_Ret_inv in Hrun as (pp & s4 & Hpt & Hrun);
    injection Hrun as <- <- <-;
    unfold lookup_block, mbind, M_bind, gets, from_option in Hpose, Hpt;
    cbn in Hpose, Hpt.
  - unfold getMovingTargetPoseParameterBlock in Hpose.
    unfold getMovingTargetPointParameterBlock in Hpt.
    destruct (target_pose _ !! _) eqn:Eo; [|done]. injection Hpose as <- <-.
    cbn in Hpt.
    destruct (target_point _ !! _) eqn:Ep; [|done]. injection Hpt as <- <-.
    done.
  - unfold getStaticTargetPoseParameterBlock in Hpose.
    unfold getStaticTargetPointParameterBlock in Hpt.
    destruct (target_pose _ !! _) eqn:Eo; [|done]. injection Hpose as <- <-.
    cbn in Hpt.
    destruct (target_point _ !! _) eqn:Ep; [|done]. injection Hpt as <- <-.
    done.
Qed.

(** The data point of an observation carries the scene id, the camera name
    and the two camera blocks it was given, and the target blocks found
    under the keys of lines 120-131. *)
Lemma process_observation_bound scene_id name i e obs s u s' :
  wf (ceres_blocks_ s) ->
  process_observation scene_id name i e obs s = Ret u s' ->
  wf (ceres_blocks_ s') /\
  grows (ceres_blocks_ s) (ceres_blocks_ s') /\
  target_store s' = target_store s /\ events s' = events s /\
  exists odp,
    observation_data_point_list s' = observation_data_point_list s ++ [odp] /\
    target_bound_to (ceres_blocks_ s') (target_store s) odp obs /\
    odp_scene_id_ odp = scene_id /\ odp_camera_name_ odp = name /\
    camera_intrinsics_ odp = i /\ camera_extrinsics_ odp = e.
Proof.
  intros Hwf Hrun. unfold process_observation in Hrun.
  apply bind_Ret_inv in Hrun as (t & s0 & Ht & Hrun).
  unfold deref, mbind, M_bind, gets, from_option in Ht. cbn in Ht.
  destruct (target_store s !! obs_target obs) as [t'|] eqn:Et; [|done].
  injection Ht as <- <-.
  apply bind_Ret_inv in Hrun as ([pose pt] & s1 & Hblocks & Hrun).
  apply target_blocks_bound in Hblocks as (t2 & Ht2 & -> & Hpt & Hpose).
  rewrite Et in Ht2. injection Ht2 as <-.
  injection Hrun as <- <-. cbn in Hpt, Hpose. cbn.
  split; [by apply addTarget_wf|]. split; [by apply addTarget_grows|].
  split; [done|]. split; [done|].
  eexists. split; [reflexivity|]. cbn.
  split; [|done]. exists t'. by repeat split.
Qed.

Lemma foreach_observation_bound scene_id name i e l s u s' :
  wf (ceres_blocks_ s) ->
  foreach l (process_observation scene_id name i e) s = Ret u s' ->
  wf (ceres_blocks_ s') /\
  grows (ceres_blocks_ s) (ceres_blocks_ s') /\
  target_store s' = target_store s /\ events s' = events s /\
  exists new,
    observation_data_point_list s' = observation_data_point_list s ++ new /\
    Forall2 (target_bound_to (ceres_blocks_ s') (target_store s)) new l /\
    Forall (fun odp =>
              odp_scene_id_ odp = scene_id /\ odp_camera_name_ odp = name /\
              camera_intrinsics_ odp = i /\ camera_extrinsics_ odp = e) new.
Proof.
  revert s. induction l as [|obs l IH]; intros s Hwf Hrun.
  - injection Hrun as _ <-. split; [done|]. split; [apply grows_refl|].
    split; [done|]. split; [done|]. exists []. by rewrite app_nil_r.
  - cbn [foreach] in Hrun.
    apply bind_Ret_inv in Hrun as ([] & s1 & Hobs & Hrest).
    apply process_observation_bound in Hobs
      as (Hwf1 & Hg1 & Hs1 & He1 & odp & Hi1 & Hb1 & Hodp); [|done].
    apply IH in Hrest as (Hwf2 & Hg2 & Hs2 & He2 & new & Hi2 & Hb2 & Hp2);
      [|done].
    split; [done|]. split; [by eapply grows_trans|].
    split; [congruence|]. split; [congruence|].
    exists (odp :: new). rewrite Hi2, Hi1, <- app_assoc.
    split; [done|]. split.
    + constructor; [by eapply target_bound_to_grows|by rewrite <- Hs1].
    + by constructor.
Qed.

(** A camera of a scene: its blocks are registered under the keys of lines
    93-107, and every data point made for it carries these blocks. *)
Lemma process_camera_bound world fuel scene_id camera s u s' :
  wf (ceres_blocks_ s) ->
  process_camera world fuel scene_id camera s = Ret u s' ->
  bound_step (fun r => camera_bound r scene_id camera) s s' /\
  camera_registered (ceres_blocks_ s') scene_id camera.
Proof.
  intros Hwf Hrun. unfold process_camera in Hrun.
  apply bind_Ret_inv in Hrun as ([] & s1 & Hwait & Hrun).
  apply bind_Ret_inv in Hrun as ([i e] & s2 & Hblocks & Hrun).
  apply bind_Ret_inv in Hrun as (obs & s3 & Hget & Hrun).
  apply wait_inv in Hwait as (o & k & Ho & ->).
  destruct (camera_blocks_eq camera scene_id
              (set_events (.++ polls o k ++ [EvObservationsDone o true]) s))
    as (i' & e' & Hi & He & Heq).
  rewrite Heq in Hblocks. injection Hblocks as <- <- <-.
  apply getObservations_inv in Hget as (o' & Ho' & ->).
  cbn in Hi, He.
  apply foreach_observation_bound in Hrun
    as (Hwf2 & Hg2 & Hs2 & He2 & new & Hi2 & Hb2 & Hp2);
    [|by apply addCamera_wf].
  cbn in Hg2, Hs2, He2, Hi2, Hb2.
  pose proof (lookup_weaken _ _ _ _ Hi (grows_intrinsics _ _ Hg2)) as Hi'.
  pose proof (lookup_weaken _ _ _ _ He (grows_extrinsics _ _ Hg2)) as He'.
  split; [|by split; eexists].
  split; [done| |done|].
  - eapply grows_trans; [apply addCamera_grows|exact Hg2].
  - eexists. exists new. split; [by rewrite He2, <- app_assoc|].
    split; [done|]. split.
    + rewrite !raw_app, raw_polls. cbn. by rewrite app_nil_r.
    + eapply Forall_impl; [exact Hp2|].
      intros odp (Hsc & Hname & Hio & Heo). split; [done|].
      by rewrite Hio, Heo.
Qed.

Lemma process_scene_bound world fuel sc s u s' :
  wf (ceres_blocks_ s) ->
  process_scene world fuel sc s = Ret u s' ->
  bound_step
    (fun r odp => exists c, c ∈ cameras_in_scene_ sc /\
                            camera_bound r (scene_id_ sc) c odp) s s' /\
  forall c, c ∈ cameras_in_scene_ sc ->
    camera_registered (ceres_blocks_ s') (scene_id_ sc) c.
Proof.
  intros Hwf Hrun. unfold process_scene in Hrun.
  apply bind_Ret_inv in Hrun as ([] & s1 & Hclear & Hrun).
  apply bind_Ret_inv in Hrun as ([] & s2 & Hadd & Hrun).
  apply bind_Ret_inv in Hrun as ([] & s3 & Htrig & Hrun).
  apply foreach_clear_inv in Hclear as ->.
  apply foreach_addTarget_inv in Hadd as ->.
  apply foreach_trigger_inv in Htrig as ->.
  rewrite !set_events_app in Hrun.
  assert (forall r r' o, grows r r' ->
            (exists c, c ∈ cameras_in_scene_ sc /\
                       camera_bound r (scene_id_ sc) c o) ->
            exists c, c ∈ cameras_in_scene_ sc /\
                      camera_bound r' (scene_id_ sc) c o) as Hmono.
  { intros r r' o Hg (c & Hin & Hb). exists c. split; [done|].
    by eapply camera_bound_grows. }
  eapply (foreach_bound
            (fun c r => camera_bound r (scene_id_ sc) c)
            (fun c r => camera_registered r (scene_id_ sc) c)) in Hrun
    as [H HR]; [| | | | |done].
  - split; [|exact HR].
    eapply bound_step_trans; [exact Hmono| |exact H].
    apply bound_step_events; [|done].
    by rewrite !raw_app, raw_clear_events, raw_addTarget_events,
      raw_trigger_events.
  - exact Hmono.
  - intros c r r'. apply camera_registered_grows.
  - intros c r o Hin Hb. by exists c.
  - intros c s4 s5 _ Hwf4. by apply process_camera_bound.
Qed.

(** A run of [runObservations], from an empty registry on. *)
Lemma runObservations_bound world fuel s b s' :
  runObservations world fuel s = Ret b s' ->
  wf (ceres_blocks_ s') /\
  (forall sc c, sc ∈ scene_list_ s -> c ∈ cameras_in_scene_ sc ->
     camera_registered (ceres_blocks_ s') (scene_id_ sc) c) /\
  exists h new,
    events s' = events s ++ h /\
    observation_data_point_list s' = observation_data_point_list s ++ new /\
    Forall2 (target_bound_to (ceres_blocks_ s') (target_store s)) new
      (raw_observations h) /\
    Forall (camera_bound_in (scene_list_ s) (ceres_blocks_ s')) new.
Proof.
  unfold runObservations. intros Hrun.
  apply bind_Ret_inv in Hrun as ([] & s1 & Hclear & Hrun).
  injection Hclear as <-.
  apply bind_Ret_inv in Hrun as (scenes & s2 & Hget & Hrun).
  injection Hget as <- <-.
  apply bind_Ret_inv in Hrun as ([] & s3 & Hrun & Hret).
  injection Hret as <- <-. cbn [scene_list_ set_ceres_blocks] in Hrun.
  eapply (foreach_bound
            (fun sc r odp => exists c, c ∈ cameras_in_scene_ sc /\
                                       camera_bound r (scene_id_ sc) c odp)
            (fun sc r => forall c, c ∈ cameras_in_scene_ sc ->
                                   camera_registered r (scene_id_ sc) c)
            (camera_bound_in (scene_list_ s))) in Hrun
    as [[Hwf _ _ (h & new & He & Hi & Hb & Hp)] HR]; [| | | | |apply wf_empty].
  - split; [done|]. split; [intros sc c Hsc; by apply HR|].
    by exists h, new.
  - intros r r' o Hg (sc & c & Hsc & Hc & Hb). exists sc, c.
    split; [done|]. split; [done|]. by eapply camera_bound_grows.
  - intros sc r r' Hg HR c Hc. eapply camera_registered_grows; eauto.
  - intros sc r o Hsc (c & Hc & Hb). by exists sc, c.
  - intros sc s4 s5 _ Hwf4. by apply process_scene_bound.
Qed.

End CollectorBinding.

(** C2.  When [runObservations] returns, every camera of every scene of the
    job is registered: its intrinsics block under the camera name alone, its
    extrinsics block under the name and, for a moving camera only, the id of
    the scene.  Every data point that the run added was made for a camera of
    a scene of the job and carries exactly these two blocks.  So two cameras
    of the same name, in whatever scenes, have the same intrinsics block;
    if both are moving and the scene ids differ, their extrinsics blocks are
    distinct; if both are static, their extrinsics block is the same. *)
Theorem camera_blocks_by_name_and_scene (world : World) (fuel : nat)
    (s s' : State) (b : bool) :
  runObservations world fuel s = Ret b s' ->
  (forall sc c, sc ∈ scene_list_ s -> c ∈ cameras_in_scene_ sc ->
     camera_registered (ceres_blocks_ s') (scene_id_ sc) c) /\
  (exists new,
     observation_data_point_list s' = observation_data_point_list s ++ new /\
     Forall (camera_bound_in (scene_list_ s) (ceres_blocks_ s')) new) /\
  (forall c1 c2 a1 a2 i1 i2 e1 e2,
     Registry.intrinsics (ceres_blocks_ s') !! camera_name_ c1 = Some i1 ->
     Registry.intrinsics (ceres_blocks_ s') !! camera_name_ c2 = Some i2 ->
     Registry.extrinsics (ceres_blocks_ s')
       !! (camera_name_ c1, scene_key (isMoving c1) a1) = Some e1 ->
     Registry.extrinsics (ceres_blocks_ s')
       !! (camera_name_ c2, scene_key (isMoving c2) a2) = Some e2 ->
     camera_name_ c1 = camera_name_ c2 ->
     i1 = i2 /\
     (isMoving c1 = true -> isMoving c2 = true -> a1 <> a2 -> e1 <> e2) /\
     (isMoving c1 = false -> isMoving c2 = false -> e1 = e2)).
Proof.
  intros Hrun.
  apply CollectorBinding.runObservations_bound in Hrun
    as ([Hwf _] & HR & h & new & _ & Hi & _ & Hp).
  split; [exact HR|]. split; [by exists new|].
  intros c1 c2 a1 a2 i1 i2 e1 e2 Hi1 Hi2 He1 He2 Hname.
  rewrite Hname in Hi1, He1. split; [congruence|]. split.
  - intros M1 M2 Hne ->. rewrite M1 in He1. rewrite M2 in He2.
    pose proof (RegistryFacts.wf_extrinsics_inj _ Hwf _ _ _ He1 He2) as E.
    cbn in E. congruence.
  - intros M1 M2. rewrite M1 in He1. rewrite M2 in He2.
    cbn in He1, He2. congruence.
Qed.

Lemma job_moved_run :
  runObservations MoreExamples.done_at_once 1 MoreExamples.job_moving
  = Ret true MoreExamples.job_moved.
Proof. vm_compute. reflexivity. Qed.

(** The theorem at the moving camera of the example, active in the scenes 1
    and 2. *)
Lemma camera_blocks_by_name_and_scene_witness :
  (forall sc c, sc ∈ scene_list_ MoreExamples.job_moving ->
     c ∈ cameras_in_scene_ sc ->
     camera_registered (ceres_blocks_ MoreExamples.job_moved)
       (scene_id_ sc) c) /\
  (exists new,
     observation_data_point_list MoreExamples.job_moved
       = observation_data_point_list MoreExamples.job_moving ++ new /\
     Forall (camera_bound_in (scene_list_ MoreExamples.job_moving)
               (ceres_blocks_ MoreExamples.job_moved)) new) /\
  (forall c1 c2 a1 a2 i1 i2 e1 e2,
     Registry.intrinsics (ceres_blocks_ MoreExamples.job_moved)
       !! camera_name_ c1 = Some i1 ->
     Registry.intrinsics (ceres_blocks_ MoreExamples.job_moved)
       !! camera_name_ c2 = Some i2 ->
     Registry.extrinsics (ceres_blocks_ MoreExamples.job_moved)
       !! (camera_name_ c1, scene_key (isMoving c1) a1) = Some e1 ->
     Registry.extrinsics (ceres_blocks_ MoreExamples.job_moved)
       !! (camera_name_ c2, scene_key (isMoving c2) a2) = Some e2 ->
     camera_name_ c1 = camera_name_ c2 ->
     i1 = i2 /\
     (isMoving c1 = true -> isMoving c2 = true -> a1 <> a2 -> e1 <> e2) /\
     (isMoving c1 = false -> isMoving c2 = false -> e1 = e2)).
Proof.
  exact (camera_blocks_by_name_and_scene MoreExamples.done_at_once 1
           MoreExamples.job_moving MoreExamples.job_moved true
           job_moved_run).
Defined.



(** On the example: the data points of the scenes 1 and 2 share the
    intrinsics block (0) and the point block (6); their extrinsics blocks
    (1 and 7) and their pose blocks (2 and 8) are distinct. *)
Lemma job_moved_data_points :
  observation_data_point_list MoreExamples.job_moved =
    [mkODP "camM" "targetM" 1 0%nat 1%nat 3 2%nat 6%nat 10 10;
     mkODP "camM" "targetM" 2 0%nat 7%nat 3 8%nat 6%nat 10 10].
Proof. vm_compute. reflexivity. Qed.

(** X3.  The data points that [runObservations] adds mirror, one for one
    and in the same order, the raw observations that the capture interface
    handed over during the run: same point id, same pixel, and the name of
    the target object the observation refers to.  The data points that
    were in the list before the run stay at its front. *)
Theorem data_points_mirror_observations (world : World) (fuel : nat)
    (s s' : State) (b : bool) :
  runObservations world fuel s = Ret b s' ->
  exists h new,
    events s' = events s ++ h /\
    observation_data_point_list s' = observation_data_point_list s ++ new /\
    Forall2 (mirrors (target_store s)) new (raw_observations h).
Proof.
  intros Hrun.
  apply CollectorFrame.runObservations_collected in Hrun
    as [_ [_ _ _ (h & new & He & Hi & _ & Hm & _)]].
  by exists h, new.
Qed.

Lemma data_points_mirror_observations_witness :
  exists s',
    runObservations Examples.done_at_third_poll 5 Examples.job_one_scene
      = Ret true s' /\
    exists h new,
      events s' = events Examples.job_one_scene ++ h /\
      observation_data_point_list s'
        = observation_data_point_list Examples.job_one_scene ++ new /\
      Forall2 (mirrors (target_store Examples.job_one_scene)) new
        (raw_observations h).
Proof.
  eexists. split.
  - vm_compute. reflexivity.
  - apply (data_points_mirror_observations Examples.done_at_third_poll 5
             Examples.job_one_scene _ true).
    vm_compute. reflexivity.
Defined.

(** X4.  Every data point that [runObservations] adds carries the id of one
    of the scenes of the job and the name of a camera that is active in that
    scene. *)
Theorem data_points_come_from_scenes (world : World) (fuel : nat)
    (s s' : State) (b : bool) :
  runObservations world fuel s = Ret b s' ->
  exists new,
    observation_data_point_list s' = observation_data_point_list s ++ new /\
    Forall (from_scenes (scene_list_ s)) new.
Proof.
  intros Hrun.
  apply CollectorFrame.runObservations_collected in Hrun
    as [_ [_ _ _ (h & new & _ & Hi & _ & _ & Hp)]].
  by exists new.
Qed.

Lemma data_points_come_from_scenes_witness :
  exists s',
    runObservations Examples.done_at_third_poll 5 Examples.job_one_scene
      = Ret true s' /\
    exists new,
      observation_data_point_list s'
        = observation_data_point_list Examples.job_one_scene ++ new /\
      Forall (from_scenes (scene_list_ Examples.job_one_scene)) new.
Proof.
  eexists. split.
  - vm_compute. reflexivity.
  - apply (data_points_come_from_scenes Examples.done_at_third_poll 5
             Examples.job_one_scene _ true).
    vm_compute. reflexivity.
Defined.

(** X5.  When [runObservations] returns, it returns [true], and it has
    changed neither the scenes nor the problem nor any target object. *)
Theorem runObservations_keeps_plan_and_problem (world : World) (fuel : nat)
    (s s' : State) (b : bool) :
  runObservations world fuel s = Ret b s' ->
  b = true /\
  scene_list_ s' = scene_list_ s /\
  problem_ s' = problem_ s /\
  target_store s' = target_store s.
Proof.
  intros Hrun.
  apply CollectorFrame.runObservations_collected in Hrun as [-> [A B C _]].
  done.
Qed.

Lemma runObservations_keeps_plan_and_problem_witness :
  exists s',
    runObservations Examples.done_at_third_poll 5 Examples.job_one_scene
      = Ret true s' /\
    true = true /\
    scene_list_ s' = scene_list_ Examples.job_one_scene /\
    problem_ s' = problem_ Examples.job_one_scene /\
    target_store s' = target_store Examples.job_one_scene.
Proof.
  eexists. split.
  - vm_compute. reflexivity.
  - apply (runObservations_keeps_plan_and_problem
             Examples.done_at_third_poll 5 Examples.job_one_scene _ true).
    vm_compute. reflexivity.
Defined.

(** X6.  In every scene the capture interface is driven in this order: all
    the cameras of the scene are cleared (observations, then targets), then
    every observation command is announced to its camera, then all the
    cameras are triggered; only after that is the first camera polled.
    What follows consists of polls and retrievals of observations only. *)
Theorem scene_protocol_order (world : World) (fuel : nat)
    (sc : ObservationScene) (s s' : State) (u : unit) :
  process_scene world fuel sc s = Ret u s' ->
  exists rest,
    events s' =
      events s ++ clear_events (cameras_in_scene_ sc) ++
      addTarget_events (observation_command_list_ sc) ++
      trigger_events (cameras_in_scene_ sc) ++ rest /\
    Forall is_collection_event rest.
Proof.
  intros Hrun.
  apply CollectorFrame.process_scene_inv in Hrun
    as [_ _ _ (h & new & He & _ & Hq & _ & _)].
  exists h. split; [|done]. cbn in He. rewrite He.
  by rewrite <- !app_assoc.
Qed.

Lemma scene_protocol_order_witness :
  exists s',
    process_scene Examples.done_at_third_poll 5 Examples.scene1
      Examples.job_one_scene = Ret tt s' /\
    exists rest,
      events s' =
        events Examples.job_one_scene ++
        clear_events (cameras_in_scene_ Examples.scene1) ++
        addTarget_events (observation_command_list_ Examples.scene1) ++
        trigger_events (cameras_in_scene_ Examples.scene1) ++ rest /\
      Forall is_collection_event rest.
Proof.
  eexists. split.
  - vm_compute. reflexivity.
  - apply (scene_protocol_order Examples.done_at_third_poll 5
             Examples.scene1 Examples.job_one_scene _ tt).
    vm_compute. reflexivity.
Defined.

(** ** Scenes without cameras *)

Module IdleScenes.
Import MonadLemmas CollectorFrame.




End IdleScenes.



(** X8.  [run] composes the two phases.  Whenever [run] comes to the end of
    its body, on a job that had no data point, the collection and then the
    optimization have both returned [true]; the problem has received as many
    residuals as raw observations were handed over during the collection,
    and the history is the one the collection left, the optimization adding
    nothing to it. *)
Theorem run_collects_then_assembles (world : World) (fuel : nat)
    (s s2 : State) (v : option bool) :
  observation_data_point_list s = [] ->
  run world fuel s = Ret v s2 ->
  exists s1 h rbs,
    runObservations world fuel s = Ret true s1 /\
    runOptimization s1 = Ret true s2 /\
    events s1 = events s ++ h /\
    events s2 = events s1 /\
    problem_ s2 = problem_ s ++ rbs /\
    length rbs = length (raw_observations h) /\
    observation_data_point_list s2 = observation_data_point_list s1.
Proof.
  intros Hempty Hend. unfold run in Hend.
  apply MonadLemmas.bind_Ret_inv in Hend as (b & s1 & Hrun & Hend).
  apply MonadLemmas.bind_Ret_inv in Hend as (b' & s2' & Hopt' & Hend).
  injection Hend as _ <-.
  pose proof (CollectorFrame.runObservations_collected _ _ _ _ _ Hrun)
    as [-> [_ Hproblem _ _]].
  pose proof (CollectorInvariant.runObservations_collects _ _ _ _ _ Hrun)
    as (_ & _ & h & new & He & Hi & Hlen & Hr).
  rewrite Hempty in Hi. cbn in Hi.
  destruct (AssemblerLemmas.runOptimization_eq s1) as (rbs & Hopt & Hof & _).
  { by rewrite Hi. }
  rewrite Hopt in Hopt'. injection Hopt' as <- <-.
  exists s1, h, rbs. split; [done|]. split; [done|]. split; [done|].
  cbn. split; [done|]. split; [by rewrite Hproblem|]. split; [|done].
  apply Forall2_length in Hof. rewrite <- Hof, Hi. done.
Qed.

Lemma run_collects_then_assembles_witness :
  exists s2,
    run Examples.done_at_third_poll 5 Examples.job_one_scene = Ret None s2 /\
    exists s1 h rbs,
      runObservations Examples.done_at_third_poll 5 Examples.job_one_scene
        = Ret true s1 /\
      runOptimization s1 = Ret true s2 /\
      events s1 = events Examples.job_one_scene ++ h /\
      events s2 = events s1 /\
      problem_ s2 = problem_ Examples.job_one_scene ++ rbs /\
      length rbs = length (raw_observations h) /\
      observation_data_point_list s2 = observation_data_point_list s1.
Proof.
  eexists. split.
  - vm_compute. reflexivity.
  - eapply (run_collects_then_assembles Examples.done_at_third_poll 5
              Examples.job_one_scene _ None).
    + reflexivity.
    + vm_compute. reflexivity.
Defined.

(** ** [load]: what it leaves alone *)

Module LoadFrame.
Import MonadLemmas.

Section Keeps.

Context {B : Type} (proj : State -> B).

Lemma keeps_ret {A} (a : A) : keeps proj (mret a).
Proof. intros s a' s' [= _ <-]. done. Qed.

Lemma keeps_bind {A C} (m : M A) (f : A -> M C) :
  keeps proj m -> (forall a, keeps proj (f a)) -> keeps proj (m ≫= f).
Proof.
  intros Hm Hf s c s' Hrun.
  apply bind_Ret_inv in Hrun as (a & s1 & H1 & H2).
  rewrite (Hf _ _ _ _ H2). eauto.
Qed.

Lemma keeps_gets {A} (f : State -> A) : keeps proj (gets f).
Proof. intros s a s' [= _ <-]. done. Qed.

Lemma keeps_from_option {A} e (o : option A) : keeps proj (from_option e o).
Proof. destruct o; [apply keeps_ret|]. intros s a s' H. done. Qed.

Lemma keeps_extract {A} (e : Extract A) : keeps proj (extract e).
Proof. destruct e; [apply keeps_ret|]. intros s a s' H. done. Qed.

Lemma keeps_modify (f : State -> State) :
  (forall s, proj (f s) = proj s) -> keeps proj (modify f).
Proof. intros Hf s a s' H. injection H as _ <-. apply Hf. Qed.

Lemma keeps_foreach {A} (l : list A) (body : A -> M unit) :
  (forall a, keeps proj (body a)) -> keeps proj (foreach l body).
Proof.
  intros Hbody. induction l as [|a l IH]; [apply keeps_ret|].
  cbn [foreach]. apply keeps_bind; [apply Hbody|]. intros _. exact IH.
Qed.

Lemma keeps_foreach_carry {A C} (l : list A) (acc : C)
    (body : C -> A -> M C) :
  (forall acc a, keeps proj (body acc a)) ->
  keeps proj (foreach_carry l acc body).
Proof.
  intros Hbody. revert acc. induction l as [|a l IH]; intros acc;
    [apply keeps_ret|].
  cbn [foreach_carry]. apply keeps_bind; [apply Hbody|]. intros acc'.
  apply IH.
Qed.

End Keeps.

Ltac keeps_step :=
  first
    [ apply keeps_ret
    | apply keeps_gets
    | apply keeps_from_option
    | apply keeps_modify; intros ?; reflexivity
    | apply keeps_foreach; intros ?
    | apply keeps_foreach_carry; intros ? ?
    | apply keeps_bind; [|intros ?] ].

(** Parts of the state that neither the registry nor the target store
    belongs to are kept by the loops over the cameras and the targets. *)
Section KeepsLoad.

Context {B : Type} (proj : State -> B).
Hypothesis Hreg : forall f s, proj (set_ceres_blocks f s) = proj s.
Hypothesis Hstore : forall f s, proj (set_target_store f s) = proj s.

Lemma keeps_update_blocks f : keeps proj (update_blocks f).
Proof. unfold update_blocks. apply keeps_modify. apply Hreg. Qed.

Lemma keeps_lookup_block {A} (f : Registry.CeresBlocks -> option A) :
  keeps proj (lookup_block f).
Proof. unfold lookup_block. repeat keeps_step. Qed.

Lemma keeps_deref p : keeps proj (deref p).
Proof. unfold deref. repeat keeps_step. Qed.

Lemma keeps_assign p f : keeps proj (assign p f).
Proof.
  unfold assign. apply keeps_bind; [apply keeps_deref|intros t].
  apply keeps_modify. apply Hstore.
Qed.

Lemma keeps_make_shared : keeps proj make_shared_Target.
Proof.
  unfold make_shared_Target. apply keeps_bind; [apply keeps_gets|intros st].
  apply keeps_bind; [|intros _; apply keeps_ret].
  apply keeps_modify. apply Hstore.
Qed.

Lemma keeps_extract_into {A} (e : Extract A) p
    (set : A -> Target -> Target) :
  keeps proj (extract_into e p set).
Proof.
  unfold extract_into. apply keeps_bind; [apply keeps_extract|intros v].
  apply keeps_assign.
Qed.

Lemma keeps_load_static_camera n : keeps proj (load_static_camera n).
Proof.
  unfold load_static_camera.
  repeat (apply keeps_bind; [apply keeps_extract|intros ?]).
  apply keeps_update_blocks.
Qed.

Lemma keeps_load_moving_camera n : keeps proj (load_moving_camera n).
Proof.
  unfold load_moving_camera.
  repeat (apply keeps_bind; [apply keeps_extract|intros ?]).
  apply keeps_update_blocks.
Qed.

Lemma keeps_load_cameras d : keeps proj (load_cameras d).
Proof.
  unfold load_cameras. apply keeps_bind.
  - destruct (YamlDoc.static_cameras d); [|apply keeps_ret].
    apply keeps_foreach. intros n. apply keeps_load_static_camera.
  - intros _. destruct (YamlDoc.moving_cameras d); [|apply keeps_ret].
    apply keeps_foreach. intros n. apply keeps_load_moving_camera.
Qed.

Lemma keeps_load_points p l : keeps proj (load_points p l).
Proof.
  unfold load_points.
  apply keeps_bind; [apply keeps_from_option|intros points].
  apply keeps_foreach. intros pnt_node.
  apply keeps_bind; [apply keeps_from_option|intros pnt].
  apply keeps_bind; [apply keeps_extract|intros temp_pnt].
  do 3 (apply keeps_bind; [apply keeps_from_option|intros ?]).
  apply keeps_assign.
Qed.

Lemma keeps_load_static_target p n : keeps proj (load_static_target p n).
Proof.
  unfold load_static_target.
  repeat (apply keeps_bind; [apply keeps_extract_into|intros _]).
  apply keeps_bind; [apply keeps_load_points|intros _].
  apply keeps_bind; [apply keeps_deref|intros t].
  apply keeps_update_blocks.
Qed.

Lemma keeps_load_moving_target p n : keeps proj (load_moving_target p n).
Proof.
  unfold load_moving_target.
  repeat (apply keeps_bind; [apply keeps_extract_into|intros _]).
  apply keeps_bind; [apply keeps_extract|intros scene_id].
  apply keeps_bind; [apply keeps_extract_into|intros _].
  apply keeps_bind; [apply keeps_load_points|intros _].
  apply keeps_bind; [apply keeps_deref|intros t].
  apply keeps_update_blocks.
Qed.

Lemma keeps_load_targets d : keeps proj (load_targets d).
Proof.
  unfold load_targets. apply keeps_bind.
  - destruct (YamlDoc.static_targets d); [|apply keeps_ret].
    unfold load_static_targets.
    apply keeps_bind; [apply keeps_make_shared|intros p].
    apply keeps_bind; [apply keeps_assign|intros _].
    apply keeps_foreach. intros n. apply keeps_load_static_target.
  - intros _. destruct (YamlDoc.moving_targets d); [|apply keeps_ret].
    unfold load_moving_targets.
    apply keeps_bind; [apply keeps_make_shared|intros p].
    apply keeps_bind; [apply keeps_assign|intros _].
    apply keeps_foreach. intros n. apply keeps_load_moving_target.
Qed.

(** One observation of a scene, when the scene operations it applies keep
    the part as well. *)
Lemma keeps_load_observation i temp_targ n :
  (forall c s, proj (set_scene_list (alter (addCameraToScene c) i) s)
               = proj s) ->
  (forall c q roi s,
     proj (set_scene_list (alter (populateObsCmdList c q roi) i) s)
     = proj s) ->
  keeps proj (load_observation i temp_targ n).
Proof.
  intros Hadd Hcmd. unfold load_observation.
  apply keeps_bind; [apply keeps_extract|intros camera_name].
  apply keeps_bind; [apply keeps_lookup_block|intros cam].
  apply keeps_bind; [apply keeps_modify, Hadd|intros _].
  do 4 (apply keeps_bind; [apply keeps_extract|intros ?]).
  apply keeps_bind; [apply keeps_extract_into|intros _].
  apply keeps_bind; [apply keeps_deref|intros t].
  apply keeps_bind; [apply keeps_lookup_block|intros q].
  apply keeps_bind; [apply keeps_modify, Hcmd|intros _].
  apply keeps_ret.
Qed.

End KeepsLoad.

Lemma keeps_load_scene temp_targ entry :
  keeps collection_state (load_scene temp_targ entry).
Proof.
  destruct entry as [i n]. unfold load_scene.
  apply keeps_bind; [apply keeps_extract|intros scene_id_num].
  apply keeps_bind; [apply keeps_extract|intros trig_type].
  apply keeps_bind; [by apply keeps_modify|intros _].
  apply keeps_bind; [by apply keeps_modify|intros _].
  apply keeps_bind; [apply keeps_from_option|intros obs_node].
  apply keeps_foreach_carry. intros acc obs.
  by apply keeps_load_observation.
Qed.

Lemma keeps_load_scenes temp_targ jd :
  keeps collection_state (load_scenes temp_targ jd).
Proof.
  unfold load_scenes.
  apply keeps_bind; [apply keeps_extract|intros reference_frame].
  apply keeps_bind; [apply keeps_extract|intros parameters].
  destruct (YamlDoc.scenes jd); [|apply keeps_ret].
  apply keeps_bind; [by apply keeps_modify|intros _].
  apply keeps_bind; [|intros _; apply keeps_ret].
  apply keeps_foreach_carry. intros acc a. apply keeps_load_scene.
Qed.

Lemma keeps_load files : keeps collection_state (load files).
Proof.
  unfold load.
  repeat match goal with
         | |- keeps _ (if ?c then _ else _) => destruct c; [apply keeps_ret|]
         end.
  destruct (GetNextDocument (camera_input_file files)); [|apply keeps_ret].
  apply keeps_bind; [by apply keeps_load_cameras|intros _].
  destruct (GetNextDocument (target_input_file files)); [|apply keeps_ret].
  apply keeps_bind; [by apply keeps_load_targets|intros _].
  apply keeps_bind; [by apply keeps_make_shared|intros p].
  destruct (GetNextDocument (caljob_input_file files)); [|apply keeps_ret].
  apply keeps_bind; [apply keeps_load_scenes|intros _].
  apply keeps_ret.
Qed.

End LoadFrame.

(** X9.  Whatever [load] returns, it has added no data point and no
    residual and has not called the capture interface: the list of data
    points, the problem and the history are as before. *)
Theorem load_keeps_collection_state (files : Files) (s s' : State)
    (b : bool) :
  load files s = Ret b s' ->
  observation_data_point_list s' = observation_data_point_list s /\
  problem_ s' = problem_ s /\
  events s' = events s.
Proof.
  intros Hrun. apply LoadFrame.keeps_load in Hrun.
  unfold collection_state in Hrun. by injection Hrun as -> -> ->.
Qed.

Lemma load_keeps_collection_state_witness :
  exists s',
    load Examples.files_ok Examples.job_collected = Ret true s' /\
    observation_data_point_list s'
      = observation_data_point_list Examples.job_collected /\
    problem_ s' = problem_ Examples.job_collected /\
    events s' = events Examples.job_collected.
Proof.
  eexists. split.
  - vm_compute. reflexivity.
  - apply (load_keeps_collection_state Examples.files_ok
             Examples.job_collected _ true).
    vm_compute. reflexivity.
Defined.

(** ** [load]: the scenes *)

Module SceneLemmas.
Import MonadLemmas LoadLemmas LoadFrame.

(** One observation, when both lookups answer and [temp_targ] is live. *)
Lemma load_observation_eq i temp_targ n st cam q t :
  Registry.getCameraByName (ObsNode.camera n) (ceres_blocks_ st) = Some cam ->
  Registry.getTargetByName (ObsNode.target n) (ceres_blocks_ st) = Some q ->
  target_store st !! temp_targ = Some t ->
  load_observation i temp_targ (yaml_obs n) st =
    Ret q
      (set_scene_list
         (alter (populateObsCmdList cam q
                   (mkRoi (ObsNode.roi_x_min n) (ObsNode.roi_x_max n)
                      (ObsNode.roi_y_min n) (ObsNode.roi_y_max n))) i)
         (write temp_targ (set_target_name (ObsNode.target n) t)
            (set_scene_list (alter (addCameraToScene cam) i) st))).
Proof.
  intros Hcam Hq Ht. unfold load_observation, yaml_obs.
  erewrite bind_Ret; [|reflexivity].
  erewrite bind_Ret; [|apply LoadOutcome.lookup_block_eq; exact Hcam].
  erewrite bind_Ret; [|reflexivity].
  do 4 (erewrite bind_Ret; [|reflexivity]).
  erewrite bind_Ret; [|apply extract_into_eq; exact Ht].
  erewrite bind_Ret;
    [|apply deref_write; cbn; by eapply lookup_lt_Some].
  erewrite bind_Ret; [|apply LoadOutcome.lookup_block_eq; exact Hq].
  erewrite bind_Ret; [|reflexivity].
  reflexivity.
Qed.

Lemma heads_alter_keep (g : ObservationScene -> ObservationScene) (i : nat)
    (l : list ObservationScene) :
  (forall sc, scene_head (g sc) = scene_head sc) ->
  scene_head <$> alter g i l = scene_head <$> l.
Proof.
  intros Hg. revert i. induction l as [|sc l IH]; intros [|i]; cbn; try done.
  - by rewrite Hg.
  - f_equal. apply IH.
Qed.

Lemma heads_alter_set id tr (i : nat) (l : list ObservationScene) :
  scene_head <$> alter (setSceneId id) i (alter (setTrig tr) i l)
  = <[i := (id, tr)]> (scene_head <$> l).
Proof.
  revert i. induction l as [|sc l IH]; intros [|i]; cbn; try done.
  f_equal. apply IH.
Qed.

Lemma addCameraToScene_head c sc :
  scene_head (addCameraToScene c sc) = scene_head sc.
Proof. unfold addCameraToScene. by destruct (in_scene _ _). Qed.

Lemma keeps_heads_observation i temp_targ n :
  keeps (fun s => scene_head <$> scene_list_ s)
    (load_observation i temp_targ n).
Proof.
  apply keeps_load_observation; try done.
  - intros c s. cbn. apply heads_alter_keep, addCameraToScene_head.
  - intros c q roi s. cbn. by apply heads_alter_keep.
Qed.

Lemma load_scene_heads temp_targ i sn st q st' :
  load_scene temp_targ (i, yaml_scene sn) st = Ret q st' ->
  scene_head <$> scene_list_ st'
  = <[i := node_head sn]> (scene_head <$> scene_list_ st).
Proof.
  unfold load_scene, yaml_scene. intros Hrun.
  apply bind_Ret_inv in Hrun as (id & s0 & H0 & Hrun). injection H0 as <- <-.
  apply bind_Ret_inv in Hrun as (tr & s0 & H0 & Hrun). injection H0 as <- <-.
  apply bind_Ret_inv in Hrun as ([] & s1 & H1 & Hrun). injection H1 as <-.
  apply bind_Ret_inv in Hrun as ([] & s2 & H2 & Hrun). injection H2 as <-.
  apply bind_Ret_inv in Hrun as (obs & s3 & H3 & Hrun).
  injection H3 as <- <-.
  apply (keeps_foreach_carry (fun s => scene_head <$> scene_list_ s)) in Hrun;
    [|intros acc a; apply keeps_heads_observation].
  cbn beta in Hrun. rewrite Hrun. cbn. apply heads_alter_set.
Qed.

Lemma load_scene_loop_heads (l : list SceneNode.t) (a : nat) temp_targ st
    q st' :
  foreach_carry (zip (seq a (length l)) (map yaml_scene l)) temp_targ
    load_scene st = Ret q st' ->
  scene_head <$> scene_list_ st'
  = fold_left (fun h e => <[e.1 := node_head e.2]> h)
      (zip (seq a (length l)) l) (scene_head <$> scene_list_ st).
Proof.
  revert a temp_targ st.
  induction l as [|sn l IH]; intros a temp_targ st Hrun.
  - by injection Hrun as _ <-.
  - cbn [length seq map zip zip_with foreach_carry] in Hrun.
    apply bind_Ret_inv in Hrun as (q1 & s1 & Hsc & Hrest).
    apply IH in Hrest. rewrite Hrest.
    cbn [length seq zip zip_with fold_left fst snd].
    by rewrite (load_scene_heads _ _ _ _ _ _ Hsc).
Qed.

Lemma fold_heads l a (h : list (Z * Trigger)) :
  length h = (a + length l)%nat ->
  fold_left (fun h e => <[e.1 := node_head e.2]> h)
    (zip (seq a (length l)) l) h
  = take a h ++ (node_head <$> l).
Proof.
  revert a h. induction l as [|sn l IH]; intros a h Hlen.
  - cbn. rewrite app_nil_r, take_ge; [done|]. cbn in Hlen. lia.
  - cbn [length seq zip zip_with fold_left]. cbn [fst snd].
    rewrite (IH (S a)); [|rewrite length_insert; cbn in Hlen; lia].
    rewrite (take_S_r _ _ (node_head sn));
      [|apply list_lookup_insert_eq; cbn in Hlen; lia].
    rewrite take_insert_ge by lia.
    by rewrite <- app_assoc.
Qed.

Lemma length_resize_vector {A} n (d : A) l : length (resize n d l) = n.
Proof.
  unfold resize. rewrite length_app, length_take, length_replicate. lia.
Qed.

End SceneLemmas.

(** X10.  Two observations in a row, in one scene of the job document, both
    with all their keys and values that convert.  The target name of the
    second is written into the object that the lookup for the first
    returned: the target catalogued for the first observation is renamed to
    the target of the second one. *)
Theorem observation_renames_previous_target (i temp_targ : nat)
    (n1 n2 : ObsNode.t) (st : State) (cam1 cam2 : Camera) (q1 q2 : nat)
    (t0 t1 : Target) :
  Registry.getCameraByName (ObsNode.camera n1) (ceres_blocks_ st)
    = Some cam1 ->
  Registry.getCameraByName (ObsNode.camera n2) (ceres_blocks_ st)
    = Some cam2 ->
  Registry.getTargetByName (ObsNode.target n1) (ceres_blocks_ st)
    = Some q1 ->
  Registry.getTargetByName (ObsNode.target n2) (ceres_blocks_ st)
    = Some q2 ->
  target_store st !! temp_targ = Some t0 ->
  target_store st !! q1 = Some t1 ->
  exists st' t1',
    foreach_carry [yaml_obs n1; yaml_obs n2] temp_targ (load_observation i)
      st = Ret q2 st' /\
    target_store st' !! q1 = Some t1' /\
    target_name t1' = ObsNode.target n2.
Proof.
  intros Hc1 Hc2 Hq1 Hq2 Ht0 Ht1.
  pose proof (lookup_lt_Some _ _ _ Ht1) as Hlt.
  destruct (lookup_lt_is_Some_2
              (<[temp_targ := set_target_name (ObsNode.target n1) t0]>
                 (target_store st)) q1) as [t1'' Ht1''].
  { by rewrite length_insert. }
  do 2 eexists. split; [|split].
  - cbn [foreach_carry].
    erewrite MonadLemmas.bind_Ret;
      [|by eapply SceneLemmas.load_observation_eq].
    erewrite MonadLemmas.bind_Ret;
      [|eapply SceneLemmas.load_observation_eq;
        [exact Hc2|exact Hq2|exact Ht1'']].
    reflexivity.
  - cbn. apply list_lookup_insert_eq. by rewrite length_insert.
  - done.
Qed.

Lemma observation_renames_previous_target_witness :
  exists st' t1',
    foreach_carry [yaml_obs MoreExamples.obs_A; yaml_obs MoreExamples.obs_M]
      2%nat (load_observation 0) MoreExamples.job_catalogued
      = Ret 1%nat st' /\
    target_store st' !! 0%nat = Some t1' /\
    target_name t1' = "targetM".
Proof.
  apply (observation_renames_previous_target 0 2 MoreExamples.obs_A
           MoreExamples.obs_M MoreExamples.job_catalogued
           Examples.camA Examples.camA 0 1 default_Target Examples.targetA);
    reflexivity.
Defined.

(** X11.  The scenes that [load] builds from a job document whose nodes
    have all their keys, with values that convert.  When the job document
    has the key
    [scenes], the scene list ends up with exactly one scene per scene node,
    in order, each with the id of its node and the trigger made of the
    node's trigger type and the message "triggered", whatever the scene
    list was before.  When the key is absent the scene list is not
    touched. *)
Theorem load_scenes_builds_one_scene_per_node (temp_targ : nat)
    (jd : CaljobDoc) (st st' : State) (u : unit) :
  load_scenes temp_targ (yaml_caljob jd) st = Ret u st' ->
  match scenes jd with
  | Some l => scene_head <$> scene_list_ st' = node_head <$> l
  | None => scene_list_ st' = scene_list_ st
  end.
Proof.
  unfold load_scenes, yaml_caljob. intros Hrun.
  apply MonadLemmas.bind_Ret_inv in Hrun as (rf & s0 & H0 & Hrun).
  injection H0 as _ <-.
  apply MonadLemmas.bind_Ret_inv in Hrun as (op & s0 & H0 & Hrun).
  injection H0 as _ <-.
  cbn [YamlDoc.scenes] in Hrun. revert Hrun.
  destruct (scenes jd) as [l|]; cbn [fmap option_fmap option_map].
  - intros Hrun.
    apply MonadLemmas.bind_Ret_inv in Hrun as ([] & s1 & H1 & Hrun).
    injection H1 as <-.
    apply MonadLemmas.bind_Ret_inv in Hrun as (q & s2 & Hloop & Hret).
    injection Hret as _ <-.
    rewrite !length_map in Hloop.
    apply SceneLemmas.load_scene_loop_heads in Hloop. rewrite Hloop.
    cbn [scene_list_ set_scene_list].
    rewrite SceneLemmas.fold_heads.
    + by rewrite take_0.
    + by rewrite length_fmap, SceneLemmas.length_resize_vector.
  - intros H. by injection H as _ <-.
Qed.

Lemma load_scenes_builds_one_scene_per_node_witness :
  exists st',
    load_scenes 2 (yaml_caljob MoreExamples.caljob_two_scenes)
      MoreExamples.job_catalogued = Ret tt st' /\
    scene_head <$> scene_list_ st'
      = [(10, mkTrigger 1 "triggered"); (20, mkTrigger 2 "triggered")].
Proof.
  eexists. split.
  - vm_compute. reflexivity.
  - eapply (load_scenes_builds_one_scene_per_node 2
              MoreExamples.caljob_two_scenes MoreExamples.job_catalogued).
    vm_compute. reflexivity.
Defined.

(** ** [load]: the fields of the target objects *)

Module TargetFields.

Lemma length_all_points nodes : length (all_points nodes) = points_defined nodes.
Proof.
  unfold all_points, points_defined.
  induction nodes as [|n nodes IH]; [done|].
  cbn. by rewrite length_app, length_map, IH.
Qed.

End TargetFields.

(** X12.  The object that the loop of [load] over the static targets leaves
    behind (on nodes that have all their keys, with values that convert)
    has, from the node parsed last, the six pose components (each
    from its own key), the checker-board rows and columns and the value of
    [num_points]; its point list, however, holds the points of all the
    nodes, so [num_points] is not the number of points stored. *)
Theorem static_target_fields_and_point_count (nodes : list TargetNode.t)
    (last : TargetNode.t) (s : State) :
  exists s' T,
    load_static_targets (map yaml_target (nodes ++ [last])) s = Ret tt s' /\
    target_store s' = target_store s ++ [T] /\
    pose T =
      mkPose6d (TargetNode.angle_axis_ax last) (TargetNode.angle_axis_ay last)
        (TargetNode.angle_axis_az last) (TargetNode.position_x last)
        (TargetNode.position_y last) (TargetNode.position_z last) /\
    checker_board_parameters T =
      mkCheckerBoard (TargetNode.target_rows last)
        (TargetNode.target_cols last) /\
    num_points T = TargetNode.num_points last /\
    length (pts T) = points_defined (nodes ++ [last]).
Proof.
  do 2 eexists. split; [apply LoadLemmas.load_static_targets_eq|].
  split; [reflexivity|].
  rewrite LoadLemmas.fold_static_pts, fold_left_app. cbn.
  repeat split; try done.
  rewrite <- TargetFields.length_all_points.
  unfold all_points. rewrite map_app, concat_app. cbn.
  by rewrite app_nil_r.
Qed.

Lemma static_target_fields_and_point_count_witness :
  exists s' T,
    load_static_targets
      (map yaml_target [Examples.node_targetA; Examples.node_targetB])
      Examples.empty_job = Ret tt s' /\
    target_store s' = [T] /\
    num_points T = 1 /\
    length (pts T) = 5%nat.
Proof.
  destruct (static_target_fields_and_point_count [Examples.node_targetA]
              Examples.node_targetB Examples.empty_job)
    as (s' & T & Hrun & Hstore & _ & _ & Hnum & Hlen).
  exists s', T. split; [exact Hrun|]. split; [exact Hstore|].
  split; [exact Hnum|exact Hlen].
Defined.

(** X13.  One iteration of the loop of [load] over the moving targets,
    writing to a live object, on a node that has all its keys, with values
    that convert, never sets the checker-board parameters: they
    stay what they were, and the values of the keys [target_rows] and
    [target_cols] have no influence on the outcome, and neither has their
    absence. *)
Theorem moving_target_ignores_rows_cols (temp_target : nat)
    (n : TargetNode.t) (t : Target) (s : State) :
  target_store s !! temp_target = Some t ->
  exists s' t',
    load_moving_target temp_target (yaml_target n) s = Ret tt s' /\
    target_store s' !! temp_target = Some t' /\
    checker_board_parameters t' = checker_board_parameters t /\
    (forall rows cols,
       load_moving_target temp_target
         (yaml_target (with_rows_cols rows cols n)) s
       = Ret tt s') /\
    (forall rows cols,
       load_moving_target temp_target
         (yaml_with_rows_cols rows cols (yaml_target n)) s
       = Ret tt s').
Proof.
  intros Ht.
  pose proof (lookup_lt_Some _ _ _ Ht) as Hlt.
  rewrite <- (LoadLemmas.write_id temp_target t s Ht).
  do 2 eexists. split; [by apply LoadLemmas.load_moving_target_write|].
  split; [by apply LoadLemmas.lookup_write|].
  split; [done|]. split.
  - intros rows cols. by rewrite LoadLemmas.load_moving_target_write.
  - intros rows cols.
    change (load_moving_target temp_target
              (yaml_with_rows_cols rows cols (yaml_target n)))
      with (load_moving_target temp_target (yaml_target n)).
    by rewrite LoadLemmas.load_moving_target_write.
Qed.

Lemma moving_target_ignores_rows_cols_witness :
  target_store Examples.job_AM !! 1%nat = Some Examples.targetM /\
  exists s' t',
    load_moving_target 1 (yaml_target Examples.node_targetM) Examples.job_AM
      = Ret tt s' /\
    target_store s' !! 1%nat = Some t' /\
    checker_board_parameters t'
      = checker_board_parameters Examples.targetM /\
    (forall rows cols,
       load_moving_target 1
         (yaml_target (with_rows_cols rows cols Examples.node_targetM))
         Examples.job_AM
       = Ret tt s') /\
    (forall rows cols,
       load_moving_target 1
         (yaml_with_rows_cols rows cols (yaml_target Examples.node_targetM))
         Examples.job_AM
       = Ret tt s').
Proof.
  split; [reflexivity|].
  exact (moving_target_ignores_rows_cols 1%nat Examples.node_targetM
           Examples.targetM Examples.job_AM eq_refl).
Defined.

(** X14.  [run] inherits the unbounded wait of the collection.  When the
    capture of one camera that is active in a scene of the job never
    completes, the collection does not return and [run] ends exactly as the
    collection does, spinning or with the same error: the call of
    [runOptimization] is not reached, and [run] never returns. *)
Theorem run_never_returns_without_capture (world : World) (fuel : nat)
    (s : State) (scene : ObservationScene) (camera : Camera)
    (o : CameraObserver) :
  scene ∈ scene_list_ s ->
  camera ∈ cameras_in_scene_ scene ->
  camera_observer_ camera = Some o ->
  (forall h, observationsDone_answer world h o = false) ->
  ends_like (runObservations world fuel s) (run world fuel s) /\
  forall v s', run world fuel s <> Ret v s'.
Proof.
  intros Hscene Hcamera Ho Hnever.
  pose proof (fun b s1 =>
    WaitLemmas.runObservations_not_Ret world fuel s scene camera o b s1
      Hscene Hcamera Ho Hnever) as Hnot.
  destruct (runObservations world fuel s) as [b s1| |] eqn:E.
  - by destruct (Hnot b s1).
  - unfold run. rewrite (MonadLemmas.bind_Raise _ _ _ _ E).
    split; [right; by exists e|by intros v s'].
  - unfold run. rewrite (MonadLemmas.bind_Spin _ _ _ E).
    split; [by left|by intros v s'].
Qed.

Lemma run_never_returns_without_capture_witness :
  ends_like
    (runObservations MoreExamples.camA_stuck 10
       MoreExamples.job_stuck_second)
    (run MoreExamples.camA_stuck 10 MoreExamples.job_stuck_second) /\
  forall v s',
    run MoreExamples.camA_stuck 10 MoreExamples.job_stuck_second
    <> Ret v s'.
Proof.
  apply (run_never_returns_without_capture MoreExamples.camA_stuck 10
           MoreExamples.job_stuck_second Examples.scene1 Examples.camA
           (ROSCameraObserver "/camA/image")).
  - apply list_elem_of_further, list_elem_of_here.
  - apply list_elem_of_here.
  - reflexivity.
  - reflexivity.
Defined.
